(** * A shallow embedding of the VidiSnap processor service (src/processor/app.py)

    The process-wide state is the temporary filesystem, the log and the two
    module-level globals [model] and [processor].  Everything the code
    obtains from outside (the upload body, the operating system's error
    answers, the ffmpeg child process, the ViT processor and model, torch's
    [softmax] and [topk], Python's Unicode database) is an oracle of an
    environment record, so every theorem holds for all such behaviours. *)

From Stdlib Require Import String Ascii List ZArith QArith Qround Lia Permutation Sorted.
From Stdlib Require Import Strings.Byte.
From stdpp Require Import base gmap strings list pretty.
From Stdlib Require Import Lqa.

Import ListNotations.
Open Scope Z_scope.

(* ------------------------------------------------------------------ *)
(** ** Python strings

    A Python [str] is represented by its UTF-8 encoding, the form in which
    paths reach the operating system and ffmpeg.  [os.path] splits at the
    ASCII characters '/' and '.', whose bytes never occur inside the
    encoding of another code point, so it works on the encoding unchanged. *)

Definition byte_val (c : ascii) : Z := Z.of_nat (nat_of_ascii c).
Definition byte_chr (b : Z) : ascii := ascii_of_nat (Z.to_nat b).

Definition str_bytes (s : string) : list Z := List.map byte_val (list_ascii_of_string s).

Definition in_range (lo hi b : Z) : bool := (lo <=? b) && (b <=? hi).

(** The error of CPython's strict UTF-8 decoder: the positions [start] and
    [end] of the offending bytes and the reason. *)
Record decode_error := mkDecodeError { err_start : nat; err_end : nat; err_reason : string }.

Definition cons_cp (c : Z) (r : list Z + decode_error) : list Z + decode_error :=
  match r with inl cs => inl (c :: cs) | inr e => inr e end.

(** [bytes.decode("utf-8")] (Objects/stringlib/codecs.h, [utf8_decode] and
    its error cases in [unicode_decode_utf8]), from position [pos]. *)
Fixpoint utf8_decode_from (pos : nat) (l : list Z) : list Z + decode_error :=
  match l with
  | [] => inl []
  | b0 :: rest =>
      let invalid_start : list Z + decode_error :=
        inr (mkDecodeError pos (S pos) "invalid start byte") in
      let invalid_cont (n : nat) : list Z + decode_error :=
        inr (mkDecodeError pos (pos + n)%nat "invalid continuation byte") in
      let unexpected_end : list Z + decode_error :=
        inr (mkDecodeError pos (pos + length l)%nat "unexpected end of data") in
      if b0 <? 128 then cons_cp b0 (utf8_decode_from (S pos) rest)
      else if b0 <? 194 then invalid_start
      else if b0 <? 224 then
        match rest with
        | [] => unexpected_end
        | b1 :: rest1 =>
            if in_range 128 191 b1
            then cons_cp ((b0 - 192) * 64 + (b1 - 128)) (utf8_decode_from (pos + 2)%nat rest1)
            else invalid_cont 1%nat
        end
      else if b0 <? 240 then
        let lo := if b0 =? 224 then 160 else 128 in
        let hi := if b0 =? 237 then 159 else 191 in
        match rest with
        | [] => unexpected_end
        | [b1] => if in_range lo hi b1 then unexpected_end else invalid_cont 1%nat
        | b1 :: b2 :: rest2 =>
            if negb (in_range lo hi b1) then invalid_cont 1%nat
            else if negb (in_range 128 191 b2) then invalid_cont 2%nat
            else cons_cp ((b0 - 224) * 4096 + (b1 - 128) * 64 + (b2 - 128))
                         (utf8_decode_from (pos + 3)%nat rest2)
        end
      else if b0 <? 245 then
        let lo := if b0 =? 240 then 144 else 128 in
        let hi := if b0 =? 244 then 143 else 191 in
        match rest with
        | [] => unexpected_end
        | [b1] => if in_range lo hi b1 then unexpected_end else invalid_cont 1%nat
        | [b1; b2] =>
            if negb (in_range lo hi b1) then invalid_cont 1%nat
            else if negb (in_range 128 191 b2) then invalid_cont 2%nat
            else unexpected_end
        | b1 :: b2 :: b3 :: rest3 =>
            if negb (in_range lo hi b1) then invalid_cont 1%nat
            else if negb (in_range 128 191 b2) then invalid_cont 2%nat
            else if negb (in_range 128 191 b3) then invalid_cont 3%nat
            else cons_cp ((b0 - 240) * 262144 + (b1 - 128) * 4096 + (b2 - 128) * 64 + (b3 - 128))
                         (utf8_decode_from (pos + 4)%nat rest3)
        end
      else invalid_start
  end.

Definition utf8_decode (s : string) : list Z + decode_error := utf8_decode_from 0 (str_bytes s).

(** The UTF-8 encoding of one code point. *)
Definition utf8_encode_cp (c : Z) : list ascii :=
  List.map byte_chr
    (if c <? 128 then [c]
     else if c <? 2048 then [192 + c / 64; 128 + c mod 64]
     else if c <? 65536 then [224 + c / 4096; 128 + (c / 64) mod 64; 128 + c mod 64]
     else [240 + (c / 262144) mod 8; 128 + (c / 4096) mod 64; 128 + (c / 64) mod 64;
           128 + c mod 64]).

Definition utf8_encode (cs : list Z) : string := string_of_list_ascii (flat_map utf8_encode_cp cs).

(** What Python takes from its Unicode database.  [lower_other cps i] is
    [str.lower]'s mapping of the code point at index [i] of the string
    [cps] (the whole string is given for the final-sigma rule), for the
    non-ASCII code points other than U+0130 and U+212A, the only ones whose
    lowercase contains ASCII; it is a list of non-ASCII code points, each
    given as its offset from U+0080.  [printable_other c] is
    [str.isprintable] of a non-ASCII code point. *)
Record unicode_db := mkUnicode {
  lower_other : list Z -> nat -> list N;
  printable_other : Z -> bool
}.

(** [str.lower] of the code point [c] at index [i] of [cps]. *)
Definition lower_cp (U : unicode_db) (cps : list Z) (i : nat) (c : Z) : list Z :=
  if (65 <=? c) && (c <=? 90) then [c + 32]
  else if c <? 128 then [c]
  else if c =? 304 then [105; 775]   (* U+0130 -> 'i' U+0307 *)
  else if c =? 8490 then [107]        (* U+212A KELVIN SIGN -> 'k' *)
  else List.map (fun n => 128 + Z.of_N n) (lower_other U cps i).

Fixpoint lower_from (U : unicode_db) (cps : list Z) (i : nat) (l : list Z) : list Z :=
  match l with
  | [] => []
  | c :: rest => lower_cp U cps i c ++ lower_from U cps (S i) rest
  end.

(** [str.lower]; the encoding of a [str] is always valid UTF-8 (any other
    byte string is returned unchanged). *)
Definition lower (U : unicode_db) (s : string) : string :=
  match utf8_decode s with
  | inl cps => utf8_encode (lower_from U cps 0 cps)
  | inr _ => s
  end.

Definition hex_digit (n : Z) : ascii := if n <? 10 then byte_chr (48 + n) else byte_chr (87 + n).

(** [n] as [width] lowercase hexadecimal digits. *)
Fixpoint hex_digits (width : nat) (n : Z) : list ascii :=
  match width with
  | O => []
  | S w => hex_digits w (n / 16) ++ [hex_digit (n mod 16)]
  end.

(** The text [repr] gives one code point [c] when the quote is [quote]
    (Objects/unicodeobject.c, [unicode_repr]). *)
Definition repr_cp (U : unicode_db) (quote : Z) (c : Z) : list ascii :=
  if (c =? quote) || (c =? 92) then [byte_chr 92; byte_chr c]
  else if c =? 9 then [byte_chr 92; "t"%char]
  else if c =? 10 then [byte_chr 92; "n"%char]
  else if c =? 13 then [byte_chr 92; "r"%char]
  else if (c <? 32) || (c =? 127) then byte_chr 92 :: "x"%char :: hex_digits 2 c
  else if c <? 127 then [byte_chr c]
  else if printable_other U c then utf8_encode_cp c
  else if c <=? 255 then byte_chr 92 :: "x"%char :: hex_digits 2 c
  else if c <=? 65535 then byte_chr 92 :: "u"%char :: hex_digits 4 c
  else byte_chr 92 :: "U"%char :: hex_digits 8 c.

(** [repr(s)]: single quotes unless [s] contains a single quote and no
    double quote. *)
Definition py_repr (U : unicode_db) (s : string) : string :=
  match utf8_decode s with
  | inl cps =>
      let quote := if existsb (Z.eqb 39) cps && negb (existsb (Z.eqb 34) cps) then 34 else 39 in
      string_of_list_ascii (byte_chr quote :: flat_map (repr_cp U quote) cps ++ [byte_chr quote])
  | inr _ => ("'" ++ s ++ "'")%string
  end.

(** [str(e)] of the [UnicodeDecodeError] for the bytes [data]. *)
Definition decode_error_message (data : list Z) (e : decode_error) : string :=
  ("'utf-8' codec can't decode " ++
   (if Nat.eqb (err_end e) (S (err_start e))
    then "byte 0x" ++ string_of_list_ascii (hex_digits 2 (nth (err_start e) data 0))
         ++ " in position " ++ pretty (err_start e)
    else "bytes in position " ++ pretty (err_start e) ++ "-" ++ pretty (err_end e - 1)%nat)
   ++ ": " ++ err_reason e)%string.

(** [s.replace("\r\n", "\n")]. *)
Fixpoint replace_crlf (l : list ascii) : list ascii :=
  match l with
  | [] => []
  | c :: rest =>
      match rest with
      | d :: rest' =>
          if Ascii.eqb c "013"%char && Ascii.eqb d "010"%char
          then "010"%char :: replace_crlf rest'
          else c :: replace_crlf rest
      | [] => [c]
      end
  end.

(** [s.replace("\r", "\n")]. *)
Definition replace_cr (l : list ascii) : list ascii :=
  List.map (fun c => if Ascii.eqb c "013"%char then "010"%char else c) l.

(** [Popen._translate_newlines(data, encoding, errors)] with the UTF-8
    locale encoding and strict errors: the decoded text, or the message of
    the [UnicodeDecodeError]. *)
Definition translate_newlines (data : string) : string + string :=
  match utf8_decode data with
  | inl _ => inl (string_of_list_ascii (replace_cr (replace_crlf (list_ascii_of_string data))))
  | inr e => inr (decode_error_message (str_bytes data) e)
  end.

(** [str.rfind] of one character; [None] stands for Python's [-1]. *)
Fixpoint rfind_aux (c : ascii) (l : list ascii) (i : nat) (acc : option nat) : option nat :=
  match l with
  | [] => acc
  | x :: t => rfind_aux c t (S i) (if Ascii.eqb x c then Some i else acc)
  end.

Definition rfind (c : ascii) (l : list ascii) : option nat := rfind_aux c l 0 None.

(** [dotIndex > sepIndex] with [-1] encoded as [None]. *)
Definition index_gt (a b : option nat) : bool :=
  match a, b with
  | Some x, Some y => (y <? x)%nat
  | Some _, None => true
  | None, _ => false
  end.

(** The leading-dots loop of [genericpath._splitext]:
    [while filenameIndex < dotIndex: if p[filenameIndex] != '.': ...]. *)
Fixpoint skips_only_dots (l : list ascii) (filenameIndex dotIndex : nat) (fuel : nat) : bool :=
  match fuel with
  | O => true
  | S fuel' =>
      if (filenameIndex <? dotIndex)%nat then
        match nth_error l filenameIndex with
        | Some c => if Ascii.eqb c "."%char
                    then skips_only_dots l (S filenameIndex) dotIndex fuel'
                    else false
        | None => true
        end
      else true
  end.

(** [posixpath.splitext p] (sep = '/', extsep = '.', no altsep). *)
Definition splitext (p : string) : string * string :=
  let l := list_ascii_of_string p in
  let sepIndex := rfind "/"%char l in
  let dotIndex := rfind "."%char l in
  match dotIndex with
  | Some d =>
      if index_gt dotIndex sepIndex then
        let filenameIndex := match sepIndex with Some s => S s | None => O end in
        if skips_only_dots l filenameIndex d d
        then (p, ""%string)
        else (string_of_list_ascii (firstn d l), string_of_list_ascii (skipn d l))
      else (p, ""%string)
  | None => (p, ""%string)
  end.

(** [posixpath.join a b] for two components. *)
Definition path_join (a b : string) : string :=
  match b with
  | String "/"%char _ => b
  | _ =>
      match a with
      | EmptyString => b
      | _ => if String.eqb (substring (String.length a - 1) 1 a) "/"
             then (a ++ b)%string else (a ++ "/" ++ b)%string
      end
  end.

(** [sep.join(items)]. *)
Fixpoint py_join (sep : string) (items : list string) : string :=
  match items with
  | [] => ""%string
  | [x] => x
  | x :: rest => (x ++ sep ++ py_join sep rest)%string
  end.

(* ------------------------------------------------------------------ *)
(** ** The name under which ffmpeg's image2 muxer writes its first image

    libavformat's [av_get_frame_filename2(buf, 1024, path, 1,
    AV_FRAME_FILENAME_FLAGS_MULTIPLE)] as img2enc.c's [write_packet] calls
    it (FFmpeg 4.x to 6.x, no [-update], no [-frame_pts]). *)

Definition is_digit (c : ascii) : bool := (48 <=? byte_val c) && (byte_val c <=? 57).

(** The width digits after a '%':
    [while (av_isdigit( *p)) { if (nd >= INT_MAX / 10 - 255) goto fail; nd = nd * 10 + *p++ - '0'; }]. *)
Fixpoint read_width (p : list ascii) (nd : Z) : option (Z * list ascii) :=
  match p with
  | c :: rest =>
      if is_digit c then
        if nd >=? 214748109 then None else read_width rest (nd * 10 + (byte_val c - 48))
      else Some (nd, p)
  | [] => Some (nd, [])
  end.

(** [snprintf(buf1, sizeof(buf1), "%0*d", nd, number)] with [number] 1 and
    [char buf1[20]]. *)
Definition padded_one (nd : Z) : list ascii :=
  if nd <=? 19 then repeat "0"%char (Z.to_nat (nd - 1)) ++ ["1"%char] else repeat "0"%char 19.

Definition buf_size : nat := 1024.

(** [if ((q - buf) < buf_size - 1) *q++ = c;]. *)
Definition addchar (q : list ascii) (c : ascii) : list ascii :=
  if (length q <? buf_size - 1)%nat then q ++ [c] else q.

(** The [for (;;)] loop: the buffer [q] when the loop ends, and whether
    the function succeeds.  Each turn consumes at least one character. *)
Fixpoint frame_filename_loop (fuel : nat) (p q : list ascii) (percentd_found : bool)
  : list ascii * bool :=
  match fuel with
  | O => (q, false)
  | S fuel' =>
      match p with
      | [] => (q, percentd_found)
      | c :: rest =>
          if Ascii.eqb c "%"%char then
            match read_width rest 0 with
            | None => (q, false)
            | Some (_, []) => (q, false)
            | Some (nd, c' :: rest') =>
                if Ascii.eqb c' "%"%char
                then frame_filename_loop fuel' rest' (addchar q "%"%char) percentd_found
                else if Ascii.eqb c' "d"%char then
                  let buf1 := padded_one nd in
                  if (buf_size - 1 <? length q + length buf1)%nat then (q, false)
                  else frame_filename_loop fuel' rest' (q ++ buf1) true
                else (q, false)
            end
          else frame_filename_loop fuel' rest (addchar q c) percentd_found
      end
  end.

(** The path as a C string: up to its first NUL. *)
Fixpoint c_chars (l : list ascii) : list ascii :=
  match l with
  | [] => []
  | c :: rest => if Ascii.eqb c "000"%char then [] else c :: c_chars rest
  end.

(** The name of the first image: what [av_get_frame_filename2] leaves in
    [filename[1024]].  [write_packet] only reports its failure for images
    after the first, so the first image is written under that name even
    when the function fails. *)
Definition image2_filename (url : string) : string :=
  let p := c_chars (list_ascii_of_string url) in
  string_of_list_ascii (fst (frame_filename_loop (S (length p)) p [] false)).

(* ------------------------------------------------------------------ *)
(** ** Process state, Python exceptions and the state/exception monad *)

(** The module-level globals [model] and [processor] hold the name of the
    loaded checkpoint once [from_pretrained] succeeded ([None] as in Python
    before the lifespan has run). *)
Record state := mkState {
  fs : gmap string (list byte);
  logs : list string;
  model : option string;
  processor : option string
}.

Inductive py_exc :=
| HTTPException (status_code : Z) (detail : string)
| TypeError (msg : string)
| OSError (msg : string)
| OtherError (msg : string).

(** [str(e)] of an exception. *)
Definition exc_str (e : py_exc) : string :=
  match e with
  | HTTPException _ d => d
  | TypeError m | OSError m | OtherError m => m
  end.

Inductive result (A : Type) :=
| Ok (a : A)
| Raise (e : py_exc).
Arguments Ok {A} a.
Arguments Raise {A} e.

Definition M (A : Type) : Type := state -> result A * state.

Definition ret {A} (a : A) : M A := fun s => (Ok a, s).
Definition raise {A} (e : py_exc) : M A := fun s => (Raise e, s).
Definition bind {A B} (m : M A) (k : A -> M B) : M B :=
  fun s => match m s with
           | (Ok a, s') => k a s'
           | (Raise e, s') => (Raise e, s')
           end.

Notation "'let*' x ':=' m 'in' k" := (bind m (fun x => k))
  (at level 200, x name, m at level 100, k at level 200).

(** [try: body  except Exception as e: handler(e)]. *)
Definition try_except {A} (body : M A) (handler : py_exc -> M A) : M A :=
  fun s => match body s with
           | (Ok a, s') => (Ok a, s')
           | (Raise e, s') => handler e s'
           end.

Definition set_fs (f : gmap string (list byte) -> gmap string (list byte)) : M unit :=
  fun s => (Ok tt, mkState (f (fs s)) (logs s) (model s) (processor s)).

Definition log (msg : string) : M unit :=
  fun s => (Ok tt, mkState (fs s) (logs s ++ [msg]) (model s) (processor s)).

Definition of_result {A} (r : result A) : M A := fun s => (r, s).

(** [open(p, "rb")] and [read()]: [FileNotFoundError] when [p] is absent,
    [err p] when reading an existing [p] fails. *)
Definition open_read (U : unicode_db) (err : string -> option string) (p : string) : M (list byte) :=
  fun s => match fs s !! p with
           | None => (Raise (OSError ("[Errno 2] No such file or directory: " ++ py_repr U p)%string), s)
           | Some b =>
               match err p with
               | Some msg => (Raise (OSError msg), s)
               | None => (Ok b, s)
               end
           end.

(** What the outside world answers.

    [ffmpeg] runs the child process on the content of the video path: it
    fails to start, or exits with a status, the raw bytes of its stderr
    and possibly a written image. *)
Inductive ffmpeg_outcome :=
| FFmpegLaunchError (msg : string)
| FFmpegExited (returncode : Z) (stderr : string) (frame_written : option (list byte)).

(** Labels with their [round(score, 4)] in units of 1e-4. *)
Definition labels := list (string * Z).

(** [Image.open] failing: PIL's [UnidentifiedImageError], or another
    exception with its message. *)
Inductive open_failure :=
| Unidentified
| OpenFailed (msg : string).

(** The loaded processor and model, and torch, on the bytes of an image
    (floats are finite, hence rationals): [pil_open] is [Image.open]'s
    outcome; [preprocess] the failure of [processor(images=image, ...)]
    (which decodes the pixels), if any; [forward] the logits row of
    [model( **inputs)] or its error; [softmax] is
    [torch.nn.functional.softmax] on a row; [topk probs k] is
    [torch.topk]'s [(value, index)] pairs or its error; [id2label] is
    [model.config.id2label]. *)
Record vit := mkVit {
  pil_open : list byte -> option open_failure;
  preprocess : list byte -> option string;
  forward : list byte -> list Q + string;
  softmax : list Q -> list Q;
  topk : list Q -> nat -> list (Q * nat) + string;
  id2label : nat -> option string
}.

(** [open_error p] / [remove_error p] are the [OSError] messages of
    [open(p, "wb")] / [os.remove(p)], if any; [read_error p] that of
    reading an existing [p]; [upload_body] is the result of
    [await file.read()]; [write_error = Some (n, msg)] makes
    [buffer.write] or the flush at [close] fail with [msg] (e.g. a full
    disk) after the first [n] bytes reached the file; [set_order] is the
    iteration order of the [valid_extensions] set literal, which depends on
    the string hash seed. *)
Record env := mkEnv {
  unicode : unicode_db;
  open_error : string -> option string;
  upload_body : option (list byte);
  write_error : option (nat * string);
  ffmpeg : option (list byte) -> ffmpeg_outcome;
  read_error : string -> option string;
  vit_model : vit;
  remove_error : string -> option string;
  set_order : list string
}.


(* ------------------------------------------------------------------ *)
(** ** [base64.b64encode] (RFC 4648 standard alphabet, with padding) and
    the decoder the client applies ([base64.b64decode]) *)

Definition b64_char (i : Z) : ascii :=
  if i <? 26 then ascii_of_nat (Z.to_nat (65 + i))
  else if i <? 52 then ascii_of_nat (Z.to_nat (97 + (i - 26)))
  else if i <? 62 then ascii_of_nat (Z.to_nat (48 + (i - 52)))
  else if i =? 62 then "+"%char else "/"%char.

Definition b64_index (c : ascii) : option Z :=
  let n := Z.of_nat (nat_of_ascii c) in
  if (65 <=? n) && (n <=? 90) then Some (n - 65)
  else if (97 <=? n) && (n <=? 122) then Some (n - 97 + 26)
  else if (48 <=? n) && (n <=? 57) then Some (n - 48 + 52)
  else if n =? 43 then Some 62
  else if n =? 47 then Some 63
  else None.

Definition bz (b : byte) : Z := Z.of_N (Byte.to_N b).

(** The 6-bit group [k] (counted from the most significant) of a 24-bit word. *)
Definition sextet (n : Z) (k : Z) : ascii := b64_char (Z.land (Z.shiftr n (18 - 6 * k)) 63).

Fixpoint b64encode_list (bs : list byte) : list ascii :=
  match bs with
  | b0 :: b1 :: b2 :: rest =>
      let n := Z.lor (Z.shiftl (bz b0) 16) (Z.lor (Z.shiftl (bz b1) 8) (bz b2)) in
      sextet n 0 :: sextet n 1 :: sextet n 2 :: sextet n 3 :: b64encode_list rest
  | [b0; b1] =>
      let n := Z.lor (Z.shiftl (bz b0) 16) (Z.shiftl (bz b1) 8) in
      [sextet n 0; sextet n 1; sextet n 2; "="%char]
  | [b0] =>
      let n := Z.shiftl (bz b0) 16 in
      [sextet n 0; sextet n 1; "="%char; "="%char]
  | [] => []
  end.

(** [base64.b64encode(data).decode('utf-8')]. *)
Definition b64encode (bs : list byte) : string := string_of_list_ascii (b64encode_list bs).

Definition byte_of (z : Z) : option byte := Byte.of_N (Z.to_N z).

Definition quad (i0 i1 i2 i3 : Z) : Z := i0 * 262144 + i1 * 4096 + i2 * 64 + i3.

Definition bytes_of_quad (n : Z) (count : nat) : option (list byte) :=
  match byte_of ((n / 65536) mod 256), byte_of ((n / 256) mod 256), byte_of (n mod 256) with
  | Some x, Some y, Some z => Some (firstn count [x; y; z])
  | _, _, _ => None
  end.

Fixpoint b64decode_list (cs : list ascii) : option (list byte) :=
  match cs with
  | [] => Some []
  | c0 :: c1 :: c2 :: c3 :: rest =>
      let pad2 := Ascii.eqb c2 "="%char && Ascii.eqb c3 "="%char in
      let pad1 := Ascii.eqb c3 "="%char in
      match rest, pad2, pad1 with
      | [], true, _ =>
          match b64_index c0, b64_index c1 with
          | Some i0, Some i1 => bytes_of_quad (quad i0 i1 0 0) 1
          | _, _ => None
          end
      | [], false, true =>
          match b64_index c0, b64_index c1, b64_index c2 with
          | Some i0, Some i1, Some i2 => bytes_of_quad (quad i0 i1 i2 0) 2
          | _, _, _ => None
          end
      | _, _, _ =>
          match b64_index c0, b64_index c1, b64_index c2, b64_index c3 with
          | Some i0, Some i1, Some i2, Some i3 =>
              match bytes_of_quad (quad i0 i1 i2 i3) 3, b64decode_list rest with
              | Some h, Some t => Some (h ++ t)
              | _, _ => None
              end
          | _, _, _, _ => None
          end
      end
  | _ => None
  end.

Definition b64decode (s : string) : option (list byte) := b64decode_list (list_ascii_of_string s).


(* ------------------------------------------------------------------ *)
(** ** The operations of app.py *)

Definition valid_extensions : list string :=
  [".mp4"; ".avi"; ".mov"; ".mkv"; ".wmv"; ".flv"; ".webm"]%string.

Definition invalid_format_detail (order : list string) : string :=
  ("Invalid video file format. Supported formats: " ++ py_join ", " order)%string.

(** [validate_video_file(filename)]; [order] is the iteration order of the
    set literal. *)
Definition validate_video_file (U : unicode_db) (order : list string) (filename : string) : M unit :=
  let file_ext := snd (splitext (lower U filename)) in
  if existsb (String.eqb file_ext) valid_extensions then ret tt
  else raise (HTTPException 400 (invalid_format_detail order)).

Definition video_path_of (filename : string) : string := path_join "/tmp" filename.

(** [open(p, "wb")]: creates or truncates [p]. *)
Definition open_wb (E : env) (p : string) : M unit :=
  match open_error E p with
  | Some msg => raise (OSError msg)
  | None => set_fs (insert p [])
  end.

(** [save_uploaded_video(file)]. *)
Definition save_uploaded_video (E : env) (filename : string) : M string :=
  let video_path := video_path_of filename in
  try_except
    (let* _ := open_wb E video_path in
     let* content := match upload_body E with
                     | Some c => ret c
                     | None => raise (OSError "upload read failed")
                     end in
     let* _ := match write_error E with
               | Some (n, msg) =>
                   let* _ := set_fs (insert video_path (firstn n content)) in
                   raise (OSError msg)
               | None => set_fs (insert video_path content)
               end in
     ret video_path)
    (fun e => raise (HTTPException 500 ("Failed to save video: " ++ exc_str e)%string)).

Definition frame_path_of (filename : string) : string :=
  path_join "/tmp" ("frame_" ++ filename ++ ".jpg")%string.

(** Where ffmpeg writes the frame of a request for [filename]. *)
Definition frame_output_of (filename : string) : string := image2_filename (frame_path_of filename).

(** [subprocess.run(ffmpeg_cmd, capture_output=True, text=True)]: the child
    reads the video path and (with [-y]) may write its image under the
    image2 name of the frame path; once it has exited, its output is
    decoded ([stdout] is empty). *)
Definition run_ffmpeg (E : env) (video_path frame_path : string) : M (Z * string) :=
  fun s =>
    match ffmpeg E (fs s !! video_path) with
    | FFmpegLaunchError msg => (Raise (OSError msg), s)
    | FFmpegExited rc err out =>
        let fs' := match out with
                   | Some b => <[image2_filename frame_path := b]> (fs s)
                   | None => fs s
                   end in
        let s' := mkState fs' (logs s) (model s) (processor s) in
        match translate_newlines err with
        | inl text => (Ok (rc, text), s')
        | inr msg => (Raise (OtherError msg), s')
        end
    end.

(** [extract_first_frame(video_path, filename)]. *)
Definition extract_first_frame (E : env) (video_path filename : string) : M string :=
  let frame_path := frame_path_of filename in
  let* r := run_ffmpeg E video_path frame_path in
  if negb (fst r =? 0)
  then raise (HTTPException 500 ("Failed to extract frame from video: " ++ snd r)%string)
  else ret frame_path.

(** Reading a file of the server. *)
Definition read_file (E : env) (p : string) : M (list byte) := open_read (unicode E) (read_error E) p.

Definition not_callable : py_exc := TypeError "'NoneType' object is not callable".

(** [image = Image.open(image_path)]. *)
Definition open_image (E : env) (image_path : string) : M (list byte) :=
  let* b := read_file E image_path in
  match pil_open (vit_model E) b with
  | Some Unidentified =>
      raise (OtherError ("cannot identify image file " ++ py_repr (unicode E) image_path)%string)
  | Some (OpenFailed msg) => raise (OtherError msg)
  | None => ret b
  end.

(** [inputs = processor(images=image, return_tensors="pt")]. *)
Definition call_processor (E : env) (image : list byte) : M unit :=
  fun s => match processor s with
           | None => (Raise not_callable, s)
           | Some _ =>
               match preprocess (vit_model E) image with
               | Some msg => (Raise (OtherError msg), s)
               | None => (Ok tt, s)
               end
           end.

(** [outputs = model( **inputs); logits = outputs.logits]. *)
Definition call_model (E : env) (image : list byte) : M (list Q) :=
  fun s => match model s with
           | None => (Raise not_callable, s)
           | Some _ =>
               match forward (vit_model E) image with
               | inl logits => (Ok logits, s)
               | inr msg => (Raise (OtherError msg), s)
               end
           end.

(** [torch.topk(probabilities, k)]. *)
Definition call_topk (V : vit) (probabilities : list Q) (k : nat) : result (list (Q * nat)) :=
  match topk V probabilities k with
  | inl top => Ok top
  | inr msg => Raise (OtherError msg)
  end.

(** [round(x, 4)] of a float, in units of 1e-4: the exact value rounded
    half to even. *)
Definition round4 (x : Q) : Z :=
  let y := (x * inject_Z 10000)%Q in
  let f := Qfloor y in
  match Qcompare (y - inject_Z f) (1 # 2) with
  | Lt => f
  | Gt => f + 1
  | Eq => if Z.even f then f else f + 1
  end.

(** [for i in range(3)]: [label = model.config.id2label[top3_indices[0][i].item()]],
    [score = top3_prob[0][i].item()], [labels.append(...)]. *)
Fixpoint format_loop (V : vit) (top : list (Q * nat)) (range : list nat) (acc : labels)
  : result labels :=
  match range with
  | [] => Ok acc
  | i :: rest =>
      match nth_error top i with
      | None =>
          Raise (OtherError ("index " ++ pretty i ++ " is out of bounds for dimension 0 with size "
                             ++ pretty (length top))%string)
      | Some (p, idx) =>
          match id2label V idx with
          | None => Raise (OtherError (pretty idx))
          | Some label => format_loop V top rest (acc ++ [(label, round4 p)])
          end
      end
  end.

(** [classify_image(image_path)]: all stages under one [try]. *)
Definition classify_image (E : env) (image_path : string) : M labels :=
  try_except
    (let* image := open_image E image_path in
     let* _ := call_processor E image in
     let* logits := call_model E image in
     let probabilities := softmax (vit_model E) logits in
     let* top3 := of_result (call_topk (vit_model E) probabilities 3) in
     of_result (format_loop (vit_model E) top3 [0; 1; 2]%nat []))
    (fun e => raise (HTTPException 500 ("Image classification failed: " ++ exc_str e)%string)).

(** The stages of [classify_image] after [Image.open], with both globals
    loaded, on the image's bytes: the labels, or the message of the
    exception. *)
Definition classifier (E : env) (image : list byte) : labels + string :=
  let V := vit_model E in
  match preprocess V image with
  | Some msg => inr msg
  | None =>
      match forward V image with
      | inr msg => inr msg
      | inl logits =>
          match call_topk V (softmax V logits) 3 with
          | Raise e => inr (exc_str e)
          | Ok top3 =>
              match format_loop V top3 [0; 1; 2]%nat [] with
              | Ok l => inl l
              | Raise e => inr (exc_str e)
              end
          end
      end
  end.

(** [encode_image_to_base64(image_path)]. *)
Definition encode_image_to_base64 (E : env) (image_path : string) : M string :=
  try_except
    (let* b := read_file E image_path in ret (b64encode b))
    (fun e => raise (HTTPException 500 ("Failed to encode image: " ++ exc_str e)%string)).

(** [str(x)] of an optional path. *)
Definition str_path (p : option string) : string :=
  match p with Some q => q | None => "None"%string end.

(** [os.path.exists(p)]: [genericpath.exists] catches only [OSError] and
    [ValueError] from [os.stat], so [None] raises [TypeError]. *)
Definition os_path_exists (p : option string) : M bool :=
  match p with
  | None => raise (TypeError "stat: path should be string, bytes, os.PathLike or integer, not NoneType")
  | Some q => fun s => (Ok (bool_decide (is_Some (fs s !! q))), s)
  end.

Definition os_remove (E : env) (p : option string) : M unit :=
  match p with
  | None => raise (TypeError "remove: path should be string, bytes or os.PathLike, not NoneType")
  | Some q =>
      match remove_error E q with
      | Some msg => raise (OSError msg)
      | None => set_fs (delete q)
      end
  end.

(** [cleanup_temp_files( *file_paths)]. *)
Fixpoint cleanup_temp_files (E : env) (file_paths : list (option string)) : M unit :=
  match file_paths with
  | [] => ret tt
  | file_path :: rest =>
      let* _ := try_except
                  (let* ex := os_path_exists file_path in
                   if ex then os_remove E file_path else ret tt)
                  (fun e => log ("Failed to remove " ++ str_path file_path ++ ": " ++ exc_str e)%string) in
      cleanup_temp_files E rest
  end.

(* ------------------------------------------------------------------ *)
(** ** The orchestrator [process_video] and the HTTP layer *)

Record response_body := mkBody { out_labels : labels; thumbnail_b64 : string }.

(** The [try] block of [process_video]; besides its outcome it returns the
    final values of the locals [video_path] and [frame_path], which the
    [finally] block reads. *)
Definition process_try (E : env) (filename : string) (s0 : state)
  : result response_body * option string * option string * state :=
  match validate_video_file (unicode E) (set_order E) filename s0 with
  | (Raise e, s1) => (Raise e, None, None, s1)
  | (Ok _, s1) =>
  match save_uploaded_video E filename s1 with
  | (Raise e, s2) => (Raise e, None, None, s2)
  | (Ok video_path, s2) =>
  match extract_first_frame E video_path filename s2 with
  | (Raise e, s3) => (Raise e, Some video_path, None, s3)
  | (Ok frame_path, s3) =>
  match classify_image E frame_path s3 with
  | (Raise e, s4) => (Raise e, Some video_path, Some frame_path, s4)
  | (Ok lbls, s4) =>
  match encode_image_to_base64 E frame_path s4 with
  | (Raise e, s5) => (Raise e, Some video_path, Some frame_path, s5)
  | (Ok thumb, s5) => (Ok (mkBody lbls thumb), Some video_path, Some frame_path, s5)
  end end end end end.


(** [except HTTPException: raise] / [except Exception as e: ...]. *)
Definition process_except (r : result response_body) : M response_body :=
  match r with
  | Ok b => ret b
  | Raise (HTTPException c d) => raise (HTTPException c d)
  | Raise e =>
      let* _ := log ("Unexpected processing error: " ++ exc_str e)%string in
      raise (HTTPException 500 "Internal processing error")
  end.

(** [process_video(file)]: try / except / finally.  An exception raised by
    the [finally] block would replace the pending outcome. *)
Definition process_video (E : env) (filename : string) : M response_body :=
  fun s0 =>
    let '(r, video_path, frame_path, s1) := process_try E filename s0 in
    let '(r', s2) := process_except r s1 in
    match cleanup_temp_files E [video_path; frame_path] s2 with
    | (Ok _, s3) => (r', s3)
    | (Raise e, s3) => (Raise e, s3)
    end.

(** What FastAPI sends: [JSONResponse] (200), an [HTTPException] as
    [{"detail": ...}], anything else as Starlette's plain-text 500. *)
Inductive http_response :=
| JSONOk (body : response_body)
| JSONDetail (status_code : Z) (detail : string)
| PlainServerError.

Definition to_http (r : result response_body) : http_response :=
  match r with
  | Ok b => JSONOk b
  | Raise (HTTPException c d) => JSONDetail c d
  | Raise _ => PlainServerError
  end.

Definition status_of (h : http_response) : Z :=
  match h with JSONOk _ => 200 | JSONDetail c _ => c | PlainServerError => 500 end.

(** [POST /process] as seen by the client. *)
Definition post_process (E : env) (filename : string) (s : state) : http_response * state :=
  let '(r, s') := process_video E filename s in (to_http r, s').

(** [GET /health]. *)
Record health := mkHealth { status : string; model_loaded : bool }.

Definition health_check (s : state) : health :=
  mkHealth "healthy" (match model s with Some _ => true | None => false end).

(** The startup half of [lifespan]: [from_pretrained] answers with the
    loaded checkpoint or the message of its exception. *)
Record startup_env := mkStartup {
  load_processor : string -> string + string;
  load_model : string -> string + string
}.

Definition set_globals (p m : option string) : M unit :=
  fun s => (Ok tt, mkState (fs s) (logs s) m p).

Definition lifespan_startup (L : startup_env) : M unit :=
  let model_name := "google/vit-base-patch16-224"%string in
  let* _ := log "Loading ViT model..." in
  try_except
    (let* _ := (fun s => match load_processor L model_name with
                         | inl p => set_globals (Some p) (model s) s
                         | inr msg => (Raise (OtherError msg), s)
                         end) in
     let* _ := (fun s => match load_model L model_name with
                         | inl m => set_globals (processor s) (Some m) s
                         | inr msg => (Raise (OtherError msg), s)
                         end) in
     log ("Model " ++ model_name ++ " loaded successfully")%string)
    (fun e => let* _ := log ("Error loading model: " ++ exc_str e)%string in raise e).

(** Module import: no file, nothing logged, globals [None]. *)
Definition initial_state : state := mkState ∅ [] None None.

(* ------------------------------------------------------------------ *)
(** ** Concrete runs used by the examples below *)

Definition checkpoint : string := "google/vit-base-patch16-224".

(** The service after a successful startup, with an empty /tmp. *)
Definition ready_state : state := mkState ∅ [] (Some checkpoint) (Some checkpoint).

Definition jpeg_frame : list byte := [xff; xd8; xff; xe0; x00; x10].

Definition top3 : labels :=
  [("tabby, tabby cat"%string, 5123); ("tiger cat"%string, 2871); ("Egyptian cat"%string, 1034)].

(** A Unicode database in which every non-ASCII code point is its own
    lowercase and printable. *)
Definition plain_unicode : unicode_db :=
  mkUnicode (fun cps i => match nth_error cps i with Some c => [Z.to_N (c - 128)] | None => [] end)
            (fun _ => true).

(** [topk] that orders equal values by index. *)
Fixpoint insert_desc (x : Q * nat) (l : list (Q * nat)) : list (Q * nat) :=
  match l with
  | [] => [x]
  | y :: t => if Qle_bool (fst x) (fst y) then y :: insert_desc x t else x :: y :: t
  end.

Definition topk_by_index (probs : list Q) (k : nat) : list (Q * nat) + string :=
  if (length probs <? k)%nat then inr "selected index k out of range"%string
  else inl (firstn k (fold_left (fun acc x => insert_desc x acc)
                                (combine probs (seq 0 (length probs))) [])).

Definition cat_labels : list string :=
  ["tabby, tabby cat"; "tiger cat"; "Egyptian cat"; "lynx, catamount"]%string.

(** A four-class model that sees a tabby in every image. *)
Definition vit_ok : vit :=
  mkVit (fun _ => None) (fun _ => None) (fun _ => inl [4#1; 3#1; 2#1; 2#1]%Q)
        (fun _ => [5123 # 10000; 2871 # 10000; 1034 # 10000; 972 # 10000]%Q)
        topk_by_index (fun i => nth_error cat_labels i).

Definition ffmpeg_ok (video : option (list byte)) : ffmpeg_outcome :=
  match video with
  | Some _ => FFmpegExited 0 "" (Some jpeg_frame)
  | None => FFmpegExited 254 "/tmp/clip.mp4: No such file or directory" None
  end.

(** Everything succeeds. *)
Definition env_ok : env :=
  mkEnv plain_unicode (fun _ => None) (Some [x00; x00; x00; x18]) None ffmpeg_ok
        (fun _ => None) vit_ok (fun _ => None) valid_extensions.

(** The disk is full when the upload is written. *)
Definition env_disk_full : env :=
  mkEnv plain_unicode (fun _ => None) (Some [x00; x00; x00; x18])
        (Some (0%nat, "[Errno 28] No space left on device"%string))
        ffmpeg_ok (fun _ => None) vit_ok (fun _ => None) valid_extensions.

(** ffmpeg exits with status 0 without writing the frame (an input with no
    decodable video frame). *)
Definition env_no_frame : env :=
  mkEnv plain_unicode (fun _ => None) (Some [x00; x00; x00; x18]) None
        (fun _ => FFmpegExited 0 "Output file is empty, nothing was encoded" None)
        (fun _ => None) vit_ok (fun _ => None) valid_extensions.

(** Every [os.remove] is refused. *)
Definition env_remove_denied : env :=
  mkEnv plain_unicode (fun _ => None) (Some [x00; x00; x00; x18]) None ffmpeg_ok
        (fun _ => None) vit_ok
        (fun p => Some ("[Errno 13] Permission denied: '" ++ p ++ "'")%string)
        valid_extensions.

Definition clip_state : state :=
  mkState {["/tmp/clip.mp4"%string := [x00; x00; x00; x18]]} [] (Some checkpoint) (Some checkpoint).

(** [fold_left] of [delete] over the given paths. *)
Definition remove_paths (l : list string) (m : gmap string (list byte)) : gmap string (list byte) :=
  fold_left (fun acc p => delete p acc) l m.

(** [local keys m]: [m] keeps the globals and changes no file outside [keys]. *)
Definition local {A} (keys : list string) (m : M A) : Prop :=
  forall s r s', m s = (r, s') ->
    model s' = model s /\ processor s' = processor s /\
    (forall k, ~ In k keys -> fs s' !! k = fs s !! k).

(** The paths a cleanup call may remove. *)
Fixpoint given_paths (ps : list (option string)) : list string :=
  match ps with
  | [] => []
  | Some p :: rest => p :: given_paths rest
  | None :: rest => given_paths rest
  end.

(** The validator's test, as a boolean. *)
Definition accepted (U : unicode_db) (filename : string) : bool :=
  existsb (String.eqb (snd (splitext (lower U filename)))) valid_extensions.

(** The warning [cleanup_temp_files] logs for a [None] path. *)
Definition none_warning : string :=
  "Failed to remove None: stat: path should be string, bytes, os.PathLike or integer, not NoneType".

Definition none_warnings (ps : list (option string)) : list string :=
  flat_map (fun p => match p with None => [none_warning] | Some _ => [] end) ps.

(** [m] raises no [HTTPException] other than a 500. *)
Definition raises_500 {A} (m : M A) : Prop :=
  forall s c d s', m s = (Raise (HTTPException c d), s') -> c = 500.


(* ------------------------------------------------------------------ *)
(** ** Routing of the ASGI application *)

(** What [app] answers: one of its two endpoints, one of FastAPI's
    documentation pages, or one of Starlette's routing answers. *)
Inductive reply :=
| ProcessReply (h : http_response)
| HealthReply (h : health)
| DocsReply (path : string)
| Redirect (location : string)
| RouteError (status_code : Z) (detail : string).

Definition reply_status (r : reply) : Z :=
  match r with
  | ProcessReply h => status_of h
  | HealthReply _ | DocsReply _ => 200
  | Redirect _ => 307
  | RouteError c _ => c
  end.

(** The routes of [app]: the documentation routes [FastAPI.setup] adds (for
    GET and HEAD), then [@app.post("/process")] and [@app.get("/health")]. *)
Definition routes : list (string * list string) :=
  [("/openapi.json", ["GET"; "HEAD"]); ("/docs", ["GET"; "HEAD"]);
   ("/docs/oauth2-redirect", ["GET"; "HEAD"]); ("/redoc", ["GET"; "HEAD"]);
   ("/process", ["POST"]); ("/health", ["GET"])]%string.

Definition route_methods (path : string) : option (list string) :=
  option_map snd (List.find (fun r => String.eqb (fst r) path) routes).

(** The leading '/' characters of a list removed. *)
Fixpoint drop_slashes (l : list ascii) : list ascii :=
  match l with
  | c :: rest => if Ascii.eqb c "/"%char then drop_slashes rest else l
  | [] => []
  end.

(** [redirect_slashes]: [path.rstrip("/")] when the path ends with '/',
    else [path + "/"]. *)
Definition slash_variant (path : string) : string :=
  match rev (list_ascii_of_string path) with
  | c :: _ =>
      if Ascii.eqb c "/"%char
      then string_of_list_ascii (rev (drop_slashes (rev (list_ascii_of_string path))))
      else (path ++ "/")%string
  | [] => (path ++ "/")%string
  end.

(** One request with a well-formed multipart upload named [filename].  A
    routed path with another method is a 405; an unrouted path other than
    "/" whose slash variant is routed is a 307 redirect; any other path is
    a 404. *)
Definition serve (E : env) (method path filename : string) (s : state) : reply * state :=
  match route_methods path with
  | Some methods =>
      if existsb (String.eqb method) methods then
        if String.eqb path "/process" then
          let '(h, s') := post_process E filename s in (ProcessReply h, s')
        else if String.eqb path "/health" then (HealthReply (health_check s), s)
        else (DocsReply path, s)
      else (RouteError 405 "Method Not Allowed", s)
  | None =>
      if negb (String.eqb path "/") &&
         match route_methods (slash_variant path) with Some _ => true | None => false end
      then (Redirect (slash_variant path), s)
      else (RouteError 404 "Not Found", s)
  end.

(** The JSON document of a successful response, as [json.load] returns it:
    [{"labels": [{"label": ..., "score": ...}, ...], "thumbnail_b64": ...}];
    a float score is only observed through its truth value. *)
#[warnings="-register-all"]
Inductive jval :=
| JNull
| JBool (b : bool)
| JInt (n : Z)
| JFloat (nonzero : bool)
| JStr (s : string)
| JArr (items : list jval)
| JObj (members : list (string * jval)).

Definition label_json (l : string * Z) : jval :=
  JObj [("label"%string, JStr (fst l)); ("score"%string, JFloat (negb (snd l =? 0)))].

Definition response_json (b : response_body) : jval :=
  JObj [("labels"%string, JArr (List.map label_json (out_labels b)));
        ("thumbnail_b64"%string, JStr (thumbnail_b64 b))].


(* ------------------------------------------------------------------ *)
(** ** The client scripts of src/scripts *)

(** A script runs in its own working directory: its [state] holds the
    script's files and its log ([model] and [processor] are unused).  The
    operating system and the libraries are oracles: [c_send method path
    name] is the service's reply to a request carrying an upload named
    [name] ([None] when [requests] raises); [c_json_load] is [json.load] on
    the bytes of a file (or the message of its error); [c_b64decode] is
    [base64.b64decode] on a string (or the message of its error);
    [c_write_error p = Some (n, msg)] makes [f.write] on [p] (or the flush
    at [close]) fail with [msg] after the first [n] bytes reached the
    file.  Reading a file fails only when it is absent. *)
Record client := mkClient {
  c_unicode : unicode_db;
  c_open_error : string -> option string;
  c_write_error : string -> option (nat * string);
  c_remove_error : string -> option string;
  c_send : string -> string -> string -> option reply;
  c_json_load : list byte -> jval + string;
  c_b64decode : string -> list byte + string
}.

(** [open(p, "wb")]: creates or truncates [p]. *)
Definition client_open_wb (C : client) (p : string) : M unit :=
  match c_open_error C p with
  | Some msg => raise (OSError msg)
  | None => set_fs (insert p [])
  end.

(** [f.write(data)] on the file just opened, and its [close]. *)
Definition client_put (C : client) (p : string) (data : list byte) : M unit :=
  match c_write_error C p with
  | Some (n, msg) => let* _ := set_fs (insert p (firstn n data)) in raise (OSError msg)
  | None => set_fs (insert p data)
  end.

Definition client_write (C : client) (p : string) (data : list byte) : M unit :=
  let* _ := client_open_wb C p in client_put C p data.

(** [open(p, ...)] and reading it. *)
Definition client_read (C : client) (p : string) : M (list byte) :=
  open_read (c_unicode C) (fun _ => None) p.

Definition client_remove (C : client) (p : string) : M unit :=
  match c_remove_error C p with
  | Some msg => raise (OSError msg)
  | None => set_fs (delete p)
  end.

(** Python's truth value of a JSON value. *)
Definition truthy (v : jval) : bool :=
  match v with
  | JNull => false
  | JBool b => b
  | JInt n => negb (n =? 0)
  | JFloat nz => nz
  | JStr t => negb (String.eqb t "")
  | JArr [] | JObj [] => false
  | JArr _ | JObj _ => true
  end.

Definition py_type_name (v : jval) : string :=
  match v with
  | JNull => "NoneType" | JBool _ => "bool" | JInt _ => "int" | JFloat _ => "float"
  | JStr _ => "str" | JArr _ => "list" | JObj _ => "dict"
  end.

(** A key of a JSON object; [json.load] keeps the last of duplicate keys. *)
Fixpoint json_lookup (k : string) (members : list (string * jval)) : option jval :=
  match members with
  | [] => None
  | (k', v) :: rest =>
      match json_lookup k rest with
      | Some w => Some w
      | None => if String.eqb k k' then Some v else None
      end
  end.

(** [data.get(k)]: [None] when absent, an [AttributeError] when [data] is
    not a dict. *)
Definition json_get (data : jval) (k : string) : M jval :=
  match data with
  | JObj members => ret (match json_lookup k members with Some v => v | None => JNull end)
  | _ => raise (OtherError ("'" ++ py_type_name data ++ "' object has no attribute 'get'"))
  end.

(** [base64.b64decode(v)] of a JSON value: only a [str] is accepted. *)
Definition b64decode_value (C : client) (v : jval) : M (list byte) :=
  match v with
  | JStr t => match c_b64decode C t with inl b => ret b | inr msg => raise (OtherError msg) end
  | _ => raise (TypeError ("argument should be a bytes-like object or ASCII string, not '"
                           ++ py_type_name v ++ "'"))
  end.

(** [os.path.basename]. *)
Definition basename (p : string) : string :=
  let l := list_ascii_of_string p in
  match rfind "/"%char l with
  | Some i => string_of_list_ascii (skipn (S i) l)
  | None => p
  end.

(** scripts/decode_thumbnail.py *)
Module DecodeThumbnail.

Definition decode_thumbnail (C : client) (json_file output_file : string) : M bool :=
  try_except
    (let* raw := client_read C json_file in
     let* data := match c_json_load C raw with
                  | inl d => ret d
                  | inr msg => raise (OtherError msg)
                  end in
     let* thumbnail_b64 := json_get data "thumbnail_b64" in
     if negb (truthy thumbnail_b64) then
       let* _ := log "No thumbnail_b64 found in JSON response" in ret false
     else
       let* thumbnail_data := b64decode_value C thumbnail_b64 in
       let* _ := client_write C output_file thumbnail_data in
       let* _ := log ("Thumbnail saved as: " ++ output_file) in
       let* _ := log ("Size: " ++ pretty (length thumbnail_data) ++ " bytes") in
       ret true)
    (fun e => let* _ := log ("Error decoding thumbnail: " ++ exc_str e) in ret false).

Definition usage : string := "Usage: python decode_thumbnail.py <json_file> [output_file]".
Definition example : string := "Example: python decode_thumbnail.py response.json thumbnail.jpg".

(** [main()] on [sys.argv]. *)
Definition main (C : client) (argv : list string) : M unit :=
  match argv with
  | _ :: json_file :: rest =>
      let output_file := match rest with o :: _ => o | [] => "thumbnail.jpg"%string end in
      let* _ := decode_thumbnail C json_file output_file in ret tt
  | _ => let* _ := log usage in log example
  end.

End DecodeThumbnail.

(** scripts/test_vidisnap.py.  The tester's [test_results] are passed
    explicitly; a record keeps the video, the outcome and, on success, the
    labels (the timing, the error text and the log lines are not
    modelled). *)
Module VidiSnapTester.

Inductive test_record :=
| Passed (video : string) (labels : labels)
| Failed (video : string).

Definition dummy_file : string := "dummy.txt".

Definition test_invalid_file (C : client) : M bool :=
  let* _ := client_write C dummy_file (list_byte_of_string "This is not a video file") in
  let* r := try_except
              (let* _ := client_read C dummy_file in
               match c_send C "POST" "/analyze" dummy_file with
               | None => raise (OtherError "requests.exceptions.ConnectionError")
               | Some rep => ret (reply_status rep =? 400)
               end)
              (fun _ => ret false) in
  let* ex := os_path_exists (Some dummy_file) in
  let* _ := if ex then client_remove C dummy_file else ret tt in
  ret r.

Definition test_video_processing (C : client) (video_path : string) (test_results : list test_record)
  : M (bool * list test_record) :=
  let* ex := os_path_exists (Some video_path) in
  if negb ex then ret (false, test_results) else
  try_except
    (let* _ := client_read C video_path in
     match c_send C "POST" "/analyze" (basename video_path) with
     | None => raise (OtherError "requests.exceptions.ConnectionError")
     | Some rep =>
         if reply_status rep =? 200 then
           match rep with
           | ProcessReply (JSONOk result) =>
               let* _ :=
                 if negb (String.eqb (thumbnail_b64 result) "") then
                   let thumbnail_path :=
                     ("thumbnail_" ++ fst (splitext (basename video_path)) ++ ".jpg")%string in
                   let* _ := client_open_wb C thumbnail_path in
                   match c_b64decode C (thumbnail_b64 result) with
                   | inl data => client_put C thumbnail_path data
                   | inr msg => raise (OtherError msg)
                   end
                 else ret tt in
               ret (true, test_results ++ [Passed video_path (out_labels result)])
           | _ => raise (OtherError "'labels'")
           end
         else ret (false, test_results ++ [Failed video_path])
     end)
    (fun _ => ret (false, test_results ++ [Failed video_path])).

Definition successful (r : test_record) : bool :=
  match r with Passed _ _ => true | Failed _ => false end.

(** [all_labels] of [print_summary]: the label names of the successful
    tests, in order. *)
Definition all_labels (test_results : list test_record) : list string :=
  flat_map (fun r => match r with Passed _ ls => List.map fst ls | Failed _ => [] end)
           (filter successful test_results).

(** [label_counts[name] = label_counts.get(name, 0) + 1] on an
    insertion-ordered dict. *)
Fixpoint count_label (name : string) (label_counts : list (string * nat)) : list (string * nat) :=
  match label_counts with
  | [] => [(name, 1%nat)]
  | (k, c) :: rest =>
      if String.eqb k name then (k, S c) :: rest else (k, c) :: count_label name rest
  end.

Definition label_counts (labels : list string) : list (string * nat) :=
  fold_left (fun acc name => count_label name acc) labels [].

(** [sorted(items, key=lambda x: x[1], reverse=True)]: a stable sort by
    decreasing count (equal counts keep their order). *)
Fixpoint insert_by_count (x : string * nat) (l : list (string * nat)) : list (string * nat) :=
  match l with
  | [] => [x]
  | y :: t => if (snd y <=? snd x)%nat then x :: y :: t else y :: insert_by_count x t
  end.

Definition sort_by_count (l : list (string * nat)) : list (string * nat) :=
  fold_right insert_by_count [] l.

(** The label lines [print_summary] reports, in order. *)
Definition summary_labels (test_results : list test_record) : list (string * nat) :=
  sort_by_count (label_counts (all_labels test_results)).

End VidiSnapTester.

(** scripts/download_sample_videos.py *)
Module DownloadSampleVideos.

Definition sample_videos : list (string * string) :=
  [("sample_bunny_5mb.mp4", "https://sample-videos.com/video321/mp4/720/big_buck_bunny_720p_5mb.mp4");
   ("sample_bunny_2mb.mp4", "https://sample-videos.com/video321/mp4/720/big_buck_bunny_720p_2mb.mp4");
   ("sample_bunny_1mb.mp4", "https://sample-videos.com/video321/mp4/720/big_buck_bunny_720p_1mb.mp4")]%string.

(** [requests.get(url, stream=True)] with [raise_for_status()]: an
    exception, or the chunks [iter_content] yields before it ends or raises. *)
Inductive fetch_outcome :=
| FetchFailed (msg : string)
| FetchBody (chunks : list (list byte)) (stream_error : option string).

(** [d_write_error filename = Some (k, n, msg)]: writing to [filename]
    fails with [msg] at the [k]-th [f.write] (counted from 0), or, when
    fewer writes are made, at the flush of [f.close()]; the file then holds
    the first [n] bytes written to it. *)
Record downloader := mkDownloader {
  fetch : string -> fetch_outcome;
  d_open_error : string -> option string;
  d_write_error : string -> option (nat * nat * string)
}.

(** [for chunk in response.iter_content(...): f.write(chunk)]. *)
Fixpoint write_chunks (filename : string) (failure : option (nat * nat * string))
  (chunks : list (list byte)) : M unit :=
  match chunks with
  | [] => ret tt
  | chunk :: rest =>
      match failure with
      | Some (O, n, msg) =>
          let* _ := set_fs (fun m => <[filename := firstn n (default [] (m !! filename) ++ chunk)]> m) in
          raise (OSError msg)
      | _ =>
          let* _ := set_fs (fun m => <[filename := default [] (m !! filename) ++ chunk]> m) in
          write_chunks filename
            (match failure with Some (S k, n, msg) => Some (k, n, msg) | _ => None end) rest
      end
  end.

(** [f.close()] after [writes] writes: its flush raises the failure when no
    write did. *)
Definition close_file (filename : string) (failure : option (nat * nat * string)) (writes : nat)
  : M unit :=
  match failure with
  | Some (k, n, msg) =>
      if (writes <=? k)%nat then
        let* _ := set_fs (fun m => <[filename := firstn n (default [] (m !! filename))]> m) in
        raise (OSError msg)
      else ret tt
  | None => ret tt
  end.

(** [with ...: body]: the file is closed however the body ends, and an
    exception of the close replaces the body's outcome. *)
Definition with_file (body close : M unit) : M unit :=
  fun s => match body s with
           | (r, s1) =>
               match close s1 with
               | (Ok _, s2) => (r, s2)
               | (Raise e, s2) => (Raise e, s2)
               end
           end.

Definition download_one (D : downloader) (filename url : string) : M unit :=
  let* ex := os_path_exists (Some filename) in
  if ex then log (filename ++ " already exists")
  else
    let* _ := log ("Downloading " ++ filename ++ " from " ++ url ++ "...") in
    try_except
      (match fetch D url with
       | FetchFailed msg => raise (OtherError msg)
       | FetchBody chunks stream_error =>
           let* _ := match d_open_error D filename with
                     | Some msg => raise (OSError msg)
                     | None => set_fs (insert filename [])
                     end in
           let failure := d_write_error D filename in
           let* _ := with_file
                       (let* _ := write_chunks filename failure chunks in
                        match stream_error with
                        | Some msg => raise (OtherError msg)
                        | None => ret tt
                        end)
                       (close_file filename failure (length chunks)) in
           log ("Downloaded " ++ filename)
       end)
      (fun e => log ("Failed to download " ++ filename ++ ": " ++ exc_str e)).

Fixpoint download_all (D : downloader) (items : list (string * string)) : M unit :=
  match items with
  | [] => ret tt
  | (filename, url) :: rest => let* _ := download_one D filename url in download_all D rest
  end.

Definition download_sample_videos (D : downloader) : M unit := download_all D sample_videos.

End DownloadSampleVideos.

(* ------------------------------------------------------------------ *)
(** ** More concrete runs *)

(** ffmpeg writes the frame and then exits with an error. *)
Definition env_partial_frame : env :=
  mkEnv plain_unicode (fun _ => None) (Some [x00; x00; x00; x18]) None
        (fun _ => FFmpegExited 1 "Error while decoding stream #0:0" (Some jpeg_frame))
        (fun _ => None) vit_ok (fun _ => None) valid_extensions.

(** ffmpeg is not installed. *)
Definition env_no_ffmpeg : env :=
  mkEnv plain_unicode (fun _ => None) (Some [x00; x00; x00; x18]) None
        (fun _ => FFmpegLaunchError "[Errno 2] No such file or directory: 'ffmpeg'")
        (fun _ => None) vit_ok (fun _ => None) valid_extensions.

(** A server that breaks off every download after two bytes. *)
Definition dl_partial : DownloadSampleVideos.downloader :=
  DownloadSampleVideos.mkDownloader
    (fun _ => DownloadSampleVideos.FetchBody [[x00; x00]] (Some "Connection broken: IncompleteRead"%string))
    (fun _ => None) (fun _ => None).

(** A client whose requests reach [app] in state [srv], with a strict
    decoder, reading any file as [doc]. *)
Definition client_of_app (E : env) (srv : state) (doc : jval) : client :=
  mkClient plain_unicode (fun _ => None) (fun _ => None) (fun _ => None)
           (fun m p f => Some (fst (serve E m p f srv)))
           (fun _ => inl doc)
           (fun t => match b64decode t with Some b => inl b | None => inr "Incorrect padding"%string end).

Definition client_state (files : gmap string (list byte)) : state := mkState files [] None None.


(* ------------------------------------------------------------------ *)
(** ** What torch promises, and further concrete runs *)

(** What [torch.topk(probs, k)] (largest, sorted) guarantees: [k] pairs of
    distinct indices with their values, in non-increasing order of value,
    and no index left out has a larger value than a selected one.  It
    says nothing about the order of equal values. *)
Definition topk_contract (probs : list Q) (k : nat) (top : list (Q * nat)) : Prop :=
  length top = k /\ List.NoDup (List.map snd top) /\
  (forall p i, In (p, i) top -> nth_error probs i = Some p) /\
  Sorted (fun a b : Q * nat => (fst b <= fst a)%Q) top /\
  (forall i p, nth_error probs i = Some p -> ~ In i (List.map snd top) ->
               forall a, In a top -> (p <= fst a)%Q).

(** The frame file of an upload named "clip.mp4", after a successful
    startup. *)
Definition frame_state : state :=
  mkState {["/tmp/frame_clip.mp4.jpg"%string := jpeg_frame]} [] (Some checkpoint) (Some checkpoint).

(** [topk] that puts, among equal values, the larger index first. *)
Fixpoint insert_desc_rev (x : Q * nat) (l : list (Q * nat)) : list (Q * nat) :=
  match l with
  | [] => [x]
  | y :: t => if Qle_bool (fst y) (fst x) then x :: y :: t else y :: insert_desc_rev x t
  end.

Definition topk_reverse_ties (probs : list Q) (k : nat) : list (Q * nat) + string :=
  if (length probs <? k)%nat then inr "selected index k out of range"%string
  else inl (firstn k (fold_left (fun acc x => insert_desc_rev x acc)
                                (combine probs (seq 0 (length probs))) [])).

(** A three-class model whose first two classes are equally likely: its
    logits are [1, 1, 2], whose softmax is (to five digits) 0.21194,
    0.21194, 0.57612; equal logits give bitwise equal probabilities. *)
Definition vit_ties : vit :=
  mkVit (fun _ => None) (fun _ => None) (fun _ => inl [1#1; 1#1; 2#1]%Q)
        (fun _ => [21194 # 100000; 21194 # 100000; 57612 # 100000]%Q)
        topk_reverse_ties (fun i => nth_error cat_labels i).

Definition env_ties : env :=
  mkEnv plain_unicode (fun _ => None) (Some [x00; x00; x00; x18]) None ffmpeg_ok
        (fun _ => None) vit_ties (fun _ => None) valid_extensions.

(** ffmpeg writes the frame and exits with status 0, but its stderr holds
    the byte 0xff, which is not UTF-8. *)
Definition env_bad_stderr : env :=
  mkEnv plain_unicode (fun _ => None) (Some [x00; x00; x00; x18]) None
        (fun _ => FFmpegExited 0 (String (ascii_of_nat 255) "frame=    1") (Some jpeg_frame))
        (fun _ => None) vit_ok (fun _ => None) valid_extensions.

(** "clip.mKv": the Kelvin sign U+212A (bytes e2 84 aa) in place of
    the 'k' of ".mkv". *)
Definition kelvin_name : string :=
  string_of_list_ascii (List.map byte_chr [99; 108; 105; 112; 46; 109; 226; 132; 170; 118]).

(** [m] keeps the log and the globals and changes no file but [f]. *)
Definition writes_only {A} (f : string) (m : M A) : Prop :=
  forall s r s', m s = (r, s') ->
    logs s' = logs s /\ model s' = model s /\ processor s' = processor s /\
    (forall k, k <> f -> fs s' !! k = fs s !! k).

(** * Proofs *)

(** ** The embedded functions on small inputs *)

Example splitext_mp4 : splitext "clip.MP4" = ("clip", ".MP4")%string.
Proof. reflexivity. Qed.
Example splitext_hidden : splitext ".mp4" = (".mp4", "")%string.
Proof. reflexivity. Qed.
Example splitext_dir : splitext "a.b/clip" = ("a.b/clip", "")%string.
Proof. reflexivity. Qed.
Example splitext_dots : splitext "..x.mkv" = ("..x", ".mkv")%string.
Proof. reflexivity. Qed.
Example join_rel : path_join "/tmp" "clip.mp4" = "/tmp/clip.mp4"%string.
Proof. reflexivity. Qed.
Example join_abs : path_join "/tmp" "/etc/clip.mp4" = "/etc/clip.mp4"%string.
Proof. reflexivity. Qed.
Example b64_man : b64encode [x4d; x61; x6e] = "TWFu"%string.
Proof. reflexivity. Qed.
Example b64_ma : b64encode [x4d; x61] = "TWE="%string.
Proof. reflexivity. Qed.
Example b64_m : b64encode [x4d] = "TQ=="%string.
Proof. reflexivity. Qed.
Example b64_back : b64decode "TWFuTQ==" = Some [x4d; x61; x6e; x4d].
Proof. reflexivity. Qed.

(** ** Base64 round trip *)

Lemma b64_index_char (i : Z) : 0 <= i < 64 -> b64_index (b64_char i) = Some i.
Proof.
  intros Hi.
  replace i with (Z.of_nat (Z.to_nat i)) by lia.
  assert (Hn : (Z.to_nat i < 64)%nat) by lia.
  generalize (Z.to_nat i) Hn; clear Hi Hn.
  intros n Hn.
  do 64 (destruct n as [|n]; [reflexivity|]).
  lia.
Qed.

Lemma b64_char_not_pad (i : Z) : 0 <= i < 64 -> Ascii.eqb (b64_char i) "="%char = false.
Proof.
  intros Hi. destruct (Ascii.eqb_spec (b64_char i) "="%char) as [E|E]; [|reflexivity].
  pose proof (b64_index_char i Hi) as H. rewrite E in H. discriminate.
Qed.

Lemma bz_range (b : byte) : 0 <= bz b < 256.
Proof. unfold bz. pose proof (Byte.to_N_bounded b). lia. Qed.

Lemma byte_of_bz (b : byte) : byte_of (bz b) = Some b.
Proof. unfold byte_of, bz. rewrite N2Z.id. apply Byte.of_to_N. Qed.

(** A [lor] of bit-disjoint operands is their sum. *)
Lemma lor_low_add (a b k : Z) :
  0 <= k -> 0 <= b < 2 ^ k -> Z.lor (a * 2 ^ k) b = a * 2 ^ k + b.
Proof.
  intros Hk Hb.
  assert (Hl : Z.land (a * 2 ^ k) b = 0).
  { apply Z.bits_inj'. intros i Hi. rewrite Z.land_spec, Z.bits_0.
    destruct (Z.lt_ge_cases i k) as [Hlt|Hge].
    - now rewrite Z.mul_pow2_bits_low.
    - rewrite <- (Z.mod_small b (2 ^ k)) by lia.
      rewrite Z.testbit_mod_pow2 by lia.
      replace (i <? k) with false by (symmetry; apply Z.ltb_ge; lia).
      now rewrite andb_false_l, andb_false_r. }
  rewrite <- Z.lxor_lor by exact Hl.
  now rewrite Z.add_nocarry_lxor.
Qed.

Lemma sextet_index (n k : Z) :
  0 <= k <= 3 -> b64_index (sextet n k) = Some ((n / 2 ^ (18 - 6 * k)) mod 64).
Proof.
  intros Hk. unfold sextet.
  rewrite Z.shiftr_div_pow2 by lia.
  change 63 with (Z.ones 6). rewrite Z.land_ones by lia.
  apply b64_index_char. apply Z.mod_pos_bound. lia.
Qed.

Lemma sextet_not_pad (n k : Z) : Ascii.eqb (sextet n k) "="%char = false.
Proof.
  unfold sextet. apply b64_char_not_pad.
  change 63 with (Z.ones 6). rewrite Z.land_ones by lia.
  apply Z.mod_pos_bound. lia.
Qed.

Lemma quad_sextets (n : Z) : 0 <= n < 2 ^ 24 ->
  quad ((n / 2 ^ 18) mod 64) ((n / 2 ^ 12) mod 64) ((n / 2 ^ 6) mod 64) ((n / 2 ^ 0) mod 64) = n.
Proof. intros Hn. unfold quad. simpl Z.pow in *. Z.div_mod_to_equations. lia. Qed.

Lemma bytes_of_word (b0 b1 b2 : byte) (count : nat) :
  bytes_of_quad (bz b0 * 65536 + bz b1 * 256 + bz b2) count = Some (firstn count [b0; b1; b2]).
Proof.
  pose proof (bz_range b0). pose proof (bz_range b1). pose proof (bz_range b2).
  unfold bytes_of_quad.
  replace ((bz b0 * 65536 + bz b1 * 256 + bz b2) / 65536 mod 256) with (bz b0)
    by (Z.div_mod_to_equations; lia).
  replace ((bz b0 * 65536 + bz b1 * 256 + bz b2) / 256 mod 256) with (bz b1)
    by (Z.div_mod_to_equations; lia).
  replace ((bz b0 * 65536 + bz b1 * 256 + bz b2) mod 256) with (bz b2)
    by (Z.div_mod_to_equations; lia).
  now rewrite !byte_of_bz.
Qed.

Lemma quad_low_zero (n : Z) : 0 <= n < 2 ^ 24 -> n mod 64 = 0 ->
  quad ((n / 2 ^ 18) mod 64) ((n / 2 ^ 12) mod 64) ((n / 2 ^ 6) mod 64) 0 = n.
Proof.
  intros Hn H0. rewrite <- (quad_sextets n Hn) at 4. f_equal.
  now rewrite Z.pow_0_r, Z.div_1_r.
Qed.

Lemma quad_low_zero2 (n : Z) : 0 <= n < 2 ^ 24 -> n mod 4096 = 0 ->
  quad ((n / 2 ^ 18) mod 64) ((n / 2 ^ 12) mod 64) 0 0 = n.
Proof. intros Hn H0. unfold quad. simpl Z.pow in *. Z.div_mod_to_equations. lia. Qed.

Ltac sextets :=
  rewrite ?sextet_not_pad;
  rewrite ?(sextet_index _ 0), ?(sextet_index _ 1), ?(sextet_index _ 2), ?(sextet_index _ 3)
    by lia;
  try change (18 - 6 * 0) with 18; try change (18 - 6 * 1) with 12;
  try change (18 - 6 * 2) with 6; try change (18 - 6 * 3) with 0.

Lemma b64decode_encode_list (bs : list byte) : b64decode_list (b64encode_list bs) = Some bs.
Proof.
  remember (length bs) as len eqn:Hlen. revert bs Hlen.
  induction len as [len IH] using lt_wf_ind.
  intros [|b0 [|b1 [|b2 rest]]] Hlen; [reflexivity| | |].
  - (* one byte, "==" padding *)
    pose proof (bz_range b0).
    cbn [b64encode_list b64decode_list].
    rewrite Z.shiftl_mul_pow2 by lia. sextets.
    simpl (Ascii.eqb "="%char "="%char). rewrite andb_true_r.
    rewrite quad_low_zero2 by (simpl Z.pow; Z.div_mod_to_equations; lia).
    replace (bz b0 * 2 ^ 16) with (bz b0 * 65536 + bz x00 * 256 + bz x00) by (cbn; lia).
    now rewrite bytes_of_word.
  - (* two bytes, "=" padding *)
    pose proof (bz_range b0). pose proof (bz_range b1).
    cbn [b64encode_list b64decode_list].
    rewrite !Z.shiftl_mul_pow2 by lia.
    rewrite lor_low_add by (simpl Z.pow; lia).
    sextets.
    simpl (Ascii.eqb "="%char "="%char). rewrite andb_false_l.
    rewrite quad_low_zero by (simpl Z.pow; Z.div_mod_to_equations; lia).
    replace (bz b0 * 2 ^ 16 + bz b1 * 2 ^ 8) with (bz b0 * 65536 + bz b1 * 256 + bz x00)
      by (cbn; lia).
    now rewrite bytes_of_word.
  - (* a full group of three bytes *)
    pose proof (bz_range b0). pose proof (bz_range b1). pose proof (bz_range b2).
    cbn [b64encode_list b64decode_list].
    rewrite !Z.shiftl_mul_pow2 by lia.
    rewrite (lor_low_add (bz b1) (bz b2) 8) by (simpl Z.pow; lia).
    rewrite lor_low_add by (simpl Z.pow; lia).
    sextets. rewrite andb_false_l.
    rewrite Z.pow_0_r, Z.div_1_r.
    assert (Hq : quad ((bz b0 * 2 ^ 16 + (bz b1 * 2 ^ 8 + bz b2)) / 2 ^ 18 mod 64)
                      ((bz b0 * 2 ^ 16 + (bz b1 * 2 ^ 8 + bz b2)) / 2 ^ 12 mod 64)
                      ((bz b0 * 2 ^ 16 + (bz b1 * 2 ^ 8 + bz b2)) / 2 ^ 6 mod 64)
                      ((bz b0 * 2 ^ 16 + (bz b1 * 2 ^ 8 + bz b2)) mod 64)
                 = bz b0 * 65536 + bz b1 * 256 + bz b2).
    { unfold quad. simpl Z.pow. Z.div_mod_to_equations. lia. }
    rewrite Hq, bytes_of_word.
    rewrite (IH (length rest)) by (simpl in Hlen; lia).
    destruct (b64encode_list rest); reflexivity.
Qed.

Theorem b64decode_encode (bs : list byte) : b64decode (b64encode bs) = Some bs.
Proof.
  unfold b64decode, b64encode. rewrite list_ascii_of_string_of_list_ascii.
  apply b64decode_encode_list.
Qed.

(** ** Framing: which files an operation may touch; the globals are kept *)

Lemma local_ret {A} keys (a : A) : local keys (ret a).
Proof. intros s r s' H. inversion H; subst. auto. Qed.

Lemma local_raise {A} keys e : local keys (@raise A e).
Proof. intros s r s' H. inversion H; subst. auto. Qed.

Lemma local_of_result {A} keys (r : result A) : local keys (of_result r).
Proof. intros s r' s' H. inversion H; subst. auto. Qed.

Lemma local_bind {A B} keys (m : M A) (k : A -> M B) :
  local keys m -> (forall a, local keys (k a)) -> local keys (bind m k).
Proof.
  intros Hm Hk s r s' H. unfold bind in H.
  destruct (m s) as [[a|e] s1] eqn:E1.
  - destruct (Hm _ _ _ E1) as (H1 & H2 & H3).
    destruct (Hk a _ _ _ H) as (H4 & H5 & H6).
    repeat split; try congruence. intros x Hx. rewrite H6, H3; auto.
  - inversion H; subst. eapply Hm; eauto.
Qed.

Lemma local_try_except {A} keys (body : M A) (h : py_exc -> M A) :
  local keys body -> (forall e, local keys (h e)) -> local keys (try_except body h).
Proof.
  intros Hb Hh s r s' H. unfold try_except in H.
  destruct (body s) as [[a|e] s1] eqn:E1.
  - inversion H; subst. eapply Hb; eauto.
  - destruct (Hb _ _ _ E1) as (H1 & H2 & H3).
    destruct (Hh e _ _ _ H) as (H4 & H5 & H6).
    repeat split; try congruence. intros x Hx. rewrite H6, H3; auto.
Qed.

Lemma local_log keys msg : local keys (log msg).
Proof. intros s r s' H. inversion H; subst. auto. Qed.

Lemma local_insert keys k v : In k keys -> local keys (set_fs (insert k v)).
Proof.
  intros Hk s r s' H. inversion H; subst. simpl. repeat split.
  intros x Hx. apply lookup_insert_ne. intros Heq. apply Hx. now rewrite <- Heq.
Qed.

Lemma local_delete keys k : In k keys -> local keys (set_fs (delete k)).
Proof.
  intros Hk s r s' H. inversion H; subst. simpl. repeat split.
  intros x Hx. apply lookup_delete_ne. intros Heq. apply Hx. now rewrite <- Heq.
Qed.

Lemma local_weaken {A} keys keys' (m : M A) :
  (forall k, In k keys -> In k keys') -> local keys m -> local keys' m.
Proof.
  intros Hi Hm s r s' H. destruct (Hm _ _ _ H) as (H1 & H2 & H3).
  repeat split; auto.
Qed.

(** An operation that leaves the state as it is. *)
Lemma local_pure {A} keys (m : M A) : (forall s, snd (m s) = s) -> local keys m.
Proof.
  intros Hp s r s' H. pose proof (Hp s) as E. rewrite H in E. simpl in E. subst. auto.
Qed.

Create HintDb local.
#[local] Hint Resolve local_ret local_raise local_log local_of_result : local.

Lemma validate_video_file_pure U order filename s :
  snd (validate_video_file U order filename s) = s.
Proof.
  unfold validate_video_file.
  destruct (existsb _ _); reflexivity.
Qed.

Lemma save_local E filename : local [video_path_of filename] (save_uploaded_video E filename).
Proof.
  unfold save_uploaded_video.
  apply local_try_except; [|intros; apply local_raise].
  apply local_bind.
  { unfold open_wb. destruct (open_error E _); [apply local_raise|apply local_insert; now left]. }
  intros _. apply local_bind.
  { destruct (upload_body E); [apply local_ret|apply local_raise]. }
  intros c. apply local_bind; [|intros; apply local_ret].
  destruct (write_error E) as [[n msg]|].
  - apply local_bind; [apply local_insert; now left|intros; apply local_raise].
  - apply local_insert; now left.
Qed.

Lemma run_ffmpeg_local E vp fp : local [image2_filename fp] (run_ffmpeg E vp fp).
Proof.
  intros s r s' H. unfold run_ffmpeg in H.
  destruct (ffmpeg E _) as [msg|rc err out]; [inversion H; subst; auto|].
  assert (Hs : model s' = model s /\ processor s' = processor s /\
                fs s' = match out with Some b => <[image2_filename fp := b]> (fs s) | None => fs s end)
    by (destruct (translate_newlines err); inversion H; subst; auto).
  destruct Hs as (Hm & Hp & Hf). repeat split; auto. intros k Hk. rewrite Hf.
  destruct out; auto. apply lookup_insert_ne. intros Heq. apply Hk. rewrite <- Heq. now left.
Qed.

Lemma extract_local E vp filename :
  local [frame_output_of filename] (extract_first_frame E vp filename).
Proof.
  unfold extract_first_frame. apply local_bind; [apply run_ffmpeg_local|].
  intros [rc err]. destruct (negb _); [apply local_raise|apply local_ret].
Qed.

Lemma open_read_pure U err p s : snd (open_read U err p s) = s.
Proof. unfold open_read. destruct (fs s !! p); [destruct (err p)|]; reflexivity. Qed.

Lemma read_file_pure E p s : snd (read_file E p s) = s.
Proof. apply open_read_pure. Qed.

Lemma read_file_local E p : local [] (read_file E p).
Proof. apply local_pure. apply read_file_pure. Qed.

Lemma open_image_local E p : local [] (open_image E p).
Proof.
  unfold open_image. apply local_bind; [apply read_file_local|].
  intros b. destruct (pil_open _ b) as [[|msg]|]; auto with local.
Qed.

Lemma call_processor_local E img : local [] (call_processor E img).
Proof.
  apply local_pure. intros s. unfold call_processor.
  destruct (processor s); [destruct (preprocess _ img)|]; reflexivity.
Qed.

Lemma call_model_local E img : local [] (call_model E img).
Proof.
  apply local_pure. intros s. unfold call_model.
  destruct (model s); [destruct (forward _ img)|]; reflexivity.
Qed.

Lemma classify_local E p : local [] (classify_image E p).
Proof.
  unfold classify_image. apply local_try_except; [|intros; apply local_raise].
  apply local_bind; [apply open_image_local|]. intros img.
  apply local_bind; [apply call_processor_local|]. intros _.
  apply local_bind; [apply call_model_local|]. intros logits.
  apply local_bind; [apply local_of_result|]. intros t. apply local_of_result.
Qed.

Lemma encode_local E p : local [] (encode_image_to_base64 E p).
Proof.
  unfold encode_image_to_base64. apply local_try_except; [|intros; apply local_raise].
  apply local_bind; [apply read_file_local|intros; apply local_ret].
Qed.

Lemma cleanup_local E ps : local (given_paths ps) (cleanup_temp_files E ps).
Proof.
  induction ps as [|[p|] rest IH]; simpl.
  - apply local_ret.
  - apply local_bind.
    + apply local_try_except; [|intros; apply local_log].
      apply local_bind; [intros s r s' H; inversion H; subst; auto|].
      intros [|]; [|apply local_ret].
      unfold os_remove. destruct (remove_error E p); [apply local_raise|].
      apply local_delete. now left.
    + intros _. eapply local_weaken; [|exact IH]. intros k Hk. now right.
  - apply local_bind; [|intros; exact IH].
    apply local_try_except; [|intros; apply local_log].
    apply local_raise.
Qed.

Lemma process_except_local r : local [] (process_except r).
Proof.
  destruct r as [b|[c d|m|m|m]]; simpl;
    try apply local_ret; try apply local_raise;
    apply local_bind; auto with local.
Qed.

Lemma save_result E filename s vp s' :
  save_uploaded_video E filename s = (Ok vp, s') -> vp = video_path_of filename.
Proof.
  unfold save_uploaded_video, try_except, bind, open_wb, set_fs, ret, raise.
  destruct (open_error E _); [discriminate|].
  destruct (upload_body E); [|discriminate].
  destruct (write_error E) as [[n msg]|]; [discriminate|].
  intros H. now inversion H.
Qed.

Lemma extract_result E vp filename s fp s' :
  extract_first_frame E vp filename s = (Ok fp, s') -> fp = frame_path_of filename.
Proof.
  unfold extract_first_frame, bind, run_ffmpeg, ret, raise.
  destruct (ffmpeg E _) as [msg|rc err out]; [discriminate|].
  destruct (translate_newlines err); [|discriminate].
  simpl. destruct (negb _); [discriminate|]. intros H. now inversion H.
Qed.

Lemma process_try_frame E filename s r vp fp s1 :
  process_try E filename s = (r, vp, fp, s1) ->
  (vp = None \/ vp = Some (video_path_of filename)) /\
  (fp = None \/ fp = Some (frame_path_of filename)) /\
  model s1 = model s /\ processor s1 = processor s /\
  (forall k, k <> video_path_of filename -> k <> frame_output_of filename ->
     fs s1 !! k = fs s !! k).
Proof.
  unfold process_try.
  pose proof (validate_video_file_pure (unicode E) (set_order E) filename s) as V.
  destruct (validate_video_file _ _ _ s) as [[u|e] s2]; simpl in V; subst s2.
  2:{ intros H; inversion H; subst; auto 10. }
  destruct (save_uploaded_video E filename s) as [[v|e] s2] eqn:Hsave;
    destruct (save_local E filename _ _ _ Hsave) as (M2 & P2 & F2).
  2:{ intros H; inversion H; subst. repeat split; auto. intros k Hk _.
      apply F2. intros [Heq|[]]; congruence. }
  apply save_result in Hsave; subst v.
  destruct (extract_first_frame E _ filename s2) as [[f|e] s3] eqn:Hext;
    destruct (extract_local E (video_path_of filename) filename _ _ _ Hext) as (M3 & P3 & F3).
  2:{ intros H; inversion H; subst. repeat split; auto; try congruence.
      intros k Hk Hk'. rewrite F3 by (intros [Heq|[]]; congruence).
      apply F2. intros [Heq|[]]; congruence. }
  apply extract_result in Hext; subst f.
  assert (Hse : forall k, k <> video_path_of filename -> k <> frame_output_of filename ->
                 fs s3 !! k = fs s !! k).
  { intros k Hk Hk'. rewrite F3 by (intros [Heq|[]]; congruence).
    apply F2. intros [Heq|[]]; congruence. }
  destruct (classify_image E _ s3) as [[l|e] s4] eqn:Hcl;
    destruct (classify_local E (frame_path_of filename) _ _ _ Hcl) as (M4 & P4 & F4).
  2:{ intros H; inversion H; subst. repeat split; auto; try congruence.
      intros k Hk Hk'. rewrite F4 by auto. auto. }
  destruct (encode_image_to_base64 E _ s4) as [[t|e] s5] eqn:Hen;
    destruct (encode_local E (frame_path_of filename) _ _ _ Hen) as (M5 & P5 & F5);
    intros H; inversion H; subst; repeat split; auto; try congruence;
    intros k Hk Hk'; rewrite F5, F4 by auto; auto.
Qed.

(** The [try ... except Exception] body of one cleanup iteration never
    raises, so neither does the loop. *)
Lemma try_except_log_ok (body : M unit) (msg : py_exc -> string) s :
  fst (try_except body (fun e => log (msg e)) s) = Ok tt.
Proof. unfold try_except. destruct (body s) as [[[]|e] s1]; reflexivity. Qed.

Lemma cleanup_never_raises E ps s : fst (cleanup_temp_files E ps s) = Ok tt.
Proof.
  revert s. induction ps as [|p rest IH]; intros s; [reflexivity|].
  cbn [cleanup_temp_files]. unfold bind at 1.
  match goal with |- context [try_except ?b ?h s] =>
    pose proof (try_except_log_ok b (fun e => "Failed to remove " ++ str_path p ++ ": " ++ exc_str e)%string s) as Ht;
    destruct (try_except b h s) as [r1 s1] eqn:Hr end.
  simpl in Ht. subst r1. apply IH.
Qed.

Lemma process_video_frame E filename s r s' :
  process_video E filename s = (r, s') ->
  model s' = model s /\ processor s' = processor s /\
  (forall k, k <> video_path_of filename -> k <> frame_path_of filename ->
     k <> frame_output_of filename -> fs s' !! k = fs s !! k).
Proof.
  unfold process_video.
  destruct (process_try E filename s) as [[[r0 vp] fp] s1] eqn:Ht.
  destruct (process_try_frame _ _ _ _ _ _ _ Ht) as (Hvp & Hfp & M1 & P1 & F1).
  destruct (process_except r0 s1) as [r1 s2] eqn:He.
  destruct (process_except_local r0 _ _ _ He) as (M2 & P2 & F2).
  destruct (cleanup_temp_files E [vp; fp] s2) as [r3 s3] eqn:Hc.
  assert (Hl : local [video_path_of filename; frame_path_of filename]
                 (cleanup_temp_files E [vp; fp])).
  { eapply local_weaken; [|apply cleanup_local].
    destruct Hvp as [->| ->], Hfp as [->| ->]; simpl; tauto. }
  destruct (Hl _ _ _ Hc) as (M3 & P3 & F3).
  intros Hr. assert (s' = s3) by (destruct r3; inversion Hr; reflexivity). subst s'.
  repeat split; try congruence.
  intros k Hk Hk' Hk''. rewrite F3 by (simpl; intuition congruence).
  rewrite F2 by auto. auto.
Qed.


Lemma cons_cp_inl (x : Z) (r : list Z + decode_error) (cps : list Z) :
  cons_cp x r = inl cps -> exists cs, r = inl cs /\ cps = x :: cs.
Proof. destruct r as [cs|e]; simpl; intros H; [inversion H; eauto|discriminate]. Qed.

Ltac bool_facts :=
  repeat match goal with
  | H : (_ && _)%bool = true |- _ => apply andb_true_iff in H; destruct H
  | H : (_ && _)%bool = false |- _ => apply andb_false_iff in H; destruct H
  | H : negb _ = true |- _ => apply negb_true_iff in H
  | H : negb _ = false |- _ => apply negb_false_iff in H
  | H : in_range _ _ _ = _ |- _ => unfold in_range in H
  | H : (_ <? _) = true |- _ => apply Z.ltb_lt in H
  | H : (_ <? _) = false |- _ => apply Z.ltb_ge in H
  | H : (_ <=? _) = true |- _ => apply Z.leb_le in H
  | H : (_ <=? _) = false |- _ => apply Z.leb_gt in H
  | H : (_ =? _) = true |- _ => apply Z.eqb_eq in H
  | H : (_ =? _) = false |- _ => apply Z.eqb_neq in H
  end.

(** A code point below 128 in the decoded text is one of the bytes: no
    multi-byte sequence decodes to ASCII. *)
Lemma utf8_decode_ascii (n : nat) : forall l pos cps c,
  (length l <= n)%nat -> utf8_decode_from pos l = inl cps -> In c cps -> c < 128 -> In c l.
Proof.
  induction n as [|n IH]; intros l pos cps c Hl Hd Hin Hc.
  { destruct l; [simpl in Hd; inversion Hd; subst; destruct Hin|simpl in Hl; lia]. }
  destruct l as [|b0 rest]; [simpl in Hd; inversion Hd; subst; destruct Hin|].
  cbn [utf8_decode_from] in Hd. cbv zeta in Hd.
  repeat match type of Hd with
  | context [if ?b then _ else _] => let E := fresh "E" in destruct b eqn:E
  | context [match ?l with [] => _ | _ :: _ => _ end] => destruct l
  end; try discriminate;
  apply cons_cp_inl in Hd; destruct Hd as (cs & Hr & ->);
  destruct Hin as [<-|Hin]; bool_facts; simpl in Hl;
  try (exfalso; lia); try (left; reflexivity);
  eapply IH in Hr; eauto; simpl; try lia; tauto.
Qed.

Lemma byte_chr_dot (b : Z) : byte_chr b = "."%char -> b < 256 -> b = 46.
Proof.
  unfold byte_chr. intros H Hb. destruct (Z.lt_ge_cases b 0) as [Hn|Hn].
  - rewrite Z2Nat.nonpos in H by lia. discriminate.
  - apply (f_equal nat_of_ascii) in H. rewrite nat_ascii_embedding in H by lia.
    change (nat_of_ascii ".") with 46%nat in H. lia.
Qed.

Lemma utf8_encode_cp_dot (c : Z) : In "."%char (utf8_encode_cp c) -> c = 46.
Proof.
  unfold utf8_encode_cp. intros H. apply in_map_iff in H. destruct H as (b & Hb & Hin).
  destruct (Z.ltb_spec c 128).
  { destruct Hin as [<-|[]]. apply byte_chr_dot; [exact Hb|lia]. }
  exfalso.
  destruct (Z.ltb_spec c 2048); [|destruct (Z.ltb_spec c 65536)];
    repeat destruct Hin as [<-|Hin]; try destruct Hin;
    (apply byte_chr_dot in Hb; [|Z.div_mod_to_equations; lia]);
    Z.div_mod_to_equations; lia.
Qed.

Lemma lower_cp_dot U cps i c : In 46 (lower_cp U cps i c) -> c = 46.
Proof.
  unfold lower_cp. intros H.
  destruct ((65 <=? c) && (c <=? 90))%bool eqn:E1.
  { bool_facts. destruct H as [H|[]]. lia. }
  destruct (Z.ltb_spec c 128); [destruct H as [H|[]]; lia|].
  destruct (Z.eqb_spec c 304); [destruct H as [H|[H|[]]]; lia|].
  destruct (Z.eqb_spec c 8490); [destruct H as [H|[]]; lia|].
  apply in_map_iff in H. destruct H as (k & Hk & _). lia.
Qed.

Lemma lower_from_dot U cps i l : In 46 (lower_from U cps i l) -> In 46 l.
Proof.
  revert i. induction l as [|c rest IH]; intros i; simpl; [tauto|].
  rewrite in_app_iff. intros [H|H].
  - left. exact (lower_cp_dot U cps i c H).
  - right. exact (IH _ H).
Qed.

Lemma str_bytes_dot (s : string) : In 46 (str_bytes s) -> In "."%char (list_ascii_of_string s).
Proof.
  unfold str_bytes. intros H. apply in_map_iff in H. destruct H as (x & Hx & Hin).
  replace x with "."%char in Hin; [exact Hin|].
  rewrite <- (ascii_nat_embedding x). unfold byte_val in Hx.
  replace (nat_of_ascii x) with 46%nat by lia. reflexivity.
Qed.

(** [str.lower] creates no '.': the only lowercase mappings with ASCII
    results are those of ASCII letters, U+0130 and U+212A. *)
Lemma lower_no_dot (U : unicode_db) (s : string) :
  In "."%char (list_ascii_of_string (lower U s)) -> In "."%char (list_ascii_of_string s).
Proof.
  unfold lower. destruct (utf8_decode s) as [cps|e] eqn:Hd; [|tauto].
  unfold utf8_encode. rewrite list_ascii_of_string_of_list_ascii. intros H.
  apply in_flat_map in H. destruct H as (c & Hc & Hin).
  apply utf8_encode_cp_dot in Hin. subst c.
  apply lower_from_dot in Hc. apply str_bytes_dot.
  eapply (utf8_decode_ascii (length (str_bytes s))); eauto. lia.
Qed.


(** ** Validation *)

Lemma accepted_iff (U : unicode_db) (filename : string) :
  accepted U filename = true <-> In (snd (splitext (lower U filename))) valid_extensions.
Proof.
  unfold accepted. rewrite existsb_exists. split.
  - intros (x & Hx & He). apply String.eqb_eq in He. now subst.
  - intros H. exists (snd (splitext (lower U filename))). split; [exact H|apply String.eqb_refl].
Qed.

(** The Kelvin sign lowercases to an ASCII 'k', so "clip.mKv" passes
    as a ".mkv" file. *)
Example kelvin_name_accepted : accepted plain_unicode kelvin_name = true.
Proof. vm_compute. reflexivity. Qed.

(** [String.append] is [simpl never] under stdpp; its equations by [change]. *)
Lemma str_append_cons (c : ascii) (a b : string) : (String c a ++ b)%string = String c (a ++ b).
Proof. reflexivity. Qed.

Lemma str_append_empty_r (a : string) : (a ++ "")%string = a.
Proof. induction a as [|c a IH]; [reflexivity|]. now rewrite str_append_cons, IH. Qed.

Lemma str_append_assoc (a b c : string) : (a ++ (b ++ c))%string = ((a ++ b) ++ c)%string.
Proof. induction a as [|x a IH]; [reflexivity|]. now rewrite !str_append_cons, IH. Qed.

Lemma py_join_lists (sep e : string) (items : list string) :
  In e items -> exists pre post, py_join sep items = (pre ++ e ++ post)%string.
Proof.
  induction items as [|x rest IH]; [intros []|].
  intros [->|Hin].
  - destruct rest as [|y rest'].
    + exists ""%string, ""%string. simpl. now rewrite str_append_empty_r.
    + exists ""%string, (sep ++ py_join sep (y :: rest'))%string. reflexivity.
  - destruct rest as [|y rest']; [destruct Hin|].
    destruct (IH Hin) as (pre & post & Hj).
    exists (x ++ sep ++ pre)%string, post.
    change (py_join sep (x :: y :: rest')) with (x ++ sep ++ py_join sep (y :: rest'))%string.
    rewrite Hj. now rewrite !str_append_assoc.
Qed.

(** The run of [process_video] on a rejected name: the 400 of the
    validator, and a cleanup of two [None] paths that only logs. *)
Lemma process_video_rejected (E : env) (filename : string) (s : state) :
  accepted (unicode E) filename = false ->
  process_video E filename s =
    (Raise (HTTPException 400 (invalid_format_detail (set_order E))),
     mkState (fs s) (logs s ++ [none_warning; none_warning]) (model s) (processor s)).
Proof.
  intros Ha. unfold process_video, process_try, validate_video_file.
  fold (accepted (unicode E) filename). rewrite Ha. cbn.
  now rewrite <- app_assoc.
Qed.

Lemma accepted_validate E filename s :
  accepted (unicode E) filename = true ->
  validate_video_file (unicode E) (set_order E) filename s = (Ok tt, s).
Proof.
  intros Ha. unfold validate_video_file. fold (accepted (unicode E) filename). now rewrite Ha.
Qed.

(** ** Which status codes the stages raise *)

Lemma try_500 {A} (body : M A) (f : py_exc -> string) :
  raises_500 (try_except body (fun e => raise (HTTPException 500 (f e)))).
Proof.
  intros s c d s' H. unfold try_except in H.
  destruct (body s) as [[a|e] s1]; inversion H; reflexivity.
Qed.

Lemma save_500 E filename : raises_500 (save_uploaded_video E filename).
Proof. apply try_500. Qed.

Lemma classify_500 E p : raises_500 (classify_image E p).
Proof. apply try_500. Qed.

Lemma encode_500 E p : raises_500 (encode_image_to_base64 E p).
Proof. apply try_500. Qed.

Lemma extract_500 E vp filename : raises_500 (extract_first_frame E vp filename).
Proof.
  intros s c d s' H. unfold extract_first_frame, bind, run_ffmpeg in H.
  destruct (ffmpeg E _) as [msg|rc err out]; [discriminate|].
  destruct (translate_newlines err); [|discriminate].
  simpl in H. destruct (negb _); inversion H; reflexivity.
Qed.

Lemma process_try_accepted_500 E filename s r vp fp s1 :
  accepted (unicode E) filename = true ->
  process_try E filename s = (r, vp, fp, s1) ->
  forall c d, r = Raise (HTTPException c d) -> c = 500.
Proof.
  intros Ha H c d ->. revert H. unfold process_try.
  rewrite (accepted_validate E filename s Ha).
  destruct (save_uploaded_video E filename s) as [[v|e] s2] eqn:H2;
    [|intros H; inversion H; subst; eapply save_500; eauto].
  destruct (extract_first_frame E v filename s2) as [[f|e] s3] eqn:H3;
    [|intros H; inversion H; subst; eapply extract_500; eauto].
  destruct (classify_image E f s3) as [[l|e] s4] eqn:H4;
    [|intros H; inversion H; subst; eapply classify_500; eauto].
  destruct (encode_image_to_base64 E f s4) as [[t|e] s5] eqn:H5;
    [discriminate|intros H; inversion H; subst; eapply encode_500; eauto].
Qed.

Lemma process_except_result r s :
  fst (process_except r s) =
  match r with
  | Ok b => Ok b
  | Raise (HTTPException c d) => Raise (HTTPException c d)
  | Raise _ => Raise (HTTPException 500 "Internal processing error")
  end.
Proof. destruct r as [b|[c d|m|m|m]]; reflexivity. Qed.

(** [process_video] ends with the outcome of [try]/[except]: the [finally]
    block never replaces it. *)
Lemma process_video_outcome E filename s r vp fp s1 :
  process_try E filename s = (r, vp, fp, s1) ->
  fst (process_video E filename s) = fst (process_except r s1).
Proof.
  intros Ht. unfold process_video. rewrite Ht.
  destruct (process_except r s1) as [r' s2] eqn:He.
  pose proof (cleanup_never_raises E [vp; fp] s2) as Hc.
  destruct (cleanup_temp_files E [vp; fp] s2) as [r3 s3].
  simpl in Hc. subst r3. reflexivity.
Qed.

(** An exception of the [try] block that is not an [HTTPException]
    becomes the generic 500. *)
Lemma process_try_unexpected E filename s e vp fp s1 :
  process_try E filename s = (Raise e, vp, fp, s1) ->
  (forall c d, e <> HTTPException c d) ->
  fst (post_process E filename s) = JSONDetail 500 "Internal processing error".
Proof.
  intros Ht He. pose proof (process_video_outcome _ _ _ _ _ _ _ Ht) as Ho.
  rewrite process_except_result in Ho. unfold post_process.
  destruct (process_video E filename s) as [r' s'] eqn:Hp. simpl in Ho |- *. rewrite Ho.
  destruct e as [c d|m|m|m]; [exfalso; exact (He c d eq_refl)|reflexivity..].
Qed.

Lemma save_ok_eq E filename s content :
  open_error E (video_path_of filename) = None -> upload_body E = Some content ->
  write_error E = None ->
  save_uploaded_video E filename s =
    (Ok (video_path_of filename),
     mkState (<[video_path_of filename := content]> (<[video_path_of filename := []]> (fs s)))
             (logs s) (model s) (processor s)).
Proof.
  intros Ho Hu Hw. unfold save_uploaded_video, try_except, bind, open_wb, set_fs, ret.
  cbv zeta. rewrite Ho, Hu, Hw. reflexivity.
Qed.

(** The state after a successful upload of [content]. *)
Lemma process_try_extract_fails E filename s content e s3 :
  accepted (unicode E) filename = true -> open_error E (video_path_of filename) = None ->
  upload_body E = Some content -> write_error E = None ->
  extract_first_frame E (video_path_of filename) filename
    (mkState (<[video_path_of filename := content]> (<[video_path_of filename := []]> (fs s)))
             (logs s) (model s) (processor s)) = (Raise e, s3) ->
  process_try E filename s = (Raise e, Some (video_path_of filename), None, s3).
Proof.
  intros Ha Ho Hu Hw Hx. unfold process_try.
  rewrite (accepted_validate E filename s Ha), (save_ok_eq E filename s content Ho Hu Hw), Hx.
  reflexivity.
Qed.

(** ** The ffmpeg image name *)

Lemma list_ascii_of_string_app (a b : string) :
  list_ascii_of_string (a ++ b) = list_ascii_of_string a ++ list_ascii_of_string b.
Proof. induction a as [|c a IH]; [reflexivity|]. simpl. now rewrite IH. Qed.

Lemma length_list_ascii_of_string (a : string) : length (list_ascii_of_string a) = String.length a.
Proof. induction a as [|c a IH]; [reflexivity|]. simpl. now rewrite IH. Qed.

Lemma c_chars_no_nul (l : list ascii) : ~ In "000"%char l -> c_chars l = l.
Proof.
  induction l as [|c rest IH]; intros Hn; [reflexivity|]. simpl.
  destruct (Ascii.eqb_spec c "000"%char) as [->|Hne]; [exfalso; apply Hn; now left|].
  rewrite IH; [reflexivity|]. intros H. apply Hn. now right.
Qed.

Lemma frame_filename_loop_plain (p : list ascii) : forall fuel q,
  ~ In "%"%char p -> (length q + length p <= buf_size - 1)%nat -> (length p < fuel)%nat ->
  frame_filename_loop fuel p q false = (q ++ p, false).
Proof.
  unfold buf_size. induction p as [|c rest IH]; intros fuel q Hn Hl Hf.
  - destruct fuel; [lia|]. simpl. now rewrite app_nil_r.
  - destruct fuel as [|fuel]; [lia|]. cbn [frame_filename_loop].
    destruct (Ascii.eqb_spec c "%"%char) as [->|Hne]; [exfalso; apply Hn; now left|].
    unfold addchar, buf_size. simpl in Hl, Hf.
    assert (Hq : (length q <? 1024 - 1)%nat = true) by (apply Nat.ltb_lt; lia).
    rewrite Hq, IH; [rewrite <- app_assoc; reflexivity|intros H; apply Hn; now right| |lia].
    rewrite length_app. simpl. lia.
Qed.

(** A name with no '%' and no NUL that fits the 1024-byte buffer is
    written as it is. *)
Lemma image2_filename_plain (url : string) :
  ~ In "%"%char (list_ascii_of_string url) -> ~ In "000"%char (list_ascii_of_string url) ->
  (String.length url <= buf_size - 1)%nat -> image2_filename url = url.
Proof.
  unfold buf_size in *. intros Hp Hz Hl. unfold image2_filename. rewrite c_chars_no_nul by exact Hz.
  rewrite frame_filename_loop_plain; [|exact Hp|rewrite length_list_ascii_of_string; simpl; lia|lia].
  simpl. apply string_of_list_ascii_of_string.
Qed.

(** The frame of a name with no '%' and no NUL of at most 1008 bytes is
    written at the frame path itself. *)
Lemma frame_output_plain (filename : string) :
  ~ In "%"%char (list_ascii_of_string filename) -> ~ In "000"%char (list_ascii_of_string filename) ->
  (String.length filename <= 1008)%nat -> frame_output_of filename = frame_path_of filename.
Proof.
  intros Hp Hz Hl. unfold frame_output_of. apply image2_filename_plain.
  + change (frame_path_of filename) with ("/tmp/frame_" ++ filename ++ ".jpg")%string.
    rewrite !list_ascii_of_string_app. simpl.
    intros H. repeat (destruct H as [H|H]; [discriminate H|]).
    apply in_app_or in H as [H|H]; [exact (Hp H)|].
    repeat (destruct H as [H|H]; [discriminate H|]). exact H.
  + change (frame_path_of filename) with ("/tmp/frame_" ++ filename ++ ".jpg")%string.
    rewrite !list_ascii_of_string_app. simpl.
    intros H. repeat (destruct H as [H|H]; [discriminate H|]).
    apply in_app_or in H as [H|H]; [exact (Hz H)|].
    repeat (destruct H as [H|H]; [discriminate H|]). exact H.
  + change (frame_path_of filename) with ("/tmp/frame_" ++ filename ++ ".jpg")%string.
    rewrite <- !length_list_ascii_of_string, !list_ascii_of_string_app, !length_app.
    rewrite !length_list_ascii_of_string. unfold buf_size. simpl. lia.
Qed.


(** ** Rounding *)

Lemma round4_mono (x y : Q) : (x <= y)%Q -> round4 x <= round4 y.
Proof.
  intros Hxy. unfold round4. cbv zeta.
  assert (Hm : (x * inject_Z 10000 <= y * inject_Z 10000)%Q)
    by (apply Qmult_le_compat_r; [exact Hxy|unfold Qle; simpl; lia]).
  pose proof (Qfloor_resp_le _ _ Hm) as Hf.
  set (fx := Qfloor (x * inject_Z 10000)) in *.
  set (fy := Qfloor (y * inject_Z 10000)) in *.
  destruct (Z.le_lteq fx fy) as [H _]. destruct (H Hf) as [Hlt|Heq].
  - destruct (Qcompare_spec (x * inject_Z 10000 - inject_Z fx) (1 # 2));
      destruct (Qcompare_spec (y * inject_Z 10000 - inject_Z fy) (1 # 2));
      destruct (Z.even fx), (Z.even fy); lia.
  - rewrite <- Heq.
    destruct (Qcompare_spec (x * inject_Z 10000 - inject_Z fx) (1 # 2));
      destruct (Qcompare_spec (y * inject_Z 10000 - inject_Z fx) (1 # 2));
      destruct (Z.even fx); try lia; exfalso; lra.
Qed.

Lemma round4_unit (x : Q) : (0 <= x <= 1)%Q -> 0 <= round4 x <= 10000.
Proof.
  intros [H0 H1]. split.
  - change 0 with (round4 0). now apply round4_mono.
  - change 10000 with (round4 1). now apply round4_mono.
Qed.

(** ** Helpers on the pipeline *)

Lemma encode_ok E p s t s' :
  encode_image_to_base64 E p s = (Ok t, s') ->
  s' = s /\ exists b, fs s !! p = Some b /\ t = b64encode b.
Proof.
  unfold encode_image_to_base64, try_except, bind, read_file, open_read, ret, raise.
  destruct (fs s !! p) as [b|]; [destruct (read_error E p)|];
    intros H; inversion H; subst; eauto.
Qed.

Lemma process_try_ok E filename s b vp fp s1 :
  process_try E filename s = (Ok b, vp, fp, s1) ->
  vp = Some (video_path_of filename) /\ fp = Some (frame_path_of filename) /\
  exists frame, fs s1 !! frame_path_of filename = Some frame /\ thumbnail_b64 b = b64encode frame.
Proof.
  unfold process_try.
  destruct (validate_video_file _ _ _ s) as [[u|e] s2]; [|discriminate].
  destruct (save_uploaded_video E filename s2) as [[v|e] s3] eqn:H3; [|discriminate].
  apply save_result in H3. subst v.
  destruct (extract_first_frame E _ filename s3) as [[f|e] s4] eqn:H4; [|discriminate].
  apply extract_result in H4. subst f.
  destruct (classify_image E _ s4) as [[l|e] s5] eqn:H5; [|discriminate].
  destruct (encode_image_to_base64 E _ s5) as [[t|e] s6] eqn:H6; [|discriminate].
  apply encode_ok in H6 as [-> (frame & Hf & ->)].
  intros H. inversion H; subst. eauto 6.
Qed.

Lemma lifespan_startup_model (L : startup_env) s r s' :
  lifespan_startup L s = (r, s') ->
  (r = Ok tt /\ exists m, model s' = Some m) \/ (exists e, r = Raise e /\ model s' = model s).
Proof.
  unfold lifespan_startup, bind, try_except, log, set_globals, raise.
  destruct (load_processor L _) as [p|msg]; simpl.
  - destruct (load_model L _) as [m|msg]; simpl; intros H; inversion H; subst; simpl; eauto.
  - intros H. inversion H; subst. simpl. eauto.
Qed.

Lemma lookup_remove_paths (l : list string) (m : gmap string (list byte)) (k : string) :
  remove_paths l m !! k = if in_dec string_dec k l then None else m !! k.
Proof.
  revert m. induction l as [|p l IH]; intros m; simpl; [reflexivity|].
  rewrite IH. destruct (in_dec string_dec k l) as [Hin|Hin];
    destruct (string_dec p k) as [->|Hne]; simpl; auto.
  - now rewrite lookup_delete_eq.
  - now rewrite lookup_delete_ne.
Qed.

Lemma remove_paths_idem (l : list string) (m : gmap string (list byte)) :
  remove_paths l (remove_paths l m) = remove_paths l m.
Proof.
  apply map_eq. intros k. rewrite !lookup_remove_paths.
  destruct (in_dec string_dec k l); reflexivity.
Qed.

Lemma cleanup_no_errors E ps s :
  (forall p, In p (given_paths ps) -> remove_error E p = None) ->
  cleanup_temp_files E ps s =
    (Ok tt, mkState (remove_paths (given_paths ps) (fs s)) (logs s ++ none_warnings ps)
                    (model s) (processor s)).
Proof.
  revert s. induction ps as [|[p|] rest IH]; intros s Hr.
  - destruct s; simpl. now rewrite app_nil_r.
  - cbn [cleanup_temp_files given_paths none_warnings].
    unfold bind at 1, try_except, bind at 1, os_path_exists, os_remove, ret, set_fs.
    rewrite (Hr p (or_introl eq_refl)).
    assert (Hrest : forall q, In q (given_paths rest) -> remove_error E q = None)
      by (intros q Hq; apply Hr; now right).
    case_bool_decide as Hp.
    + rewrite IH by exact Hrest. reflexivity.
    + rewrite IH by exact Hrest. simpl.
      rewrite (delete_id (fs s) p) by (destruct (fs s !! p); [exfalso; apply Hp; eauto|reflexivity]).
      destruct s; reflexivity.
  - cbn [cleanup_temp_files given_paths none_warnings].
    unfold bind, try_except, os_path_exists, raise, log. cbn.
    rewrite IH by exact Hr. cbn. rewrite <- app_assoc. reflexivity.
Qed.

(** [extract_first_frame] as one equation. *)
Lemma extract_first_frame_eq (E : env) (video_path filename : string) (s : state) :
  extract_first_frame E video_path filename s =
  match ffmpeg E (fs s !! video_path) with
  | FFmpegLaunchError msg => (Raise (OSError msg), s)
  | FFmpegExited rc err out =>
      (match translate_newlines err with
       | inr msg => Raise (OtherError msg)
       | inl text =>
           if rc =? 0 then Ok (frame_path_of filename)
           else Raise (HTTPException 500 ("Failed to extract frame from video: " ++ text)%string)
       end,
       mkState (match out with Some b => <[frame_output_of filename := b]> (fs s) | None => fs s end)
               (logs s) (model s) (processor s))
  end.
Proof.
  unfold extract_first_frame, bind, run_ffmpeg.
  destruct (ffmpeg E _) as [msg|rc err out]; [reflexivity|].
  destruct (translate_newlines err) as [text|msg]; [|reflexivity].
  cbn. destruct (rc =? 0); reflexivity.
Qed.

(* ================================================================== *)
(** * The claims *)

(** C5: [POST /process] answers HTTP 400 exactly when the format validation
    fails ([os.path.splitext(filename.lower())[1]] is not an allowed
    extension); every other failure (storage, extraction, classification,
    encoding, unexpected) is a 500; every failure is a JSON [detail]
    response (Starlette's plain-text 500 for an escaped exception never
    happens), and a rejected upload leaves the filesystem as it was. *)
Theorem post_process_status_codes (E : env) (filename : string) (s : state) :
  let '(h, s') := post_process E filename s in
  match h with
  | JSONOk _ => True
  | JSONDetail c _ => c = 400 \/ c = 500
  | PlainServerError => False
  end /\
  (status_of h = 400 <-> ~ In (snd (splitext (lower (unicode E) filename))) valid_extensions) /\
  (~ In (snd (splitext (lower (unicode E) filename))) valid_extensions -> fs s' = fs s).
Proof.
  unfold post_process.
  destruct (accepted (unicode E) filename) eqn:Ha.
  - pose proof (proj1 (accepted_iff (unicode E) filename) Ha) as Hin.
    destruct (process_try E filename s) as [[[r vp] fp] s1] eqn:Ht.
    pose proof (process_video_outcome _ _ _ _ _ _ _ Ht) as Ho.
    pose proof (process_try_accepted_500 _ _ _ _ _ _ _ Ha Ht) as H5.
    destruct (process_video E filename s) as [r' s'] eqn:Hp.
    simpl in Ho. subst r'. rewrite process_except_result.
    destruct r as [b|[c d|m|m|m]]; simpl;
      try rewrite (H5 c d eq_refl);
      (split; [tauto|split; [split; [discriminate|tauto]|tauto]]).
  - rewrite process_video_rejected by exact Ha. simpl.
    assert (Hn : ~ In (snd (splitext (lower (unicode E) filename))) valid_extensions).
    { rewrite <- accepted_iff. congruence. }
    split; [now left|split; [split; [intros _; exact Hn|reflexivity]|intros _; reflexivity]].
Qed.

(** C10: on the validation-failure path the [finally] block calls
    [cleanup_temp_files(None, None)]; [os.path.exists(None)] raises a
    [TypeError] that cleanup catches and logs, no file is removed, and the
    400 already determined is what the request returns. *)
Theorem rejected_cleanup_of_none (E : env) (filename : string) (s : state) :
  ~ In (snd (splitext (lower (unicode E) filename))) valid_extensions ->
  post_process E filename s =
    (JSONDetail 400 (invalid_format_detail (set_order E)),
     mkState (fs s) (logs s ++ [none_warning; none_warning]) (model s) (processor s)).
Proof.
  intros Hn. unfold post_process.
  rewrite process_video_rejected; [reflexivity|].
  destruct (accepted (unicode E) filename) eqn:Ha; [|reflexivity].
  exfalso. apply Hn. now apply accepted_iff.
Qed.

Lemma rejected_cleanup_of_none_witness :
  ~ In (snd (splitext (lower (unicode env_ok) "photo.gif"))) valid_extensions /\
  post_process env_ok "photo.gif" ready_state =
    (JSONDetail 400 (invalid_format_detail valid_extensions),
     mkState ∅ [none_warning; none_warning] (Some checkpoint) (Some checkpoint)).
Proof.
  assert (Hn : ~ In (snd (splitext (lower (unicode env_ok) "photo.gif"))) valid_extensions)
    by (vm_compute; intuition discriminate).
  split; [exact Hn|].
  exact (rejected_cleanup_of_none env_ok "photo.gif" ready_state Hn).
Defined.

(** C3: the validator accepts exactly the names whose extension (as
    [os.path.splitext] defines it) after [str.lower] of the whole name is
    one of the seven allowed ones; it changes no state; a rejection is a
    400 whose detail lists every allowed extension (in the set's iteration
    order), and the rejected request writes nothing to the filesystem. *)
Theorem validate_video_file_allow_list (E : env) (filename : string) (s : state) :
  Permutation (set_order E) valid_extensions ->
  (In (snd (splitext (lower (unicode E) filename))) valid_extensions ->
     validate_video_file (unicode E) (set_order E) filename s = (Ok tt, s)) /\
  (~ In (snd (splitext (lower (unicode E) filename))) valid_extensions ->
     exists detail,
       validate_video_file (unicode E) (set_order E) filename s = (Raise (HTTPException 400 detail), s) /\
       (forall ext, In ext valid_extensions ->
          exists pre post, detail = (pre ++ ext ++ post)%string) /\
       fst (post_process E filename s) = JSONDetail 400 detail /\
       fs (snd (post_process E filename s)) = fs s).
Proof.
  intros Hp. unfold validate_video_file. fold (accepted (unicode E) filename). split.
  - intros Hin. apply accepted_iff in Hin. now rewrite Hin.
  - intros Hn. assert (Ha : accepted (unicode E) filename = false).
    { destruct (accepted (unicode E) filename) eqn:Ha; [|reflexivity].
      exfalso. apply Hn. now apply accepted_iff. }
    rewrite Ha. exists (invalid_format_detail (set_order E)). repeat split.
    + intros ext Hext. unfold invalid_format_detail.
      destruct (py_join_lists ", " ext (set_order E)) as (pre & post & Hj).
      { apply Permutation_in with (l := valid_extensions); [symmetry; exact Hp|exact Hext]. }
      rewrite Hj. exists ("Invalid video file format. Supported formats: " ++ pre)%string, post.
      now rewrite str_append_assoc.
    + unfold post_process. now rewrite process_video_rejected.
    + unfold post_process. now rewrite process_video_rejected.
Qed.

Lemma validate_video_file_allow_list_witness :
  Permutation (set_order env_ok) valid_extensions /\
  validate_video_file (unicode env_ok) valid_extensions "Holiday.MOV" ready_state = (Ok tt, ready_state).
Proof.
  split; [apply Permutation_refl|].
  apply (proj1 (validate_video_file_allow_list env_ok "Holiday.MOV" ready_state
                  (Permutation_refl _))).
  vm_compute. tauto.
Defined.

(** C4 (as the code does it): when [Image.open], the processor and the
    model accept the frame, both globals are loaded and [torch.topk]
    returns its three pairs as it promises ([topk_contract]), and the
    softmax lies in [0,1], [classify_image] returns exactly three pairs,
    changing nothing: the labels of [topk]'s indices in [topk]'s order,
    each with its softmax probability rounded to 4 digits (half to even,
    in units of 1e-4); the scores are non-increasing and in [0, 10000],
    and no class left out scores higher than a selected one.  The order of
    equal probabilities is whatever [torch.topk] returns. *)
Theorem classify_image_top3 (E : env) (image_path : string) (s : state) (b : list byte)
    (logits : list Q) (top : list (Q * nat)) :
  fs s !! image_path = Some b -> read_error E image_path = None ->
  pil_open (vit_model E) b = None -> preprocess (vit_model E) b = None ->
  forward (vit_model E) b = inl logits ->
  is_Some (model s) -> is_Some (processor s) ->
  topk (vit_model E) (softmax (vit_model E) logits) 3 = inl top ->
  topk_contract (softmax (vit_model E) logits) 3 top ->
  Forall (fun p => 0 <= p <= 1)%Q (softmax (vit_model E) logits) ->
  (forall a, In a top -> is_Some (id2label (vit_model E) (snd a))) ->
  exists lbls,
    classify_image E image_path s = (Ok lbls, s) /\
    length lbls = 3%nat /\
    Forall2 (fun l a => id2label (vit_model E) (snd a) = Some (fst l) /\ snd l = round4 (fst a) /\
                        nth_error (softmax (vit_model E) logits) (snd a) = Some (fst a)) lbls top /\
    Sorted (fun l1 l2 : string * Z => snd l2 <= snd l1) lbls /\
    Forall (fun l : string * Z => 0 <= snd l <= 10000) lbls /\
    (forall i p, nth_error (softmax (vit_model E) logits) i = Some p -> ~ In i (List.map snd top) ->
       forall l, In l lbls -> round4 p <= snd l).
Proof.
  intros Hb Hr Ho Hpre Hf [m Hm] [pr Hpr] Ht (Hlen & _ & Hin & Hsort & Hmax) Hunit Hlab.
  set (probs := softmax (vit_model E) logits) in *.
  destruct top as [|[p0 i0] [|[p1 i1] [|[p2 i2] [|a3 rest]]]]; try discriminate Hlen.
  destruct (Hlab (p0, i0) ltac:(simpl; tauto)) as [l0 H0].
  destruct (Hlab (p1, i1) ltac:(simpl; tauto)) as [l1 H1].
  destruct (Hlab (p2, i2) ltac:(simpl; tauto)) as [l2 H2].
  exists [(l0, round4 p0); (l1, round4 p1); (l2, round4 p2)].
  assert (Hp0 := Hin p0 i0 ltac:(simpl; tauto)).
  assert (Hp1 := Hin p1 i1 ltac:(simpl; tauto)).
  assert (Hp2 := Hin p2 i2 ltac:(simpl; tauto)).
  apply Sorted_StronglySorted in Hsort; [|intros x y z Hxy Hyz; simpl in *; eapply Qle_trans; eauto].
  inversion Hsort as [|? ? Hs1 Hall0]; subst.
  inversion Hs1 as [|? ? Hs2 Hall1]; subst.
  inversion Hall0 as [|? ? H01 Hall0']; subst. inversion Hall0' as [|? ? H02 _]; subst.
  inversion Hall1 as [|? ? H12 _]; subst. simpl in H01, H02, H12.
  assert (Hu : forall i p, nth_error probs i = Some p -> 0 <= round4 p <= 10000).
  { intros i p Hi. apply round4_unit. rewrite List.Forall_forall in Hunit.
    apply Hunit. eapply nth_error_In. exact Hi. }
  split; [|split; [reflexivity|split; [|split; [|split]]]].
  - unfold classify_image, try_except, open_image, read_file, open_read, call_processor,
      call_model, of_result, call_topk, ret, bind.
    cbv beta. rewrite Hb, Hr. cbv beta iota. rewrite Ho. cbv beta iota.
    rewrite Hpr, Hpre. cbv beta iota. rewrite Hm, Hf. cbv beta iota.
    fold probs. rewrite Ht. cbn. simpl in H0, H1, H2. rewrite H0, H1, H2. reflexivity.
  - repeat constructor; auto.
  - repeat constructor; simpl; apply round4_mono; auto.
  - repeat constructor; simpl; eapply Hu; eauto.
  - intros i p Hi Hn l Hl.
    assert (Hle : forall a, In a [(p0, i0); (p1, i1); (p2, i2)] -> (p <= fst a)%Q)
      by (apply (Hmax i p Hi Hn)).
    simpl in Hl. destruct Hl as [<-|[<-|[<-|[]]]]; simpl; apply round4_mono;
      [apply (Hle (p0, i0))|apply (Hle (p1, i1))|apply (Hle (p2, i2))]; simpl; tauto.
Qed.

(** The run of "clip.mp4" in [env_ok]: [torch.topk] keeps its promise and
    the frame is classified. *)
Lemma classify_image_top3_witness :
  topk_contract (softmax vit_ok [4#1; 3#1; 2#1; 2#1]%Q) 3
                [(5123 # 10000, 0%nat); (2871 # 10000, 1%nat); (1034 # 10000, 2%nat)]%Q /\
  exists lbls,
    classify_image env_ok "/tmp/frame_clip.mp4.jpg" frame_state = (Ok lbls, frame_state) /\
    Sorted (fun l1 l2 : string * Z => snd l2 <= snd l1) lbls.
Proof.
  assert (Hc : topk_contract (softmax vit_ok [4#1; 3#1; 2#1; 2#1]%Q) 3
                 [(5123 # 10000, 0%nat); (2871 # 10000, 1%nat); (1034 # 10000, 2%nat)]%Q).
  { split; [reflexivity|]. split; [repeat constructor; simpl; intuition discriminate|].
    split; [intros p i H; simpl in H; destruct H as [H|[H|[H|[]]]]; inversion H; reflexivity|].
    split; [repeat constructor; simpl; apply Qle_bool_imp_le; reflexivity|].
    intros i p Hi Hn a Ha.
    destruct i as [|[|[|[|i]]]]; simpl in Hi, Hn;
      try (exfalso; apply Hn; tauto); [|destruct i; discriminate].
    inversion Hi; subst p.
    destruct Ha as [<-|[<-|[<-|[]]]]; apply Qle_bool_imp_le; reflexivity. }
  split; [exact Hc|].
  destruct (classify_image_top3 env_ok "/tmp/frame_clip.mp4.jpg" frame_state jpeg_frame
              [4#1; 3#1; 2#1; 2#1]%Q
              [(5123 # 10000, 0%nat); (2871 # 10000, 1%nat); (1034 # 10000, 2%nat)]%Q
              ltac:(reflexivity) ltac:(reflexivity) ltac:(reflexivity) ltac:(reflexivity)
              ltac:(reflexivity) ltac:(eexists; reflexivity) ltac:(eexists; reflexivity)
              ltac:(reflexivity) Hc)
    as (lbls & Hcl & _ & _ & Hs & _).
  - repeat constructor; apply Qle_bool_imp_le; reflexivity.
  - intros a Ha. simpl in Ha. destruct Ha as [<-|[<-|[<-|[]]]]; eexists; reflexivity.
  - exists lbls. split; [exact Hcl|exact Hs].
Defined.

(** C4, the claim as worded fails: with logits [1, 1, 2] the first two
    classes are equally likely, [torch.topk] may return them in either
    order (both keep its promise), and [classify_image] then lists class 1
    before class 0, not in class-index order. *)
Lemma tied_classes_in_reverse_index_order :
  topk_contract (softmax vit_ties [1#1; 1#1; 2#1]%Q) 3
                [(57612 # 100000, 2%nat); (21194 # 100000, 1%nat); (21194 # 100000, 0%nat)]%Q /\
  topk vit_ties (softmax vit_ties [1#1; 1#1; 2#1]%Q) 3 =
    inl [(57612 # 100000, 2%nat); (21194 # 100000, 1%nat); (21194 # 100000, 0%nat)]%Q /\
  classify_image env_ties "/tmp/frame_clip.mp4.jpg" frame_state =
    (Ok [("Egyptian cat", 5761); ("tiger cat", 2119); ("tabby, tabby cat", 2119)]%string,
     frame_state).
Proof.
  split; [|split; vm_compute; reflexivity].
  split; [reflexivity|]. split; [repeat constructor; simpl; intuition discriminate|].
  split; [intros p i H; simpl in H; destruct H as [H|[H|[H|[]]]]; inversion H; reflexivity|].
  split; [repeat constructor; simpl; apply Qle_bool_imp_le; reflexivity|].
  intros i p Hi Hn a Ha. exfalso.
  destruct i as [|[|[|i]]]; simpl in Hi, Hn; try (apply Hn; tauto).
  destruct i; discriminate.
Qed.

(** C7: in every successful response [thumbnail_b64] is the base64 encoding
    of the bytes of the extracted frame file, so decoding it gives back
    exactly those bytes (and hence the same image dimensions, whatever
    function of the bytes measures them).  When the frame file cannot be
    read, encoding fails with HTTP 500 and the message of the exception:
    for an absent file, [FileNotFoundError] with the [repr] of the path;
    for a present file that cannot be read, the reading error. *)
Theorem thumbnail_is_base64_of_frame (dims : list byte -> option (Z * Z))
    (E : env) (filename : string) (s : state) (b : response_body) (s' : state) :
  process_video E filename s = (Ok b, s') ->
  (exists s1 frame,
     process_try E filename s = (Ok b, Some (video_path_of filename), Some (frame_path_of filename), s1) /\
     fs s1 !! frame_path_of filename = Some frame /\
     thumbnail_b64 b = b64encode frame /\
     b64decode (thumbnail_b64 b) = Some frame /\
     option_map dims (b64decode (thumbnail_b64 b)) = Some (dims frame)) /\
  (forall p s0, fs s0 !! p = None ->
     encode_image_to_base64 E p s0 =
       (Raise (HTTPException 500 ("Failed to encode image: [Errno 2] No such file or directory: "
                                  ++ py_repr (unicode E) p)), s0)) /\
  (forall p s0 bytes msg, fs s0 !! p = Some bytes -> read_error E p = Some msg ->
     encode_image_to_base64 E p s0 =
       (Raise (HTTPException 500 ("Failed to encode image: " ++ msg)), s0)).
Proof.
  intros Hp. split; [|split].
  - destruct (process_try E filename s) as [[[r vp] fp] s1] eqn:Ht.
    pose proof (process_video_outcome _ _ _ _ _ _ _ Ht) as Ho.
    rewrite Hp, process_except_result in Ho. simpl in Ho.
    destruct r as [b0|[c d|m|m|m]]; try discriminate.
    inversion Ho; subst b0.
    destruct (process_try_ok _ _ _ _ _ _ _ Ht) as (-> & -> & frame & Hf & Hb).
    exists s1, frame. rewrite Hb, b64decode_encode. auto.
  - intros p s0 Hn. unfold encode_image_to_base64, try_except, bind, read_file, open_read.
    now rewrite Hn.
  - intros p s0 bytes msg Hs He.
    unfold encode_image_to_base64, try_except, bind, read_file, open_read.
    now rewrite Hs, He.
Qed.

Lemma thumbnail_is_base64_of_frame_witness :
  process_video env_ok "clip.mp4" ready_state =
    (Ok (mkBody top3 (b64encode jpeg_frame)), ready_state) /\
  b64decode (b64encode jpeg_frame) = Some jpeg_frame.
Proof.
  assert (Hrun : process_video env_ok "clip.mp4" ready_state =
                 (Ok (mkBody top3 (b64encode jpeg_frame)), ready_state))
    by (vm_compute; reflexivity).
  split; [exact Hrun|].
  destruct (thumbnail_is_base64_of_frame (fun _ => None) env_ok "clip.mp4" ready_state
              (mkBody top3 (b64encode jpeg_frame)) ready_state Hrun)
    as [(s1 & frame & Ht & Hf & He & Hd & _) _].
  simpl in He, Hd.
  rewrite Hd. f_equal.
  vm_compute in Ht. inversion Ht; subst s1. vm_compute in Hf. now inversion Hf.
Defined.

(** C8: [GET /health] always reports ["healthy"] with [model_loaded] false
    at import time and after a failed startup, true once the lifespan has
    loaded the model; requests do not change it, and it reads nothing but
    the [model] global. *)
Theorem health_reports_model_loaded (L : startup_env) :
  health_check initial_state = mkHealth "healthy" false /\
  (forall r s', lifespan_startup L initial_state = (r, s') ->
     health_check s' = mkHealth "healthy" (match r with Ok _ => true | Raise _ => false end)) /\
  (forall E filename s, health_check (snd (process_video E filename s)) = health_check s) /\
  (forall s1 s2, model s1 = model s2 -> health_check s1 = health_check s2) /\
  (forall s, status (health_check s) = "healthy"%string).
Proof.
  repeat split.
  - intros r s' H. apply lifespan_startup_model in H.
    destruct H as [[-> [m Hm]]|[e [-> Hm]]]; unfold health_check; rewrite Hm; reflexivity.
  - intros E filename s.
    destruct (process_video E filename s) as [r s'] eqn:Hp.
    destruct (process_video_frame _ _ _ _ _ Hp) as (Hm & _ & _).
    unfold health_check. simpl. now rewrite Hm.
  - intros s1 s2 Hm. unfold health_check. now rewrite Hm.
Qed.

(** C9 (as the code does it): both paths the code names are functions of
    the uploaded name alone; a name starting with '/' is used unchanged as
    the storage path, any other name is stored under "/tmp/".  ffmpeg's
    image2 muxer writes the frame under the image2 expansion of the frame
    path ("%d" and "%0Nd" become the frame number 1, "%%" becomes '%',
    another '%' ends the name, a NUL ends it, and it is cut at 1023
    bytes), which is the frame path itself for a name with no '%' and no
    NUL of at most 1008 bytes.  A request touches no file other than these
    three paths, so requests with the same name use the same files. *)
Theorem temp_paths_from_filename (E : env) (filename : string) (s : state) :
  video_path_of filename = path_join "/tmp" filename /\
  frame_path_of filename = path_join "/tmp" ("frame_" ++ filename ++ ".jpg") /\
  frame_path_of filename = ("/tmp/frame_" ++ filename ++ ".jpg")%string /\
  frame_output_of filename = image2_filename (frame_path_of filename) /\
  (~ In "%"%char (list_ascii_of_string filename) -> ~ In "000"%char (list_ascii_of_string filename) ->
     (String.length filename <= 1008)%nat -> frame_output_of filename = frame_path_of filename) /\
  (forall rest, filename = String "/" rest -> video_path_of filename = filename) /\
  ((forall rest, filename <> String "/" rest) ->
     video_path_of filename = ("/tmp/" ++ filename)%string) /\
  (forall k, k <> video_path_of filename -> k <> frame_path_of filename ->
     k <> frame_output_of filename ->
     fs (snd (process_video E filename s)) !! k = fs s !! k).
Proof.
  split; [reflexivity|]. split; [reflexivity|]. split; [reflexivity|].
  split; [reflexivity|]. split.
  - apply frame_output_plain.
  - split; [intros rest ->; reflexivity|]. split.
    + intros Hn. destruct filename as [|c rest]; [reflexivity|].
      destruct c as [[] [] [] [] [] [] [] []]; try reflexivity.
      exfalso. exact (Hn rest eq_refl).
    + intros k Hk Hk' Hk''.
      destruct (process_video E filename s) as [r s'] eqn:Hp.
      destruct (process_video_frame _ _ _ _ _ Hp) as (_ & _ & Hf).
      simpl. now apply Hf.
Qed.

(** C9, the claim as worded fails, twice.  ffmpeg does not write the
    frame of "clip%d.mp4" to "/tmp/frame_clip%d.mp4.jpg" but to
    "/tmp/frame_clip1.mp4.jpg": the classification then finds no file, the
    request ends with a 500, and the frame is left on disk.  And
    "/tmp/clip.mp4" is an absolute name that passes validation, whose
    storage location is inside /tmp. *)
Lemma percent_name_frame_elsewhere :
  accepted plain_unicode "clip%d.mp4" = true /\
  frame_output_of "clip%d.mp4" = "/tmp/frame_clip1.mp4.jpg"%string /\
  post_process env_ok "clip%d.mp4" ready_state =
    (JSONDetail 500 "Image classification failed: [Errno 2] No such file or directory: '/tmp/frame_clip%d.mp4.jpg'",
     mkState {["/tmp/frame_clip1.mp4.jpg"%string := jpeg_frame]} [] (Some checkpoint) (Some checkpoint)) /\
  accepted plain_unicode "/tmp/clip.mp4" = true /\
  video_path_of "/tmp/clip.mp4" = ("/tmp/" ++ "clip.mp4")%string.
Proof. repeat split; vm_compute; reflexivity. Qed.

(** C6 (as the code does it): cleanup never raises.  When no removal
    fails, every given path is gone afterwards, no other file is touched,
    and a second call leaves the filesystem as it is and only logs again
    one warning per [None] path.  A removal that fails is logged as a
    warning and the file stays. *)
Theorem cleanup_total_and_repeatable (E : env) (ps : list (option string)) (s : state) :
  fst (cleanup_temp_files E ps s) = Ok tt /\
  (forall p msg, is_Some (fs s !! p) -> remove_error E p = Some msg ->
     cleanup_temp_files E [Some p] s =
       (Ok tt, mkState (fs s) (logs s ++ ["Failed to remove " ++ p ++ ": " ++ msg]%string)
                       (model s) (processor s))) /\
  ((forall p, In p (given_paths ps) -> remove_error E p = None) ->
   let '(r1, s1) := cleanup_temp_files E ps s in
   let '(r2, s2) := cleanup_temp_files E ps s1 in
   (forall p, In p (given_paths ps) -> fs s1 !! p = None) /\
   (forall k, ~ In k (given_paths ps) -> fs s1 !! k = fs s !! k) /\
   r2 = Ok tt /\ fs s2 = fs s1 /\ logs s2 = logs s1 ++ none_warnings ps /\
   model s2 = model s1 /\ processor s2 = processor s1).
Proof.
  split; [apply cleanup_never_raises|]. split.
  - intros p msg Hp He. cbn [cleanup_temp_files].
    unfold bind, try_except, os_path_exists, os_remove, raise, log, ret.
    rewrite bool_decide_eq_true_2 by exact Hp. rewrite He. reflexivity.
  - intros Hr. rewrite (cleanup_no_errors E ps s Hr), cleanup_no_errors by exact Hr.
    cbn [fs logs model processor].
    repeat split.
    + intros p Hp. rewrite lookup_remove_paths. now destruct (in_dec string_dec p _).
    + intros k Hk. rewrite lookup_remove_paths. now destruct (in_dec string_dec k _).
    + apply remove_paths_idem.
Qed.

Lemma cleanup_total_and_repeatable_witness :
  (forall p, In p (given_paths [Some "/tmp/clip.mp4"%string; None]) -> remove_error env_ok p = None) /\
  cleanup_temp_files env_ok [Some "/tmp/clip.mp4"%string; None] clip_state =
    (Ok tt, mkState ∅ [none_warning] (Some checkpoint) (Some checkpoint)).
Proof.
  assert (Hr : forall p, In p (given_paths [Some "/tmp/clip.mp4"%string; None]) ->
                         remove_error env_ok p = None) by reflexivity.
  split; [exact Hr|].
  pose proof (proj2 (proj2 (cleanup_total_and_repeatable env_ok
                [Some "/tmp/clip.mp4"%string; None] clip_state)) Hr) as H.
  vm_compute in H. vm_compute. reflexivity.
Defined.

(** C6, the claim as worded fails: when [os.remove] is refused, the file
    stays after cleanup, and a second cleanup logs again. *)
Lemma cleanup_refused_twice :
  let '(_, s1) := cleanup_temp_files env_remove_denied [Some "/tmp/clip.mp4"%string] clip_state in
  let '(_, s2) := cleanup_temp_files env_remove_denied [Some "/tmp/clip.mp4"%string] s1 in
  fs s1 !! "/tmp/clip.mp4"%string = Some [x00; x00; x00; x18] /\
  logs s2 = logs s1 ++
    ["Failed to remove /tmp/clip.mp4: [Errno 13] Permission denied: '/tmp/clip.mp4'"%string].
Proof. vm_compute. split; reflexivity. Qed.

(** C2 (as the code does it): if the ffmpeg process cannot be started,
    [extract_first_frame] raises that [OSError].  Once ffmpeg has exited
    (whatever image it wrote stays, under the image2 name of the frame
    path), its stderr is decoded as UTF-8 ([text=True]): bytes that are not
    UTF-8 raise [UnicodeDecodeError], whatever the exit status.  Otherwise
    it fails with HTTP 500 carrying the decoded stderr (newlines
    translated) exactly when the exit status is non-zero, and on status 0
    it returns the frame path without checking that the file exists.  In a
    request whose upload was stored, a launch failure or an undecodable
    stderr ends in [process_video]'s generic 500. *)
Theorem extract_first_frame_exit_status (E : env) (video_path filename : string) (s : state) :
  extract_first_frame E video_path filename s =
  match ffmpeg E (fs s !! video_path) with
  | FFmpegLaunchError msg => (Raise (OSError msg), s)
  | FFmpegExited rc err out =>
      (match translate_newlines err with
       | inr msg => Raise (OtherError msg)
       | inl text =>
           if rc =? 0 then Ok (frame_path_of filename)
           else Raise (HTTPException 500 ("Failed to extract frame from video: " ++ text)%string)
       end,
       mkState (match out with Some b => <[frame_output_of filename := b]> (fs s) | None => fs s end)
               (logs s) (model s) (processor s))
  end /\
  (forall s0 content,
     accepted (unicode E) filename = true -> open_error E (video_path_of filename) = None ->
     upload_body E = Some content -> write_error E = None ->
     match ffmpeg E (Some content) with
     | FFmpegLaunchError _ => True
     | FFmpegExited _ err _ => exists msg, translate_newlines err = inr msg
     end ->
     fst (post_process E filename s0) = JSONDetail 500 "Internal processing error").
Proof.
  split; [apply extract_first_frame_eq|].
  intros s0 content Ha Ho Hu Hw Hff.
  set (s2 := mkState (<[video_path_of filename := content]> (<[video_path_of filename := []]> (fs s0)))
                     (logs s0) (model s0) (processor s0)).
  assert (Hv : fs s2 !! video_path_of filename = Some content) by apply lookup_insert_eq.
  destruct (extract_first_frame E (video_path_of filename) filename s2) as [r3 s3] eqn:Hx.
  pose proof Hx as Hx'. rewrite extract_first_frame_eq, Hv in Hx'.
  destruct (ffmpeg E (Some content)) as [msg|rc err out].
  - inversion Hx'; subst r3.
    apply (process_try_unexpected E filename s0 (OSError msg) (Some (video_path_of filename)) None s3);
      [exact (process_try_extract_fails E filename s0 content _ s3 Ha Ho Hu Hw Hx)
      |intros c d; discriminate].
  - destruct Hff as [msg Hm]. rewrite Hm in Hx'. inversion Hx'; subst r3.
    apply (process_try_unexpected E filename s0 (OtherError msg) (Some (video_path_of filename)) None s3);
      [exact (process_try_extract_fails E filename s0 content _ s3 Ha Ho Hu Hw Hx)
      |intros c d; discriminate].
Qed.

(** C2, the claim as worded fails: ffmpeg exits with status 0 without
    writing the frame, and [extract_first_frame] returns the frame path of
    a file that does not exist. *)
Lemma extract_returns_missing_frame :
  extract_first_frame env_no_frame "/tmp/clip.mp4" "clip.mp4" clip_state =
    (Ok "/tmp/frame_clip.mp4.jpg"%string, clip_state) /\
  fs clip_state !! "/tmp/frame_clip.mp4.jpg"%string = None.
Proof. split; vm_compute; reflexivity. Qed.

(** ffmpeg writes the frame and exits with status 0, but its stderr is not
    UTF-8: the request ends in the generic 500, the [UnicodeDecodeError]
    is logged, and the frame is left on disk. *)
Example undecodable_stderr_run :
  post_process env_bad_stderr "clip.mp4" ready_state =
    (JSONDetail 500 "Internal processing error",
     mkState {["/tmp/frame_clip.mp4.jpg"%string := jpeg_frame]}
       ["Unexpected processing error: 'utf-8' codec can't decode byte 0xff in position 0: invalid start byte";
        none_warning]%string
       (Some checkpoint) (Some checkpoint)).
Proof. vm_compute. reflexivity. Qed.

(** C1: the upload "clip.mp4" on a full disk.  [open(..., "wb")] has
    created /tmp/clip.mp4 when the write fails; [save_uploaded_video]
    raises before returning the path, so [video_path] is still [None] in
    [process_video] and the [finally] block removes nothing: the request
    ends with a 500 and /tmp/clip.mp4 is left on disk. *)
Theorem disk_full_upload_left_behind :
  fs ready_state !! "/tmp/clip.mp4"%string = None /\
  post_process env_disk_full "clip.mp4" ready_state =
    (JSONDetail 500 "Failed to save video: [Errno 28] No space left on device",
     mkState {["/tmp/clip.mp4"%string := []]} [none_warning; none_warning]
             (Some checkpoint) (Some checkpoint)).
Proof. split; vm_compute; reflexivity. Qed.


(* ================================================================== *)
(** * Further properties of the code *)

(** ** Helpers *)

Lemma string_length_app (a b : string) :
  String.length (a ++ b) = (String.length a + String.length b)%nat.
Proof. induction a as [|c a IH]; [reflexivity|]. rewrite str_append_cons. simpl. now rewrite IH. Qed.

Lemma video_path_cases (filename : string) :
  video_path_of filename = filename \/ video_path_of filename = ("/tmp/" ++ filename)%string.
Proof.
  destruct filename as [|c rest]; [right; reflexivity|].
  destruct c as [[] [] [] [] [] [] [] []]; (left; reflexivity) || (right; reflexivity).
Qed.

Lemma video_ne_frame (filename : string) : video_path_of filename <> frame_path_of filename.
Proof.
  intros H. apply (f_equal String.length) in H.
  change (frame_path_of filename) with ("/tmp/frame_" ++ filename ++ ".jpg")%string in H.
  rewrite !string_length_app in H. simpl in H.
  destruct (video_path_cases filename) as [Hv|Hv]; rewrite Hv in H;
    [|rewrite string_length_app in H; simpl in H]; lia.
Qed.

(** [classify_image] as one equation, stage by stage. *)
Lemma classify_image_eq E p s :
  classify_image E p s =
  (match fs s !! p with
   | None =>
       Raise (HTTPException 500 ("Image classification failed: [Errno 2] No such file or directory: "
                                 ++ py_repr (unicode E) p))
   | Some b =>
       match read_error E p with
       | Some msg => Raise (HTTPException 500 ("Image classification failed: " ++ msg))
       | None =>
           match pil_open (vit_model E) b with
           | Some Unidentified =>
               Raise (HTTPException 500 ("Image classification failed: cannot identify image file "
                                         ++ py_repr (unicode E) p))
           | Some (OpenFailed msg) => Raise (HTTPException 500 ("Image classification failed: " ++ msg))
           | None =>
               match processor s, model s with
               | Some _, Some _ =>
                   match classifier E b with
                   | inl l => Ok l
                   | inr msg => Raise (HTTPException 500 ("Image classification failed: " ++ msg))
                   end
               | None, _ =>
                   Raise (HTTPException 500 ("Image classification failed: " ++ exc_str not_callable))
               | Some _, None =>
                   match preprocess (vit_model E) b with
                   | Some msg => Raise (HTTPException 500 ("Image classification failed: " ++ msg))
                   | None =>
                       Raise (HTTPException 500 ("Image classification failed: " ++ exc_str not_callable))
                   end
               end
           end
       end
   end, s).
Proof.
  unfold classify_image, try_except, open_image, read_file, open_read, call_processor, call_model,
    of_result, ret, raise, bind.
  destruct (fs s !! p) as [b|]; [|reflexivity].
  destruct (read_error E p); [reflexivity|].
  destruct (pil_open (vit_model E) b) as [[|msg]|]; [reflexivity|reflexivity|].
  destruct (processor s) as [q|]; [|reflexivity].
  unfold classifier.
  destruct (preprocess (vit_model E) b); cbv beta iota; [destruct (model s); reflexivity|].
  destruct (model s) as [m|]; [|reflexivity].
  destruct (forward (vit_model E) b); cbv beta iota; [|reflexivity].
  destruct (call_topk _ _ 3) as [top|e]; [|reflexivity].
  destruct (format_loop _ top _ _); reflexivity.
Qed.

Lemma classify_pure E p s : snd (classify_image E p s) = s.
Proof. rewrite classify_image_eq. reflexivity. Qed.

Lemma classify_ok E p s l :
  fst (classify_image E p s) = Ok l ->
  (exists m, model s = Some m) /\ (exists q, processor s = Some q) /\
  exists b, fs s !! p = Some b /\ read_error E p = None /\ pil_open (vit_model E) b = None /\
            classifier E b = inl l.
Proof.
  rewrite classify_image_eq. cbn [fst].
  destruct (fs s !! p) as [b|]; [|discriminate].
  destruct (read_error E p); [discriminate|].
  destruct (pil_open (vit_model E) b) as [[|msg]|] eqn:Hp; try discriminate.
  destruct (processor s) as [q|]; [|discriminate].
  destruct (model s) as [m|]; [|destruct (preprocess (vit_model E) b); discriminate].
  destruct (classifier E b) eqn:Hc; intros H; inversion H; subst.
  split; [eauto|]. split; [eauto|]. exists b. auto.
Qed.

Lemma save_logs E filename s r s' :
  save_uploaded_video E filename s = (r, s') -> logs s' = logs s.
Proof.
  unfold save_uploaded_video, try_except, bind, open_wb, set_fs, ret, raise.
  destruct (open_error E _); [intros H; now inversion H|].
  destruct (upload_body E); [|intros H; now inversion H].
  destruct (write_error E) as [[n m]|]; intros H; now inversion H.
Qed.

Lemma extract_logs E vp filename s r s' :
  extract_first_frame E vp filename s = (r, s') -> logs s' = logs s.
Proof.
  rewrite extract_first_frame_eq.
  destruct (ffmpeg E _) as [msg|rc err out]; intros H; inversion H; reflexivity.
Qed.

Lemma encode_pure E p s : snd (encode_image_to_base64 E p s) = s.
Proof.
  unfold encode_image_to_base64, try_except, bind, read_file, open_read, ret, raise.
  destruct (fs s !! p); [destruct (read_error E p)|]; reflexivity.
Qed.

Lemma process_try_logs E filename s r vp fp s1 :
  process_try E filename s = (r, vp, fp, s1) -> logs s1 = logs s.
Proof.
  unfold process_try.
  pose proof (validate_video_file_pure (unicode E) (set_order E) filename s) as V.
  destruct (validate_video_file _ _ _ s) as [[u|e] s2]; simpl in V; subst s2;
    [|intros H; now inversion H].
  destruct (save_uploaded_video E filename s) as [[v|e] s2] eqn:H2;
    pose proof (save_logs _ _ _ _ _ H2) as L2; [|intros H; inversion H; now subst].
  destruct (extract_first_frame E v filename s2) as [[f|e] s3] eqn:H3;
    pose proof (extract_logs _ _ _ _ _ _ H3) as L3; [|intros H; inversion H; subst; congruence].
  pose proof (classify_pure E f s3) as L4.
  destruct (classify_image E f s3) as [[l|e] s4] eqn:H4; simpl in L4; subst s4;
    [|intros H; inversion H; subst; congruence].
  pose proof (encode_pure E f s3) as L5.
  destruct (encode_image_to_base64 E f s3) as [[t|e] s5] eqn:H5; simpl in L5; subst s5;
    intros H; inversion H; subst; congruence.
Qed.

Lemma process_try_ok_labels E filename s b vp fp s1 :
  process_try E filename s = (Ok b, vp, fp, s1) ->
  (exists m, model s = Some m) /\ (exists q, processor s = Some q) /\
  exists frame, classifier E frame = inl (out_labels b) /\ thumbnail_b64 b = b64encode frame.
Proof.
  unfold process_try.
  pose proof (validate_video_file_pure (unicode E) (set_order E) filename s) as V.
  destruct (validate_video_file _ _ _ s) as [[u|e] s2]; simpl in V; subst s2; [|discriminate].
  destruct (save_uploaded_video E filename s) as [[v|e] s2] eqn:H2; [|discriminate].
  destruct (save_local _ _ _ _ _ H2) as (M2 & P2 & _).
  destruct (extract_first_frame E v filename s2) as [[f|e] s3] eqn:H3; [|discriminate].
  destruct (extract_local _ _ _ _ _ _ H3) as (M3 & P3 & _).
  pose proof (classify_pure E f s3) as L4.
  destruct (classify_image E f s3) as [[l|e] s4] eqn:H4; [|discriminate].
  simpl in L4. subst s4.
  assert (Hc : fst (classify_image E f s3) = Ok l) by (rewrite H4; reflexivity).
  destruct (classify_ok _ _ _ _ Hc) as ([m Hm] & [q Hq] & fr & Hfr & _ & _ & Hcl).
  destruct (encode_image_to_base64 E f s3) as [[t|e] s5] eqn:H5; [|discriminate].
  apply encode_ok in H5 as [-> (fr' & Hfr' & ->)].
  rewrite Hfr in Hfr'. inversion Hfr'; subst fr'.
  intros H. inversion H; subst. simpl.
  split; [exists m; congruence|]. split; [exists q; congruence|]. eauto.
Qed.

Lemma subseteq_None (m1 m2 : gmap string (list byte)) k :
  m1 ⊆ m2 -> m2 !! k = None -> m1 !! k = None.
Proof.
  intros Hs Hk. destruct (m1 !! k) eqn:E1; [|reflexivity].
  rewrite map_subseteq_spec in Hs. rewrite (Hs _ _ E1) in Hk. discriminate.
Qed.

Lemma cleanup_cons E q rest s :
  cleanup_temp_files E (q :: rest) s = cleanup_temp_files E rest (snd (cleanup_temp_files E [q] s)).
Proof.
  cbn [cleanup_temp_files]. unfold bind at 1. unfold bind at 2.
  match goal with |- context [try_except ?b ?h s] =>
    pose proof (try_except_log_ok b (fun e => "Failed to remove " ++ str_path q ++ ": " ++ exc_str e)%string s) as Ht;
    destruct (try_except b h s) as [r1 s1] eqn:Hr end.
  simpl in Ht. subst r1. reflexivity.
Qed.

Lemma cleanup_one E q s :
  snd (cleanup_temp_files E [q] s) =
  match q with
  | None => mkState (fs s) (logs s ++ [none_warning]) (model s) (processor s)
  | Some p =>
      if bool_decide (is_Some (fs s !! p)) then
        match remove_error E p with
        | None => mkState (delete p (fs s)) (logs s) (model s) (processor s)
        | Some msg => mkState (fs s) (logs s ++ ["Failed to remove " ++ p ++ ": " ++ msg]%string)
                              (model s) (processor s)
        end
      else s
  end.
Proof.
  destruct q as [p|].
  - cbn [cleanup_temp_files]. unfold bind, try_except, os_path_exists, os_remove, ret, raise, log, set_fs.
    case_bool_decide; [|reflexivity]. destruct (remove_error E p); reflexivity.
  - reflexivity.
Qed.

Lemma cleanup_subseteq E ps s : fs (snd (cleanup_temp_files E ps s)) ⊆ fs s.
Proof.
  revert s. induction ps as [|q rest IH]; intros s; [reflexivity|].
  rewrite cleanup_cons. etransitivity; [apply IH|].
  rewrite cleanup_one. destruct q as [p|]; [|reflexivity].
  case_bool_decide; [|reflexivity].
  destruct (remove_error E p); [reflexivity|apply delete_subseteq].
Qed.

Lemma cleanup_removes E ps s p :
  In p (given_paths ps) -> remove_error E p = None ->
  fs (snd (cleanup_temp_files E ps s)) !! p = None.
Proof.
  intros Hin Hr. revert s. induction ps as [|q rest IH]; intros s; [destruct Hin|].
  rewrite cleanup_cons.
  destruct q as [p'|]; simpl in Hin.
  - destruct (string_dec p' p) as [->|Hne].
    + apply (subseteq_None _ _ _ (cleanup_subseteq E rest _)).
      rewrite cleanup_one, Hr. case_bool_decide as Hs.
      * apply lookup_delete_eq.
      * destruct (fs s !! p) eqn:Hp; [exfalso; apply Hs; eauto|reflexivity].
    + destruct Hin as [Heq|Hin]; [congruence|]. now apply IH.
  - now apply IH.
Qed.

Lemma cleanup_logs E ps s : exists l, logs (snd (cleanup_temp_files E ps s)) = logs s ++ l.
Proof.
  revert s. induction ps as [|q rest IH]; intros s; [exists []; now rewrite app_nil_r|].
  rewrite cleanup_cons. destruct (IH (snd (cleanup_temp_files E [q] s))) as [l Hl].
  rewrite Hl, cleanup_one. destruct q as [p|].
  - case_bool_decide; [|eauto]. destruct (remove_error E p); simpl;
      [eexists; rewrite <- app_assoc; reflexivity|eauto].
  - simpl. exists (none_warning :: l). now rewrite <- app_assoc.
Qed.

Lemma process_try_saved E filename s r vp fp s1 :
  accepted (unicode E) filename = true ->
  open_error E (video_path_of filename) = None -> upload_body E <> None ->
  write_error E = None ->
  process_try E filename s = (r, vp, fp, s1) -> vp = Some (video_path_of filename).
Proof.
  intros Ha Ho Hu Hw. unfold process_try. rewrite (accepted_validate E filename s Ha).
  destruct (upload_body E) as [c|] eqn:Hc; [|congruence].
  rewrite (save_ok_eq E filename s c Ho Hc Hw).
  set (s2 := mkState _ _ _ _).
  destruct (extract_first_frame E _ filename s2) as [[f|e] s3];
    [destruct (classify_image E f s3) as [[l|e'] s4];
      [destruct (encode_image_to_base64 E f s4) as [[t|e''] s5]|]|];
    intros H; inversion H; reflexivity.
Qed.

Ltac not_in_list := let H := fresh "H" in
  intros H; simpl in H; repeat (destruct H as [H|H]; [discriminate H|]); exact H.

(** ** app.py *)

(** [save_uploaded_video]: on success it returns [os.path.join("/tmp",
    filename)] holding exactly the uploaded bytes, and nothing else
    changes.  On failure it raises a 500 "Failed to save video: ...";
    when [open] had succeeded the file is left behind holding the bytes
    written before the failing write (none when the upload could not be
    read), so an existing file of that name is truncated. *)
Theorem save_uploaded_video_outcome (E : env) (filename : string) (s : state) :
  match save_uploaded_video E filename s with
  | (Ok p, s') =>
      p = video_path_of filename /\
      exists content, upload_body E = Some content /\ write_error E = None /\
        s' = mkState (<[video_path_of filename := content]> (fs s)) (logs s) (model s) (processor s)
  | (Raise e, s') =>
      (exists msg, e = HTTPException 500 ("Failed to save video: " ++ msg)) /\
      s' = mkState (match open_error E (video_path_of filename) with
                    | Some _ => fs s
                    | None =>
                        <[video_path_of filename := match upload_body E, write_error E with
                                                    | Some c, Some (n, _) => firstn n c
                                                    | _, _ => []
                                                    end]> (fs s)
                    end) (logs s) (model s) (processor s)
  end.
Proof.
  unfold save_uploaded_video, try_except, bind, open_wb, set_fs, ret, raise. cbv zeta.
  destruct (open_error E (video_path_of filename)) as [m|]; simpl.
  - split; [eauto|]. destruct s; reflexivity.
  - destruct (upload_body E) as [c|]; simpl.
    + destruct (write_error E) as [[n m]|]; simpl.
      * split; [eauto|]. f_equal. apply insert_insert_eq.
      * split; [reflexivity|]. exists c. split; [reflexivity|]. split; [reflexivity|].
        f_equal. apply insert_insert_eq.
    + split; eauto.
Qed.

(** [extract_first_frame]: for a name with no '%' and no NUL of at most
    1008 bytes, ffmpeg writes the frame at the frame path, which is never
    the video path, so the ffmpeg child never overwrites the upload it
    reads. *)
Theorem extraction_keeps_upload (E : env) (filename : string) (s : state) :
  ~ In "%"%char (list_ascii_of_string filename) -> ~ In "000"%char (list_ascii_of_string filename) ->
  (String.length filename <= 1008)%nat ->
  frame_output_of filename = frame_path_of filename /\
  video_path_of filename <> frame_output_of filename /\
  fs (snd (extract_first_frame E (video_path_of filename) filename s)) !! video_path_of filename
    = fs s !! video_path_of filename.
Proof.
  intros Hp Hz Hl. pose proof (frame_output_plain filename Hp Hz Hl) as Ho.
  split; [exact Ho|]. rewrite Ho. split; [apply video_ne_frame|].
  destruct (extract_first_frame E _ filename s) as [r s'] eqn:H.
  destruct (extract_local _ _ _ _ _ _ H) as (_ & _ & Hf). simpl. apply Hf.
  intros [Heq|[]]. apply (video_ne_frame filename). rewrite <- Ho. now rewrite Heq.
Qed.

Lemma extraction_keeps_upload_witness :
  frame_output_of "clip.mp4" = frame_path_of "clip.mp4".
Proof.
  apply (proj1 (extraction_keeps_upload env_ok "clip.mp4" ready_state
                  ltac:(not_in_list) ltac:(not_in_list) ltac:(simpl; lia))).
Defined.

(** [classify_image] changes no state and every exception it raises is a
    500 "Image classification failed: ...": a missing frame file gives the
    [FileNotFoundError] text with the [repr] of the path, a failing read
    its message, an image PIL cannot identify the
    [UnidentifiedImageError] text.  With the model or the processor not
    loaded it never succeeds; it succeeds with labels exactly when the
    file is read and opened and the classifier yields these labels on its
    bytes. *)
Theorem classify_image_outcome (E : env) (image_path : string) (s : state) :
  snd (classify_image E image_path s) = s /\
  (forall e, fst (classify_image E image_path s) = Raise e ->
     exists msg, e = HTTPException 500 ("Image classification failed: " ++ msg)) /\
  (fs s !! image_path = None ->
     fst (classify_image E image_path s) =
       Raise (HTTPException 500 ("Image classification failed: [Errno 2] No such file or directory: "
                                 ++ py_repr (unicode E) image_path))) /\
  (forall b msg, fs s !! image_path = Some b -> read_error E image_path = Some msg ->
     fst (classify_image E image_path s) =
       Raise (HTTPException 500 ("Image classification failed: " ++ msg))) /\
  (forall b, fs s !! image_path = Some b -> read_error E image_path = None ->
     pil_open (vit_model E) b = Some Unidentified ->
     fst (classify_image E image_path s) =
       Raise (HTTPException 500 ("Image classification failed: cannot identify image file "
                                 ++ py_repr (unicode E) image_path))) /\
  (model s = None \/ processor s = None -> forall l, fst (classify_image E image_path s) <> Ok l) /\
  (forall l, fst (classify_image E image_path s) = Ok l ->
     exists b, fs s !! image_path = Some b /\ read_error E image_path = None /\
       pil_open (vit_model E) b = None /\ classifier E b = inl l) /\
  (forall b l, fs s !! image_path = Some b -> read_error E image_path = None ->
     pil_open (vit_model E) b = None -> is_Some (model s) -> is_Some (processor s) ->
     classifier E b = inl l -> fst (classify_image E image_path s) = Ok l).
Proof.
  split; [apply classify_pure|]. split; [|split; [|split; [|split; [|split; [|split]]]]].
  - intros e. rewrite classify_image_eq. cbn [fst].
    destruct (fs s !! image_path) as [b|]; [|intros H; inversion H; eauto].
    destruct (read_error E image_path); [intros H; inversion H; eauto|].
    destruct (pil_open (vit_model E) b) as [[|msg]|]; [intros H; inversion H; eauto..|].
    destruct (processor s), (model s); try destruct (classifier E b);
      try destruct (preprocess (vit_model E) b); intros H; inversion H; eauto.
  - intros Hn. rewrite classify_image_eq, Hn. reflexivity.
  - intros b msg Hb Hr. rewrite classify_image_eq, Hb, Hr. reflexivity.
  - intros b Hb Hr Hu. rewrite classify_image_eq, Hb, Hr, Hu. reflexivity.
  - intros Hm l Hl. destruct (classify_ok _ _ _ _ Hl) as ([m Hm'] & [q Hq] & _).
    destruct Hm; congruence.
  - intros l Hl. destruct (classify_ok _ _ _ _ Hl) as (_ & _ & Hb). exact Hb.
  - intros b l Hb Hr Hu [m Hm] [q Hq] Hc.
    rewrite classify_image_eq, Hb, Hr, Hu, Hm, Hq, Hc. reflexivity.
Qed.

(** [process_video] succeeds only once the lifespan has loaded both the
    model and the processor; its labels are the classifier's answer on a
    frame whose base64 encoding is the thumbnail. *)
Theorem successful_request_needs_model (E : env) (filename : string) (s : state)
    (b : response_body) (s' : state) :
  process_video E filename s = (Ok b, s') ->
  (exists m, model s = Some m) /\ (exists p, processor s = Some p) /\
  exists frame, classifier E frame = inl (out_labels b) /\ thumbnail_b64 b = b64encode frame.
Proof.
  intros Hp. destruct (process_try E filename s) as [[[r vp] fp] s1] eqn:Ht.
  pose proof (process_video_outcome _ _ _ _ _ _ _ Ht) as Ho.
  rewrite Hp, process_except_result in Ho. simpl in Ho.
  destruct r as [b0|[c d|m|m|m]]; try discriminate. inversion Ho; subst b0.
  exact (process_try_ok_labels _ _ _ _ _ _ _ Ht).
Qed.

Lemma successful_request_needs_model_witness : exists m, model ready_state = Some m.
Proof.
  apply (proj1 (successful_request_needs_model env_ok "clip.mp4" ready_state
                  (mkBody top3 (b64encode jpeg_frame)) ready_state
                  ltac:(vm_compute; reflexivity))).
Defined.

(** Once the upload has been written, the [finally] block removes it,
    whatever later stage fails, provided [os.remove] is allowed. *)
Theorem saved_upload_always_removed (E : env) (filename : string) (s : state) :
  accepted (unicode E) filename = true ->
  open_error E (video_path_of filename) = None -> upload_body E <> None ->
  write_error E = None -> remove_error E (video_path_of filename) = None ->
  fs (snd (process_video E filename s)) !! video_path_of filename = None.
Proof.
  intros Ha Ho Hu Hw Hr. unfold process_video.
  destruct (process_try E filename s) as [[[r vp] fp] s1] eqn:Ht.
  rewrite (process_try_saved _ _ _ _ _ _ _ Ha Ho Hu Hw Ht).
  destruct (process_except r s1) as [r' s2].
  pose proof (cleanup_removes E [Some (video_path_of filename); fp] s2 (video_path_of filename)
                (or_introl eq_refl) Hr) as Hc.
  destruct (cleanup_temp_files E _ s2) as [[] s3]; exact Hc.
Qed.

Lemma saved_upload_always_removed_witness :
  fs (snd (process_video env_no_frame "clip.mp4" ready_state)) !! "/tmp/clip.mp4"%string = None.
Proof.
  apply (saved_upload_always_removed env_no_frame "clip.mp4" ready_state);
    [vm_compute; reflexivity|reflexivity|discriminate|reflexivity|reflexivity].
Defined.

(** A successful request leaves neither the upload nor the frame path
    behind when [os.remove] is allowed, and touches no file other than
    these two and the file ffmpeg wrote; when ffmpeg wrote the frame at
    the frame path (a name with no '%' and no NUL of at most 1008 bytes),
    the filesystem is the one before the request minus the two paths.  It
    logs nothing and keeps the globals. *)
Theorem successful_request_leaves_no_temp_files (E : env) (filename : string) (s : state)
    (b : response_body) (s' : state) :
  remove_error E (video_path_of filename) = None ->
  remove_error E (frame_path_of filename) = None ->
  process_video E filename s = (Ok b, s') ->
  fs s' !! video_path_of filename = None /\ fs s' !! frame_path_of filename = None /\
  (forall k, k <> video_path_of filename -> k <> frame_path_of filename ->
     k <> frame_output_of filename -> fs s' !! k = fs s !! k) /\
  (frame_output_of filename = frame_path_of filename ->
     fs s' = delete (frame_path_of filename) (delete (video_path_of filename) (fs s))) /\
  logs s' = logs s /\ model s' = model s /\ processor s' = processor s.
Proof.
  intros Hrv Hrf Hp. revert Hp. unfold process_video.
  destruct (process_try E filename s) as [[[r vp] fp] s1] eqn:Ht.
  destruct (process_try_frame _ _ _ _ _ _ _ Ht) as (_ & _ & M1 & P1 & F1).
  pose proof (process_try_logs _ _ _ _ _ _ _ Ht) as L1.
  destruct r as [b0|e].
  - cbn [process_except ret].
    destruct (process_try_ok _ _ _ _ _ _ _ Ht) as (-> & -> & _).
    rewrite cleanup_no_errors by (intros p [<-|[<-|[]]]; assumption).
    intros H. inversion H; subst. cbn [fs logs model processor none_warnings flat_map given_paths].
    change (delete (frame_path_of filename) (delete (video_path_of filename) (fs s1)))
      with (remove_paths [video_path_of filename; frame_path_of filename] (fs s1)).
    rewrite ?app_nil_r.
    split; [rewrite lookup_remove_paths; destruct (in_dec _ _ _) as [_|Hn];
            [reflexivity|exfalso; apply Hn; now left]|].
    split; [rewrite lookup_remove_paths; destruct (in_dec _ _ _) as [_|Hn];
            [reflexivity|exfalso; apply Hn; right; now left]|].
    split.
    + intros k Hk Hk' Hk''. rewrite lookup_remove_paths.
      destruct (in_dec _ _ _) as [Hi|_]; [simpl in Hi; intuition congruence|]. now apply F1.
    + split; [|repeat split; congruence].
      intros Ho. apply map_eq. intros k. rewrite lookup_remove_paths.
      destruct (in_dec string_dec k _) as [Hi|Hi].
      * destruct (string_dec k (frame_path_of filename)) as [->|Hf]; [now rewrite lookup_delete_eq|].
        rewrite lookup_delete_ne by congruence.
        destruct (string_dec k (video_path_of filename)) as [->|Hv]; [now rewrite lookup_delete_eq|].
        simpl in Hi. intuition congruence.
      * rewrite !lookup_delete_ne by (intros Heq; apply Hi; subst; simpl; tauto).
        apply F1; [intros ->; apply Hi; now left|]. rewrite Ho. intros ->. apply Hi. right. now left.
  - destruct (process_except (Raise e) s1) as [r2 s2] eqn:He.
    pose proof (process_except_result (Raise e) s1) as Hr. rewrite He in Hr. simpl in Hr.
    destruct (cleanup_temp_files E [vp; fp] s2) as [[] s3]; intros H; inversion H; subst r2;
      destruct e as [c d|m|m|m]; discriminate.
Qed.

Lemma successful_request_leaves_no_temp_files_witness :
  fs ready_state = ∅ /\ logs ready_state = [].
Proof.
  destruct (successful_request_leaves_no_temp_files env_ok "clip.mp4" ready_state
              (mkBody top3 (b64encode jpeg_frame)) ready_state
              eq_refl eq_refl ltac:(vm_compute; reflexivity)) as (_ & _ & _ & Hf & Hl & _).
  split; [vm_compute; reflexivity|exact Hl].
Defined.

(** When ffmpeg writes the frame and then exits with an error, the request
    fails with the extraction 500 carrying the decoded stderr, and the
    frame file stays on disk: the [finally] block only sees
    [frame_path = None]. *)
Theorem failed_extraction_leaves_frame (E : env) (filename : string) (s : state)
    (content frame : list byte) (rc : Z) (err text : string) :
  accepted (unicode E) filename = true ->
  open_error E (video_path_of filename) = None -> upload_body E = Some content ->
  write_error E = None ->
  ffmpeg E (Some content) = FFmpegExited rc err (Some frame) -> rc <> 0 ->
  translate_newlines err = inl text ->
  frame_output_of filename <> video_path_of filename ->
  fst (post_process E filename s) =
    JSONDetail 500 ("Failed to extract frame from video: " ++ text) /\
  fs (snd (post_process E filename s)) !! frame_output_of filename = Some frame.
Proof.
  intros Ha Ho Hu Hw Hf Hrc Ht Hne.
  set (vp := video_path_of filename).
  set (s2 := mkState (<[vp := content]> (<[vp := []]> (fs s))) (logs s) (model s) (processor s)).
  set (s3 := mkState (<[frame_output_of filename := frame]> (fs s2)) (logs s) (model s) (processor s)).
  assert (Hx : extract_first_frame E vp filename s2 =
                 (Raise (HTTPException 500 ("Failed to extract frame from video: " ++ text)), s3)).
  { rewrite extract_first_frame_eq.
    replace (fs s2 !! vp) with (Some content) by (simpl; now rewrite lookup_insert_eq).
    rewrite Hf, Ht. replace (rc =? 0) with false by lia. reflexivity. }
  pose proof (process_try_extract_fails E filename s content _ s3 Ha Ho Hu Hw Hx) as Hpt.
  unfold post_process, process_video. rewrite Hpt. cbn [process_except raise].
  change (video_path_of filename) with vp.
  assert (Hl : local [vp] (cleanup_temp_files E [Some vp; None]))
    by (apply cleanup_local).
  destruct (cleanup_temp_files E [Some vp; None] s3) as [r4 s4] eqn:Hc.
  destruct (Hl _ _ _ Hc) as (_ & _ & F4).
  pose proof (cleanup_never_raises E [Some vp; None] s3) as Hn. rewrite Hc in Hn. simpl in Hn. subst r4.
  simpl. split; [reflexivity|].
  rewrite F4; [simpl; apply lookup_insert_eq|].
  intros [Heq|[]]. exact (Hne (eq_sym Heq)).
Qed.

Lemma failed_extraction_leaves_frame_witness :
  fs (snd (post_process env_partial_frame "clip.mp4" ready_state)) !! "/tmp/frame_clip.mp4.jpg"%string
    = Some jpeg_frame.
Proof.
  apply (proj2 (failed_extraction_leaves_frame env_partial_frame "clip.mp4" ready_state
                  [x00; x00; x00; x18] jpeg_frame 1 "Error while decoding stream #0:0"
                  "Error while decoding stream #0:0"
                  ltac:(vm_compute; reflexivity) eq_refl eq_refl eq_refl eq_refl
                  ltac:(discriminate) ltac:(vm_compute; reflexivity) ltac:(vm_compute; discriminate))).
Defined.

(** An ffmpeg that cannot be started raises an [OSError], which
    [process_video] logs as "Unexpected processing error: ..." and turns
    into the generic 500 "Internal processing error"; the upload is still
    removed when [os.remove] is allowed. *)
Theorem ffmpeg_launch_failure_is_internal_error (E : env) (filename : string) (s : state)
    (content : list byte) (msg : string) :
  accepted (unicode E) filename = true ->
  open_error E (video_path_of filename) = None -> upload_body E = Some content ->
  write_error E = None -> ffmpeg E (Some content) = FFmpegLaunchError msg ->
  fst (post_process E filename s) = JSONDetail 500 "Internal processing error" /\
  In ("Unexpected processing error: " ++ msg)%string (logs (snd (post_process E filename s))) /\
  (remove_error E (video_path_of filename) = None ->
     fs (snd (post_process E filename s)) !! video_path_of filename = None).
Proof.
  intros Ha Ho Hu Hw Hf.
  set (vp := video_path_of filename).
  set (s2 := mkState (<[vp := content]> (<[vp := []]> (fs s))) (logs s) (model s) (processor s)).
  assert (Hx : extract_first_frame E vp filename s2 = (Raise (OSError msg), s2)).
  { rewrite extract_first_frame_eq.
    replace (fs s2 !! vp) with (Some content) by (simpl; now rewrite lookup_insert_eq).
    rewrite Hf. reflexivity. }
  pose proof (process_try_extract_fails E filename s content _ s2 Ha Ho Hu Hw Hx) as Ht.
  set (s3 := mkState (fs s2) (logs s2 ++ ["Unexpected processing error: " ++ msg]%string)
                     (model s2) (processor s2)).
  assert (He : process_except (Raise (OSError msg)) s2 =
                 (Raise (HTTPException 500 "Internal processing error"), s3)) by reflexivity.
  unfold post_process, process_video. rewrite Ht, He.
  change (video_path_of filename) with vp.
  pose proof (cleanup_never_raises E [Some vp; None] s3) as Hn.
  destruct (cleanup_logs E [Some vp; None] s3) as [l Hl].
  pose proof (cleanup_removes E [Some vp; None] s3 vp (or_introl eq_refl)) as Hrm.
  destruct (cleanup_temp_files E [Some vp; None] s3) as [r4 s4]. simpl in Hn, Hl, Hrm |- *. subst r4.
  split; [reflexivity|]. split.
  - cbn [snd]. rewrite Hl. apply in_or_app. left. apply in_or_app. right. now left.
  - exact Hrm.
Qed.

Lemma ffmpeg_launch_failure_is_internal_error_witness :
  fst (post_process env_no_ffmpeg "clip.mp4" ready_state) = JSONDetail 500 "Internal processing error".
Proof.
  apply (proj1 (ffmpeg_launch_failure_is_internal_error env_no_ffmpeg "clip.mp4" ready_state
                  [x00; x00; x00; x18] "[Errno 2] No such file or directory: 'ffmpeg'"
                  ltac:(vm_compute; reflexivity) eq_refl eq_refl eq_refl eq_refl)).
Defined.

(** The startup half of [lifespan]: both globals are set only when both
    loads succeed; a failing model load leaves the processor set and the
    model as it was; the exception is logged and re-raised unchanged. *)
Theorem lifespan_startup_outcome (L : startup_env) (s : state) :
  lifespan_startup L s =
  match load_processor L checkpoint, load_model L checkpoint with
  | inl p, inl m =>
      (Ok tt, mkState (fs s) (logs s ++ ["Loading ViT model..."%string; ("Model " ++ checkpoint ++ " loaded successfully")%string])
                      (Some m) (Some p))
  | inl p, inr msg =>
      (Raise (OtherError msg),
       mkState (fs s) (logs s ++ ["Loading ViT model..."%string; ("Error loading model: " ++ msg)%string]) (model s) (Some p))
  | inr msg, _ =>
      (Raise (OtherError msg),
       mkState (fs s) (logs s ++ ["Loading ViT model..."%string; ("Error loading model: " ++ msg)%string])
               (model s) (processor s))
  end.
Proof.
  unfold lifespan_startup, bind, try_except, log, set_globals, raise, ret. fold checkpoint.
  destruct (load_processor L checkpoint) as [p|msg]; simpl.
  - destruct (load_model L checkpoint) as [m|msg]; simpl; now rewrite <- app_assoc.
  - now rewrite <- app_assoc.
Qed.

(** [cleanup_temp_files( *a, *b)] is [cleanup_temp_files( *a)] followed by
    [cleanup_temp_files( *b)]. *)
Theorem cleanup_temp_files_app (E : env) (ps qs : list (option string)) (s : state) :
  cleanup_temp_files E (ps ++ qs) s =
    (let* _ := cleanup_temp_files E ps in cleanup_temp_files E qs) s.
Proof.
  revert s. induction ps as [|q rest IH]; intros s; [reflexivity|].
  rewrite <- app_comm_cons, (cleanup_cons E q (rest ++ qs)), IH.
  unfold bind. rewrite (cleanup_cons E q rest).
  destruct (cleanup_temp_files E rest _) as [r1 s1] eqn:H1.
  pose proof (cleanup_never_raises E rest (snd (cleanup_temp_files E [q] s))) as Hn.
  rewrite H1 in Hn. simpl in Hn. subst r1. reflexivity.
Qed.

(** Paths that do not exist are skipped without calling [os.remove], so a
    refusing [os.remove] does not matter; only [None] paths are logged. *)
Theorem cleanup_absent_paths (E : env) (ps : list (option string)) (s : state) :
  (forall p, In p (given_paths ps) -> fs s !! p = None) ->
  cleanup_temp_files E ps s =
    (Ok tt, mkState (fs s) (logs s ++ none_warnings ps) (model s) (processor s)).
Proof.
  revert s. induction ps as [|[p|] rest IH]; intros s Ha.
  - destruct s; simpl. now rewrite app_nil_r.
  - cbn [cleanup_temp_files given_paths none_warnings].
    unfold bind at 1, try_except, bind at 1, os_path_exists, ret.
    rewrite bool_decide_eq_false_2 by (rewrite (Ha p (or_introl eq_refl)); apply is_Some_None).
    rewrite IH by (intros q Hq; apply Ha; now right). reflexivity.
  - cbn [cleanup_temp_files given_paths none_warnings].
    unfold bind, try_except, os_path_exists, raise, log. cbn.
    rewrite IH by exact Ha. cbn. rewrite <- app_assoc. reflexivity.
Qed.

Lemma cleanup_absent_paths_witness :
  cleanup_temp_files env_remove_denied [Some "/tmp/clip.mp4"%string; None] ready_state =
    (Ok tt, mkState ∅ [none_warning] (Some checkpoint) (Some checkpoint)).
Proof.
  apply (cleanup_absent_paths env_remove_denied [Some "/tmp/clip.mp4"%string; None] ready_state).
  intros p [<-|[]]. reflexivity.
Defined.

(** The routes of [app]: POST /process runs [process_video] and is the only
    request that changes the service's state; GET /health answers the
    health record; a path with no route (nor slash variant) is a 404, a
    routed path with another method a 405. *)
Theorem serve_routes (E : env) (method path filename : string) (s : state) :
  serve E "POST" "/process" filename s =
    (let '(h, s') := post_process E filename s in (ProcessReply h, s')) /\
  serve E "GET" "/health" filename s = (HealthReply (health_check s), s) /\
  (route_methods path = None -> route_methods (slash_variant path) = None ->
     serve E method path filename s = (RouteError 404 "Not Found", s)) /\
  (forall methods, route_methods path = Some methods -> ~ In method methods ->
     serve E method path filename s = (RouteError 405 "Method Not Allowed", s)) /\
  (path <> "/process"%string -> snd (serve E method path filename s) = s).
Proof.
  split; [reflexivity|]. split; [reflexivity|]. split; [|split].
  - intros H1 H2. unfold serve. rewrite H1, H2. now rewrite andb_false_r.
  - intros ms Hm Hn. unfold serve. rewrite Hm.
    destruct (existsb (String.eqb method) ms) eqn:He; [|reflexivity].
    apply existsb_exists in He as (x & Hx & Heq). apply String.eqb_eq in Heq. subst. contradiction.
  - intros Hp. unfold serve.
    destruct (route_methods path) as [ms|].
    + destruct (existsb _ ms); [|reflexivity].
      destruct (String.eqb_spec path "/process"); [contradiction|].
      destruct (String.eqb path "/health"); reflexivity.
    + destruct (_ && _); reflexivity.
Qed.

(** [redirect_slashes] strips every trailing '/' ([rstrip("/")]). *)
Example serve_health_trailing_slashes :
  serve env_ok "GET" "/health//" "clip.mp4" ready_state = (Redirect "/health", ready_state).
Proof. vm_compute. reflexivity. Qed.

(** ** Base64 and validation *)

Lemma length_string_of_list_ascii (l : list ascii) :
  String.length (string_of_list_ascii l) = length l.
Proof. induction l as [|c l IH]; [reflexivity|]. simpl. now rewrite IH. Qed.

Lemma string_of_list_ascii_app (l1 l2 : list ascii) :
  string_of_list_ascii (l1 ++ l2) = (string_of_list_ascii l1 ++ string_of_list_ascii l2)%string.
Proof. induction l1 as [|c l IH]; [reflexivity|]. simpl. rewrite IH. reflexivity. Qed.

Lemma b64encode_list_length (bs : list byte) :
  length (b64encode_list bs) = (4 * ((length bs + 2) / 3))%nat.
Proof.
  remember (length bs) as n eqn:Hn. revert bs Hn.
  induction n as [n IH] using lt_wf_ind.
  intros [|b0 [|b1 [|b2 rest]]] Hn; subst n; try reflexivity.
  cbn [b64encode_list length]. rewrite (IH (length rest)) by (simpl; lia) || reflexivity.
  replace (S (S (S (length rest))) + 2)%nat with (length rest + 2 + 1 * 3)%nat by lia.
  rewrite Nat.div_add by lia. lia.
Qed.

(** [base64.b64encode] yields four characters for every started group of
    three bytes. *)
Theorem b64encode_length (bs : list byte) :
  String.length (b64encode bs) = (4 * ((length bs + 2) / 3))%nat.
Proof. unfold b64encode. rewrite length_string_of_list_ascii. apply b64encode_list_length. Qed.

Lemma b64encode_list_app (xs ys : list byte) :
  (length xs mod 3 = 0)%nat -> b64encode_list (xs ++ ys) = b64encode_list xs ++ b64encode_list ys.
Proof.
  remember (length xs) as n eqn:Hn. revert xs Hn.
  induction n as [n IH] using lt_wf_ind.
  intros [|b0 [|b1 [|b2 rest]]] Hn Hm; subst n;
    [reflexivity|simpl in Hm; discriminate|simpl in Hm; discriminate|].
  cbn [app b64encode_list]. rewrite (IH (length rest)); [reflexivity|simpl; lia|reflexivity|].
  cbn [length] in Hm.
  replace (S (S (S (length rest)))) with (length rest + 1 * 3)%nat in Hm by lia.
  rewrite Nat.Div0.mod_add in Hm. exact Hm.
Qed.

(** Encoding is a homomorphism on whole groups of three bytes: a byte
    string whose length is a multiple of three encodes independently of
    what follows. *)
Theorem b64encode_app (xs ys : list byte) :
  (length xs mod 3 = 0)%nat -> b64encode (xs ++ ys) = (b64encode xs ++ b64encode ys)%string.
Proof.
  intros H. unfold b64encode. rewrite b64encode_list_app by exact H.
  apply string_of_list_ascii_app.
Qed.

Lemma b64encode_app_witness :
  b64encode ([x4d; x61; x6e] ++ [x4d]) = (b64encode [x4d; x61; x6e] ++ b64encode [x4d])%string.
Proof. apply b64encode_app. reflexivity. Defined.

Lemma sextet_valid (n k : Z) : 0 <= k <= 3 -> b64_index (sextet n k) <> None.
Proof. intros Hk. rewrite sextet_index by exact Hk. discriminate. Qed.

(** The encoding is a run of alphabet characters followed by exactly
    [(3 - n mod 3) mod 3] padding characters '='. *)
Theorem b64encode_shape (bs : list byte) :
  exists body,
    list_ascii_of_string (b64encode bs) = body ++ repeat "="%char ((3 - length bs mod 3) mod 3) /\
    Forall (fun c => b64_index c <> None) body.
Proof.
  unfold b64encode. rewrite list_ascii_of_string_of_list_ascii.
  remember (length bs) as n eqn:Hn. revert bs Hn.
  induction n as [n IH] using lt_wf_ind.
  intros [|b0 [|b1 [|b2 rest]]] Hn; subst n.
  - exists []. split; [reflexivity|constructor].
  - cbn [b64encode_list].
    match goal with |- exists _, [?a; ?b; _; _] = _ /\ _ => exists [a; b] end.
    split; [reflexivity|]. repeat constructor; apply sextet_valid; lia.
  - cbn [b64encode_list].
    match goal with |- exists _, [?a; ?b; ?c; _] = _ /\ _ => exists [a; b; c] end.
    split; [reflexivity|]. repeat constructor; apply sextet_valid; lia.
  - destruct (IH (length rest) ltac:(simpl; lia) rest eq_refl) as (body & Hb & Hf).
    cbn [b64encode_list]. rewrite Hb.
    exists ([sextet (Z.lor (Z.shiftl (bz b0) 16) (Z.lor (Z.shiftl (bz b1) 8) (bz b2))) 0;
             sextet (Z.lor (Z.shiftl (bz b0) 16) (Z.lor (Z.shiftl (bz b1) 8) (bz b2))) 1;
             sextet (Z.lor (Z.shiftl (bz b0) 16) (Z.lor (Z.shiftl (bz b1) 8) (bz b2))) 2;
             sextet (Z.lor (Z.shiftl (bz b0) 16) (Z.lor (Z.shiftl (bz b1) 8) (bz b2))) 3] ++ body).
    split.
    + replace (length (b0 :: b1 :: b2 :: rest) mod 3)%nat with (length rest mod 3)%nat;
        [reflexivity|].
      cbn [length]. replace (S (S (S (length rest)))) with (length rest + 1 * 3)%nat by lia.
      rewrite Nat.Div0.mod_add. reflexivity.
    + apply Forall_app. split; [|exact Hf]. repeat constructor; apply sextet_valid; lia.
Qed.

Lemma rfind_aux_absent (c : ascii) (l : list ascii) (i : nat) (acc : option nat) :
  ~ In c l -> rfind_aux c l i acc = acc.
Proof.
  revert i acc. induction l as [|x t IH]; intros i acc Hn; [reflexivity|]. simpl.
  destruct (Ascii.eqb_spec x c) as [->|Hne]; [exfalso; apply Hn; now left|].
  apply IH. intros Hin. apply Hn. now right.
Qed.

(** A name without any '.' has no extension and is rejected with the 400,
    whatever the upload contains: [str.lower] creates no '.'. *)
Theorem name_without_dot_rejected (U : unicode_db) (order : list string) (filename : string)
    (s : state) :
  ~ In "."%char (list_ascii_of_string filename) ->
  validate_video_file U order filename s = (Raise (HTTPException 400 (invalid_format_detail order)), s).
Proof.
  intros Hn.
  assert (Hd : rfind "."%char (list_ascii_of_string (lower U filename)) = None).
  { unfold rfind. apply rfind_aux_absent. intros H. apply Hn. exact (lower_no_dot U filename H). }
  unfold validate_video_file, splitext. cbv zeta. rewrite Hd. reflexivity.
Qed.

Lemma name_without_dot_rejected_witness :
  validate_video_file plain_unicode valid_extensions "README" ready_state =
    (Raise (HTTPException 400 (invalid_format_detail valid_extensions)), ready_state).
Proof. apply name_without_dot_rejected. not_in_list. Defined.


(** ** scripts/decode_thumbnail.py *)

Lemma try_except_log_ret_ok {A} (body : M A) (f : py_exc -> string) (v : A) (s : state) :
  exists a, fst (try_except body (fun e => let* _ := log (f e) in ret v) s) = Ok a.
Proof. unfold try_except, bind, log, ret. destruct (body s) as [[a|e] s']; simpl; eauto. Qed.

Lemma decode_thumbnail_never_raises (C : client) (json_file output_file : string) (s : state) :
  exists b, fst (DecodeThumbnail.decode_thumbnail C json_file output_file s) = Ok b.
Proof. apply try_except_log_ret_ok. Qed.

(** [decode_thumbnail] never raises.  It returns True only after writing
    the decoded, non-empty [thumbnail_b64] string of the JSON object in
    [json_file] to [output_file]; when it returns False the files are
    unchanged, except when the write itself fails after the open: then
    [output_file] holds the bytes written before the failure. *)
Theorem decode_thumbnail_outcome (C : client) (json_file output_file : string) (s : state) :
  match DecodeThumbnail.decode_thumbnail C json_file output_file s with
  | (Raise _, _) => False
  | (Ok true, s') =>
      exists raw members t data,
        fs s !! json_file = Some raw /\ c_json_load C raw = inl (JObj members) /\
        json_lookup "thumbnail_b64" members = Some (JStr t) /\ t <> ""%string /\
        c_b64decode C t = inl data /\ c_open_error C output_file = None /\
        c_write_error C output_file = None /\ fs s' = <[output_file := data]> (fs s)
  | (Ok false, s') =>
      fs s' = fs s \/
      exists raw members t data n msg,
        fs s !! json_file = Some raw /\ c_json_load C raw = inl (JObj members) /\
        json_lookup "thumbnail_b64" members = Some (JStr t) /\ t <> ""%string /\
        c_b64decode C t = inl data /\ c_open_error C output_file = None /\
        c_write_error C output_file = Some (n, msg) /\
        fs s' = <[output_file := firstn n data]> (fs s)
  end.
Proof.
  unfold DecodeThumbnail.decode_thumbnail, json_get, b64decode_value, client_write,
    client_open_wb, client_put, client_read, open_read, try_except, bind, ret, raise, log, set_fs.
  destruct (fs s !! json_file) as [raw|] eqn:Hr; cbn [fs]; [|auto].
  destruct (c_json_load C raw) as [data|msg] eqn:Hj; [|cbn [fs]; auto].
  destruct data as [| | | | |items|members]; cbn [fs]; auto.
  destruct (json_lookup "thumbnail_b64" members) as [v|] eqn:Hl; cbn [truthy negb]; cbn [fs]; auto.
  destruct (truthy v) eqn:Ht; cbn [negb]; cbn [fs]; auto.
  destruct v as [| | | |t| |]; cbn [fs]; auto.
  destruct (c_b64decode C t) as [data|msg] eqn:Hd; cbn [fs]; auto.
  destruct (c_open_error C output_file) eqn:Ho; cbn [fs]; auto.
  destruct (c_write_error C output_file) as [[n msg]|] eqn:Hw; cbn [fs].
  - right. exists raw, members, t, data, n, msg. repeat split; auto.
    + intros ->. discriminate Ht.
    + apply insert_insert_eq.
  - exists raw, members, t, data. repeat split; auto.
    + intros ->. discriminate Ht.
    + apply insert_insert_eq.
Qed.

Lemma b64encode_nonempty (b : byte) (rest : list byte) : b64encode (b :: rest) <> ""%string.
Proof. unfold b64encode. destruct rest as [|? [|? ?]]; simpl; discriminate. Qed.

(** End to end: a JSON file holding a successful [/process] response
    decodes to the bytes of the frame the server classified.  An empty
    frame gives an empty [thumbnail_b64], which the script reports as
    missing and writes nothing. *)
Theorem decode_thumbnail_of_response (C : client) (json_file output_file : string) (s : state)
    (E : env) (filename : string) (srv : state) (b : response_body) (raw : list byte) :
  (forall bs, c_b64decode C (b64encode bs) = inl bs) ->
  fst (process_video E filename srv) = Ok b ->
  fs s !! json_file = Some raw -> c_json_load C raw = inl (response_json b) ->
  c_open_error C output_file = None -> c_write_error C output_file = None ->
  exists frame,
    classifier E frame = inl (out_labels b) /\ thumbnail_b64 b = b64encode frame /\
    (frame = [] ->
       DecodeThumbnail.decode_thumbnail C json_file output_file s =
         (Ok false, mkState (fs s) (logs s ++ ["No thumbnail_b64 found in JSON response"%string])
                            (model s) (processor s))) /\
    (frame <> [] ->
       DecodeThumbnail.decode_thumbnail C json_file output_file s =
         (Ok true, mkState (<[output_file := frame]> (fs s))
                           (logs s ++ [("Thumbnail saved as: " ++ output_file)%string;
                                       ("Size: " ++ pretty (length frame) ++ " bytes")%string])
                           (model s) (processor s))).
Proof.
  intros Hdec Hpv Hr Hj Ho Hw.
  destruct (process_try E filename srv) as [[[r vp] fp] s1] eqn:Ht.
  pose proof (process_video_outcome _ _ _ _ _ _ _ Ht) as Hout. rewrite Hpv in Hout.
  destruct r as [b'|e].
  2:{ exfalso. destruct e; simpl in Hout; discriminate. }
  simpl in Hout. inversion Hout; subst b'.
  destruct (process_try_ok_labels _ _ _ _ _ _ _ Ht) as (_ & _ & frame & Hc & Hb).
  exists frame. split; [exact Hc|]. split; [exact Hb|].
  unfold DecodeThumbnail.decode_thumbnail, json_get, b64decode_value, client_write,
    client_open_wb, client_put, client_read, open_read, try_except, bind, ret, log, set_fs.
  rewrite Hr. cbv beta iota. rewrite Hj. unfold response_json. cbn [json_lookup].
  rewrite String.eqb_refl. simpl (String.eqb "thumbnail_b64" "labels").
  rewrite Hb. split.
  - intros ->. reflexivity.
  - intros Hne. destruct frame as [|x rest]; [congruence|].
    cbn [truthy]. destruct (String.eqb_spec (b64encode (x :: rest)) "") as [He|_];
      [exfalso; exact (b64encode_nonempty x rest He)|].
    cbn [negb]. rewrite Hdec, Ho, Hw. cbn [fs logs model processor].
    rewrite insert_insert_eq, <- app_assoc. reflexivity.
Qed.

Lemma decode_thumbnail_of_response_witness :
  exists frame, thumbnail_b64 (mkBody top3 (b64encode jpeg_frame)) = b64encode frame.
Proof.
  destruct (decode_thumbnail_of_response
              (client_of_app env_ok ready_state (response_json (mkBody top3 (b64encode jpeg_frame))))
              "response.json" "thumbnail.jpg" (client_state {["response.json"%string := []]})
              env_ok "clip.mp4" ready_state (mkBody top3 (b64encode jpeg_frame)) []
              ltac:(intros bs; cbn [c_b64decode client_of_app]; rewrite b64decode_encode; reflexivity)
              ltac:(vm_compute; reflexivity) ltac:(vm_compute; reflexivity)
              eq_refl eq_refl eq_refl) as (frame & _ & Hf & _).
  exists frame. exact Hf.
Defined.

(** A missing JSON file is reported with the [FileNotFoundError] text (the
    [repr] of the name) and yields False, with no file touched. *)
Theorem decode_thumbnail_missing_json (C : client) (json_file output_file : string) (s : state) :
  fs s !! json_file = None ->
  DecodeThumbnail.decode_thumbnail C json_file output_file s =
    (Ok false, mkState (fs s)
                 (logs s ++ [("Error decoding thumbnail: [Errno 2] No such file or directory: "
                              ++ py_repr (c_unicode C) json_file)%string]) (model s) (processor s)).
Proof.
  intros Hn. unfold DecodeThumbnail.decode_thumbnail, try_except, bind, client_read, open_read.
  rewrite Hn. reflexivity.
Qed.

Lemma decode_thumbnail_missing_json_witness :
  DecodeThumbnail.decode_thumbnail (client_of_app env_ok ready_state JNull) "response.json"
    "thumbnail.jpg" (client_state ∅) =
    (Ok false, mkState ∅ ([] ++ [("Error decoding thumbnail: [Errno 2] No such file or directory: "
                                  ++ py_repr plain_unicode "response.json")%string]) None None).
Proof.
  apply (decode_thumbnail_missing_json (client_of_app env_ok ready_state JNull) "response.json"
           "thumbnail.jpg" (client_state ∅)).
  vm_compute. reflexivity.
Defined.

(** [main] never raises.  With fewer than two arguments it prints the usage
    and touches nothing; otherwise it decodes the second argument into the
    third, or into "thumbnail.jpg" when there is none. *)
Theorem decode_main_outcome (C : client) (argv : list string) (s : state) :
  fst (DecodeThumbnail.main C argv s) = Ok tt /\
  ((length argv < 2)%nat ->
     DecodeThumbnail.main C argv s =
       (Ok tt, mkState (fs s) (logs s ++ [DecodeThumbnail.usage; DecodeThumbnail.example])
                       (model s) (processor s))) /\
  (forall prog json_file,
     snd (DecodeThumbnail.main C [prog; json_file] s) =
     snd (DecodeThumbnail.decode_thumbnail C json_file "thumbnail.jpg" s)) /\
  (forall prog json_file output_file rest,
     snd (DecodeThumbnail.main C (prog :: json_file :: output_file :: rest) s) =
     snd (DecodeThumbnail.decode_thumbnail C json_file output_file s)).
Proof.
  split; [|split; [|split]].
  - destruct argv as [|p [|j rest]]; try reflexivity.
    unfold DecodeThumbnail.main, bind, ret.
    destruct (decode_thumbnail_never_raises C j
                (match rest with o :: _ => o | [] => "thumbnail.jpg"%string end) s) as [b Hb].
    destruct (DecodeThumbnail.decode_thumbnail _ _ _ s) as [r s']. simpl in Hb. now subst r.
  - intros Hl. destruct argv as [|p [|j rest]]; [| |simpl in Hl; lia];
      unfold DecodeThumbnail.main, bind, log; cbn [fs logs model processor];
      now rewrite <- app_assoc.
  - intros p j. unfold DecodeThumbnail.main, bind, ret.
    destruct (decode_thumbnail_never_raises C j "thumbnail.jpg" s) as [b Hb].
    destruct (DecodeThumbnail.decode_thumbnail _ _ _ s) as [r s']. simpl in Hb. now subst r.
  - intros p j o rest. unfold DecodeThumbnail.main, bind, ret.
    destruct (decode_thumbnail_never_raises C j o s) as [b Hb].
    destruct (DecodeThumbnail.decode_thumbnail _ _ _ s) as [r s']. simpl in Hb. now subst r.
Qed.

(** ** scripts/test_vidisnap.py *)

Lemma serve_analyze (E : env) (method filename : string) (srv : state) :
  serve E method "/analyze" filename srv = (RouteError 404 "Not Found", srv).
Proof. reflexivity. Qed.

(** Against [app], the invalid-file test always fails: its POST goes to
    "/analyze", which has no route and no slash variant, so it gets a 404
    instead of the expected 400.  The dummy file is still removed. *)
Theorem invalid_file_test_fails_against_app (C : client) (E : env) (srv s : state) :
  (forall m p f, c_send C m p f = Some (fst (serve E m p f srv))) ->
  c_open_error C VidiSnapTester.dummy_file = None ->
  c_write_error C VidiSnapTester.dummy_file = None ->
  c_remove_error C VidiSnapTester.dummy_file = None ->
  VidiSnapTester.test_invalid_file C s =
    (Ok false, mkState (delete VidiSnapTester.dummy_file (fs s)) (logs s) (model s) (processor s)).
Proof.
  intros Hsend Ho Hw Hr.
  unfold VidiSnapTester.test_invalid_file, client_write, client_open_wb, client_put,
    client_remove, client_read, open_read, os_path_exists, try_except, bind, set_fs, ret.
  rewrite Ho, Hw. cbn [fs logs model processor]. rewrite lookup_insert_eq.
  rewrite Hsend, serve_analyze. cbn [fst reply_status fs logs model processor].
  rewrite bool_decide_eq_true_2 by (rewrite lookup_insert_eq; eauto).
  rewrite Hr. cbn [fs logs model processor].
  rewrite delete_insert_eq, delete_insert_eq. reflexivity.
Qed.

Lemma invalid_file_test_fails_against_app_witness :
  VidiSnapTester.test_invalid_file (client_of_app env_ok ready_state JNull) (client_state ∅) =
    (Ok false, mkState (delete VidiSnapTester.dummy_file ∅) [] None None).
Proof.
  apply (invalid_file_test_fails_against_app _ env_ok ready_state (client_state ∅));
    reflexivity.
Defined.

(** Against [app], a video test never passes: an existing video is
    recorded as failed (the 404 of "/analyze"), a missing one is skipped
    with no record; no file is written. *)
Theorem video_test_fails_against_app (C : client) (E : env) (srv s : state) (video_path : string)
    (test_results : list VidiSnapTester.test_record) :
  (forall m p f, c_send C m p f = Some (fst (serve E m p f srv))) ->
  VidiSnapTester.test_video_processing C video_path test_results s =
    (Ok (false, match fs s !! video_path with
                | Some _ => test_results ++ [VidiSnapTester.Failed video_path]
                | None => test_results
                end), s).
Proof.
  intros Hsend.
  unfold VidiSnapTester.test_video_processing, os_path_exists, try_except, bind,
    client_read, open_read, ret.
  destruct (fs s !! video_path) eqn:Hv.
  - rewrite bool_decide_eq_true_2 by eauto. cbn [negb]. rewrite Hv.
    rewrite Hsend, serve_analyze. reflexivity.
  - rewrite bool_decide_eq_false_2 by (rewrite is_Some_alt; auto). reflexivity.
Qed.

Lemma video_test_fails_against_app_witness :
  VidiSnapTester.test_video_processing (client_of_app env_ok ready_state JNull) "clip.mp4" []
    (client_state {["clip.mp4"%string := [x00]]}) =
    (Ok (false, [VidiSnapTester.Failed "clip.mp4"]), client_state {["clip.mp4"%string := [x00]]}).
Proof.
  rewrite (video_test_fails_against_app (client_of_app env_ok ready_state JNull) env_ok ready_state
             (client_state {["clip.mp4"%string := [x00]]}) "clip.mp4" [] (fun m p f => eq_refl)).
  vm_compute. reflexivity.
Defined.
Lemma count_label_fst (n : string) (acc : list (string * nat)) (l : string) :
  In l (map fst (VidiSnapTester.count_label n acc)) <-> l = n \/ In l (map fst acc).
Proof.
  induction acc as [|[k c] rest IH]; simpl.
  - naive_solver.
  - destruct (String.eqb_spec k n) as [->|Hne]; simpl.
    + naive_solver.
    + rewrite IH. naive_solver.
Qed.

Lemma count_label_nodup (n : string) (acc : list (string * nat)) :
  List.NoDup (map fst acc) -> List.NoDup (map fst (VidiSnapTester.count_label n acc)).
Proof.
  induction acc as [|[k c] rest IH]; simpl; intros Hn.
  - constructor; [intros []|constructor].
  - inversion Hn as [|? ? Hk Hr]; subst.
    destruct (String.eqb_spec k n) as [->|Hne]; simpl.
    + constructor; auto.
    + constructor; [rewrite count_label_fst; naive_solver|auto].
Qed.

Lemma count_label_spec (n : string) (acc : list (string * nat)) (g : string -> nat) :
  List.NoDup (map fst acc) -> (forall l c, In (l, c) acc -> c = g l) ->
  (~ In n (map fst acc) -> g n = 0%nat) ->
  forall l c, In (l, c) (VidiSnapTester.count_label n acc) ->
              c = if string_dec n l then S (g l) else g l.
Proof.
  induction acc as [|[k c0] rest IH]; simpl; intros Hn Hc Hz l c Hin.
  - destruct Hin as [[= <- <-]|[]].
    destruct (string_dec n n); [|congruence]. rewrite Hz by (intros []). reflexivity.
  - inversion Hn as [|? ? Hk Hr]; subst.
    destruct (String.eqb_spec k n) as [->|Hne].
    + destruct Hin as [[= <- <-]|Hin].
      * destruct (string_dec n n); [|congruence]. f_equal. apply Hc. now left.
      * destruct (string_dec n l) as [->|_].
        -- exfalso. apply Hk. exact (in_map fst _ (l, c) Hin).
        -- apply Hc. now right.
    + destruct Hin as [[= <- <-]|Hin].
      * destruct (string_dec n k) as [->|_]; [congruence|]. apply Hc. now left.
      * apply (IH Hr); [| |exact Hin].
        -- intros l' c' H'. apply Hc. now right.
        -- intros Hni. apply Hz. intros [Heq|H']; [congruence|contradiction].
Qed.

Lemma tally_step (acc : list (string * nat)) (seen : list string) (n : string) :
  List.NoDup (map fst acc) /\ (forall l, In l (map fst acc) <-> In l seen) /\
  (forall l c, In (l, c) acc -> c = count_occ string_dec seen l) ->
  List.NoDup (map fst (VidiSnapTester.count_label n acc)) /\
  (forall l, In l (map fst (VidiSnapTester.count_label n acc)) <-> In l (seen ++ [n])) /\
  (forall l c, In (l, c) (VidiSnapTester.count_label n acc) ->
               c = count_occ string_dec (seen ++ [n]) l).
Proof.
  intros (Hn & Hm & Hc). split; [|split].
  - now apply count_label_nodup.
  - intros l. rewrite count_label_fst, Hm, in_app_iff. simpl. naive_solver.
  - intros l c Hin.
    pose proof (count_label_spec n acc (count_occ string_dec seen) Hn Hc) as Hs.
    rewrite (Hs ltac:(intros Hni; apply count_occ_not_In; rewrite <- Hm; exact Hni) l c Hin).
    rewrite count_occ_app. simpl. destruct (string_dec n l); lia.
Qed.

Lemma tally_fold (labels : list string) (acc : list (string * nat)) (seen : list string) :
  List.NoDup (map fst acc) /\ (forall l, In l (map fst acc) <-> In l seen) /\
  (forall l c, In (l, c) acc -> c = count_occ string_dec seen l) ->
  let acc' := fold_left (fun acc name => VidiSnapTester.count_label name acc) labels acc in
  List.NoDup (map fst acc') /\ (forall l, In l (map fst acc') <-> In l (seen ++ labels)) /\
  (forall l c, In (l, c) acc' -> c = count_occ string_dec (seen ++ labels) l).
Proof.
  revert acc seen. induction labels as [|n t IH]; intros acc seen H; simpl.
  - now rewrite app_nil_r.
  - replace (seen ++ n :: t) with ((seen ++ [n]) ++ t) by (now rewrite <- app_assoc).
    apply IH. now apply tally_step.
Qed.

Lemma insert_by_count_perm (x : string * nat) (l : list (string * nat)) :
  Permutation (VidiSnapTester.insert_by_count x l) (x :: l).
Proof.
  induction l as [|y t IH]; simpl; [reflexivity|].
  destruct (snd y <=? snd x)%nat; [reflexivity|].
  eapply perm_trans; [apply perm_skip, IH|apply perm_swap].
Qed.

Lemma sort_by_count_perm (l : list (string * nat)) :
  Permutation (VidiSnapTester.sort_by_count l) l.
Proof.
  unfold VidiSnapTester.sort_by_count.
  induction l as [|x t IH]; simpl; [reflexivity|].
  eapply perm_trans; [apply insert_by_count_perm|]. now apply perm_skip.
Qed.

Lemma insert_by_count_hdrel (y x : string * nat) (l : list (string * nat)) :
  (snd x <= snd y)%nat ->
  HdRel (fun a b : string * nat => (snd b <= snd a)%nat) y l ->
  HdRel (fun a b : string * nat => (snd b <= snd a)%nat) y (VidiSnapTester.insert_by_count x l).
Proof.
  intros Hxy Hh. destruct l as [|z t]; simpl.
  - constructor. exact Hxy.
  - destruct (snd z <=? snd x)%nat; constructor; [exact Hxy|]. inversion Hh; subst; assumption.
Qed.

Lemma insert_by_count_sorted (x : string * nat) (l : list (string * nat)) :
  Sorted (fun a b : string * nat => (snd b <= snd a)%nat) l ->
  Sorted (fun a b : string * nat => (snd b <= snd a)%nat) (VidiSnapTester.insert_by_count x l).
Proof.
  induction l as [|y t IH]; simpl; intros Hs.
  - repeat constructor.
  - destruct (Nat.leb_spec (snd y) (snd x)) as [Hle|Hgt].
    + constructor; [exact Hs|constructor; exact Hle].
    + inversion Hs as [|? ? Ht Hh]; subst.
      constructor; [now apply IH|]. apply insert_by_count_hdrel; [lia|exact Hh].
Qed.

Lemma sort_by_count_sorted (l : list (string * nat)) :
  Sorted (fun a b : string * nat => (snd b <= snd a)%nat) (VidiSnapTester.sort_by_count l).
Proof.
  unfold VidiSnapTester.sort_by_count.
  induction l as [|x t IH]; simpl; [constructor|]. now apply insert_by_count_sorted.
Qed.

(** The label summary of [print_summary] lists each label of the
    successful tests exactly once, with the number of times it occurs
    among them, by decreasing count. *)
Theorem summary_labels_tally (test_results : list VidiSnapTester.test_record) :
  List.NoDup (map fst (VidiSnapTester.summary_labels test_results)) /\
  (forall l, In l (map fst (VidiSnapTester.summary_labels test_results)) <->
             In l (VidiSnapTester.all_labels test_results)) /\
  (forall l c, In (l, c) (VidiSnapTester.summary_labels test_results) ->
               c = count_occ string_dec (VidiSnapTester.all_labels test_results) l) /\
  Sorted (fun a b : string * nat => (snd b <= snd a)%nat)
         (VidiSnapTester.summary_labels test_results).
Proof.
  unfold VidiSnapTester.summary_labels.
  set (labels := VidiSnapTester.all_labels test_results).
  destruct (tally_fold labels [] [] ltac:(split; [constructor|split; [intros l; simpl; tauto|intros ? ? []]]))
    as (Hn & Hm & Hc).
  change (fold_left _ labels []) with (VidiSnapTester.label_counts labels) in Hn, Hm, Hc.
  simpl in Hm, Hc.
  pose proof (sort_by_count_perm (VidiSnapTester.label_counts labels)) as Hp.
  split; [|split; [|split]].
  - eapply Permutation_NoDup; [symmetry; apply Permutation_map, Hp|exact Hn].
  - intros l. rewrite <- Hm. split; intros H.
    + eapply Permutation_in; [apply Permutation_map, Hp|exact H].
    + eapply Permutation_in; [symmetry; apply Permutation_map, Hp|exact H].
  - intros l c H. apply Hc. eapply Permutation_in; [exact Hp|exact H].
  - apply sort_by_count_sorted.
Qed.


(** ** scripts/download_sample_videos.py *)

Lemma write_chunks_frame (f : string) (failure : option (nat * nat * string))
    (chunks : list (list byte)) :
  writes_only f (DownloadSampleVideos.write_chunks f failure chunks).
Proof.
  revert failure. induction chunks as [|c rest IH]; intros failure s r s' H.
  - cbn in H. inversion H; subst. auto.
  - cbn [DownloadSampleVideos.write_chunks] in H.
    destruct failure as [[[[|k] n] msg]|].
    + unfold bind, set_fs, raise in H. inversion H; subst. cbn [fs logs model processor].
      repeat split; auto. intros x Hx. apply lookup_insert_ne. congruence.
    + unfold bind, set_fs in H. apply IH in H. cbn [fs logs model processor] in H.
      destruct H as (H1 & H2 & H3 & H4). repeat split; auto.
      intros x Hx. rewrite H4 by exact Hx. apply lookup_insert_ne. congruence.
    + unfold bind, set_fs in H. apply IH in H. cbn [fs logs model processor] in H.
      destruct H as (H1 & H2 & H3 & H4). repeat split; auto.
      intros x Hx. rewrite H4 by exact Hx. apply lookup_insert_ne. congruence.
Qed.

Lemma close_file_frame (f : string) (failure : option (nat * nat * string)) (writes : nat) :
  writes_only f (DownloadSampleVideos.close_file f failure writes).
Proof.
  intros s r s' H. unfold DownloadSampleVideos.close_file in H.
  destruct failure as [[[k n] msg]|]; [|inversion H; subst; auto].
  destruct (writes <=? k)%nat; [|inversion H; subst; auto].
  unfold bind, set_fs, raise in H. inversion H; subst. cbn [fs logs model processor].
  repeat split; auto. intros x Hx. apply lookup_insert_ne. congruence.
Qed.

Lemma with_file_frame (f : string) (body close : M unit) :
  writes_only f body -> writes_only f close -> writes_only f (DownloadSampleVideos.with_file body close).
Proof.
  intros Hb Hc s r s' H. unfold DownloadSampleVideos.with_file in H.
  destruct (body s) as [r1 s1] eqn:H1. destruct (Hb _ _ _ H1) as (L1 & M1 & P1 & F1).
  destruct (close s1) as [[u|e] s2] eqn:H2; destruct (Hc _ _ _ H2) as (L2 & M2 & P2 & F2);
    inversion H; subst; repeat split; try congruence;
    intros x Hx; rewrite F2, F1 by exact Hx; reflexivity.
Qed.

Lemma stream_body_frame (f : string) (failure : option (nat * nat * string))
    (chunks : list (list byte)) (stream_error : option string) :
  writes_only f (let* _ := DownloadSampleVideos.write_chunks f failure chunks in
                 match stream_error with
                 | Some msg => raise (OtherError msg)
                 | None => ret tt
                 end).
Proof.
  intros s r s' H. unfold bind in H.
  destruct (DownloadSampleVideos.write_chunks f failure chunks s) as [[u|e] s1] eqn:H1;
    destruct (write_chunks_frame f failure chunks _ _ _ H1) as (L1 & M1 & P1 & F1).
  - destruct stream_error; inversion H; subst; auto.
  - inversion H; subst; auto.
Qed.

Lemma write_chunks_spec (f : string) (chunks : list (list byte)) (s : state) (b : list byte) :
  fs s !! f = Some b ->
  DownloadSampleVideos.write_chunks f None chunks s =
    (Ok tt, mkState (<[f := b ++ concat chunks]> (fs s)) (logs s) (model s) (processor s)).
Proof.
  revert s b. induction chunks as [|c rest IH]; intros s b Hf.
  - cbn [DownloadSampleVideos.write_chunks ret concat]. rewrite app_nil_r, insert_id by exact Hf.
    destruct s; reflexivity.
  - cbn [DownloadSampleVideos.write_chunks]. unfold bind, set_fs.
    cbn [fs logs model processor]. rewrite Hf. cbn [default].
    rewrite (IH (mkState (<[f:=b ++ c]> (fs s)) (logs s) (model s) (processor s)) (b ++ c)
                (lookup_insert_eq _ _ _)).
    cbn [fs logs model processor concat]. rewrite insert_insert_eq, <- app_assoc. reflexivity.
Qed.

(** [download_one] on a fresh file whose request succeeded and whose
    [open] succeeded. *)
Lemma download_one_open (D : DownloadSampleVideos.downloader) (f u : string) (s : state)
    (chunks : list (list byte)) (err : option string) :
  fs s !! f = None -> DownloadSampleVideos.fetch D u = DownloadSampleVideos.FetchBody chunks err ->
  DownloadSampleVideos.d_open_error D f = None ->
  DownloadSampleVideos.download_one D f u s =
    match DownloadSampleVideos.with_file
            (let* _ := DownloadSampleVideos.write_chunks f (DownloadSampleVideos.d_write_error D f) chunks in
             match err with
             | Some msg => raise (OtherError msg)
             | None => ret tt
             end)
            (DownloadSampleVideos.close_file f (DownloadSampleVideos.d_write_error D f) (length chunks))
            (mkState (<[f := []]> (fs s)) (logs s ++ [("Downloading " ++ f ++ " from " ++ u ++ "...")%string])
                     (model s) (processor s)) with
    | (Ok _, s2) => (Ok tt, mkState (fs s2) (logs s2 ++ [("Downloaded " ++ f)%string]) (model s2) (processor s2))
    | (Raise e, s2) =>
        (Ok tt, mkState (fs s2) (logs s2 ++ [("Failed to download " ++ f ++ ": " ++ exc_str e)%string])
                        (model s2) (processor s2))
    end.
Proof.
  intros Hf Hfe Ho.
  unfold DownloadSampleVideos.download_one, os_path_exists.
  unfold bind at 1. cbv beta iota.
  rewrite bool_decide_eq_false_2 by (rewrite Hf; apply is_Some_None).
  unfold bind at 1, log at 1. cbv beta iota. cbn [fs logs model processor].
  unfold try_except. rewrite Hfe, Ho. cbv zeta.
  unfold bind at 1, set_fs at 1. cbv beta iota. cbn [fs logs model processor].
  unfold bind at 1.
  destruct (DownloadSampleVideos.with_file _ _ _) as [[[]|e] s2]; reflexivity.
Qed.

Lemma download_one_spec (D : DownloadSampleVideos.downloader) (f u : string) (s : state) :
  let '(r, s') := DownloadSampleVideos.download_one D f u s in
  r = Ok tt /\ model s' = model s /\ processor s' = processor s /\
  (exists extra, logs s' = logs s ++ extra) /\
  (forall k, k <> f -> fs s' !! k = fs s !! k) /\
  (is_Some (fs s !! f) -> fs s' = fs s /\ logs s' = logs s ++ [(f ++ " already exists")%string]) /\
  (forall chunks err, fs s !! f = None ->
     DownloadSampleVideos.fetch D u = DownloadSampleVideos.FetchBody chunks err ->
     DownloadSampleVideos.d_open_error D f = None ->
     DownloadSampleVideos.d_write_error D f = None ->
     fs s' !! f = Some (concat chunks) /\
     logs s' = logs s ++ [("Downloading " ++ f ++ " from " ++ u ++ "...")%string;
                          match err with
                          | Some msg => ("Failed to download " ++ f ++ ": " ++ msg)%string
                          | None => ("Downloaded " ++ f)%string
                          end]).
Proof.
  destruct (fs s !! f) as [b|] eqn:Hf.
  { unfold DownloadSampleVideos.download_one, os_path_exists, bind, log.
    rewrite bool_decide_eq_true_2 by (rewrite Hf; eauto). cbn [fs logs model processor].
    repeat split; eauto; intros; congruence. }
  destruct (DownloadSampleVideos.fetch D u) as [msg|chunks err] eqn:Hfe.
  { unfold DownloadSampleVideos.download_one, os_path_exists, try_except, bind, log, raise.
    rewrite bool_decide_eq_false_2 by (rewrite Hf; apply is_Some_None). rewrite Hfe.
    cbn [fs logs model processor exc_str].
    split; [reflexivity|]. split; [reflexivity|]. split; [reflexivity|].
    split; [eexists; rewrite <- app_assoc; reflexivity|]. split; [reflexivity|].
    split; [intros [? H]; discriminate|]. intros ? ? _ H; discriminate. }
  destruct (DownloadSampleVideos.d_open_error D f) as [msg|] eqn:Ho.
  { unfold DownloadSampleVideos.download_one, os_path_exists, try_except, bind, log, raise.
    rewrite bool_decide_eq_false_2 by (rewrite Hf; apply is_Some_None). rewrite Hfe, Ho.
    cbn [fs logs model processor exc_str].
    split; [reflexivity|]. split; [reflexivity|]. split; [reflexivity|].
    split; [eexists; rewrite <- app_assoc; reflexivity|]. split; [reflexivity|].
    split; [intros [? H]; discriminate|]. intros ? ? _ _ H; congruence. }
  rewrite (download_one_open D f u s chunks err Hf Hfe Ho).
  set (s1 := mkState (<[f := []]> (fs s)) (logs s ++ [("Downloading " ++ f ++ " from " ++ u ++ "...")%string])
                     (model s) (processor s)).
  pose proof (with_file_frame f _ _
                (stream_body_frame f (DownloadSampleVideos.d_write_error D f) chunks err)
                (close_file_frame f (DownloadSampleVideos.d_write_error D f) (length chunks))) as Hwf.
  destruct (DownloadSampleVideos.with_file _ _ s1) as [r2 s2] eqn:Hw.
  destruct (Hwf _ _ _ Hw) as (L2 & M2 & P2 & F2). cbn [s1 fs logs model processor] in L2, M2, P2, F2.
  assert (Hk : forall k, k <> f -> fs s2 !! k = fs s !! k)
    by (intros k Hk; rewrite F2 by exact Hk; apply lookup_insert_ne; congruence).
  assert (Hsucc : DownloadSampleVideos.d_write_error D f = None ->
                  r2 = match err with Some msg => Raise (OtherError msg) | None => Ok tt end /\
                  fs s2 !! f = Some (concat chunks)).
  { intros Hwe. revert Hw. unfold DownloadSampleVideos.with_file. rewrite Hwe.
    unfold bind at 1. rewrite (write_chunks_spec f chunks s1 [] (lookup_insert_eq _ _ _)).
    unfold DownloadSampleVideos.close_file.
    destruct err as [msg|]; unfold raise, ret; intros H; inversion H; subst;
      (split; [reflexivity|]); cbn [s1 fs]; apply lookup_insert_eq. }
  destruct r2 as [[]|e]; cbn [fs logs model processor];
    (split; [reflexivity|]); (split; [congruence|]); (split; [congruence|]);
    (split; [eexists; rewrite L2, <- !app_assoc; reflexivity|]);
    (split; [exact Hk|]);
    (split; [intros [? H]; discriminate|]);
    intros chunks' err' _ Hfe' _ Hwe; injection Hfe' as <- <-;
    destruct (Hsucc Hwe) as [Hr Hc]; (split; [exact Hc|]);
    destruct err as [msg|]; try discriminate; rewrite L2, <- !app_assoc;
    try (injection Hr as Hr; subst e); reflexivity.
Qed.

Lemma download_all_spec (D : DownloadSampleVideos.downloader) (items : list (string * string)) (s : state) :
  let '(r, s') := DownloadSampleVideos.download_all D items s in
  r = Ok tt /\ model s' = model s /\ processor s' = processor s /\
  (exists extra, logs s' = logs s ++ extra) /\
  (forall k, ~ In k (map fst items) -> fs s' !! k = fs s !! k) /\
  (forall k, is_Some (fs s !! k) -> fs s' !! k = fs s !! k).
Proof.
  revert s. induction items as [|[f u] rest IH]; intros s.
  - cbn [DownloadSampleVideos.download_all ret]. repeat split; auto.
    exists []. now rewrite app_nil_r.
  - cbn [DownloadSampleVideos.download_all]. unfold bind at 1.
    pose proof (download_one_spec D f u s) as H1.
    destruct (DownloadSampleVideos.download_one D f u s) as [r1 s1].
    destruct H1 as (-> & M1 & P1 & [e1 L1] & K1 & X1 & _).
    pose proof (IH s1) as H2.
    destruct (DownloadSampleVideos.download_all D rest s1) as [r2 s2].
    destruct H2 as (-> & M2 & P2 & [e2 L2] & K2 & X2).
    split; [reflexivity|]. split; [congruence|]. split; [congruence|].
    split; [exists (e1 ++ e2); rewrite L2, L1, app_assoc; reflexivity|]. split.
    + intros k Hk. simpl in Hk. rewrite K2 by tauto. apply K1. intros ->. apply Hk. now left.
    + intros k Hs. destruct (string_dec k f) as [->|Hne].
      * destruct (X1 Hs) as [Hf _]. rewrite X2; [|rewrite Hf; exact Hs]. now rewrite Hf.
      * rewrite X2; rewrite K1 by exact Hne; [reflexivity|exact Hs].
Qed.

Lemma download_all_item (D : DownloadSampleVideos.downloader) (items : list (string * string))
    (s : state) (f u : string) :
  List.NoDup (map fst items) -> In (f, u) items ->
  exists s0, fs s0 !! f = fs s !! f /\
    fs (snd (DownloadSampleVideos.download_all D items s)) !! f =
      fs (snd (DownloadSampleVideos.download_one D f u s0)) !! f /\
    exists post, logs (snd (DownloadSampleVideos.download_all D items s)) =
                 logs (snd (DownloadSampleVideos.download_one D f u s0)) ++ post.
Proof.
  revert s. induction items as [|[f' u'] rest IH]; intros s Hnd Hin; [destruct Hin|].
  inversion Hnd as [|? ? Hn' Hr]; subst.
  pose proof (download_one_spec D f' u' s) as H1.
  destruct (DownloadSampleVideos.download_one D f' u' s) as [r1 s1] eqn:E1.
  destruct H1 as (-> & _ & _ & _ & K1 & _).
  assert (Hstep : DownloadSampleVideos.download_all D ((f', u') :: rest) s =
                  DownloadSampleVideos.download_all D rest s1)
    by (cbn [DownloadSampleVideos.download_all]; unfold bind; rewrite E1; reflexivity).
  rewrite Hstep.
  destruct Hin as [[= -> ->]|Hin].
  - exists s. split; [reflexivity|]. rewrite E1. cbn [snd].
    pose proof (download_all_spec D rest s1) as H2.
    destruct (DownloadSampleVideos.download_all D rest s1) as [r2 s2].
    destruct H2 as (_ & _ & _ & [post Hp] & Hk & _). cbn [snd].
    split; [apply Hk; exact Hn'|]. exists post. exact Hp.
  - assert (Hne : f <> f') by (intros ->; apply Hn'; exact (in_map fst _ (f', u) Hin)).
    destruct (IH s1 Hr Hin) as (s0 & H0 & H1 & H2). exists s0.
    split; [rewrite H0; apply K1; exact Hne|]. split; assumption.
Qed.

Lemma sample_videos_nodup : List.NoDup (map fst DownloadSampleVideos.sample_videos).
Proof.
  repeat constructor; simpl; intros H; repeat destruct H as [H|H]; try discriminate; contradiction.
Qed.

(** [download_sample_videos] never raises and touches only the three
    sample files; a file already present is left as it is, and a sample
    whose download and writes all succeed holds exactly the concatenated
    chunks. *)
Theorem download_sample_videos_outcome (D : DownloadSampleVideos.downloader) (s : state) :
  let '(r, s') := DownloadSampleVideos.download_sample_videos D s in
  r = Ok tt /\ model s' = model s /\ processor s' = processor s /\
  (forall k, ~ In k (map fst DownloadSampleVideos.sample_videos) -> fs s' !! k = fs s !! k) /\
  (forall k, is_Some (fs s !! k) -> fs s' !! k = fs s !! k) /\
  (forall f u chunks, In (f, u) DownloadSampleVideos.sample_videos -> fs s !! f = None ->
     DownloadSampleVideos.fetch D u = DownloadSampleVideos.FetchBody chunks None ->
     DownloadSampleVideos.d_open_error D f = None ->
     DownloadSampleVideos.d_write_error D f = None ->
     fs s' !! f = Some (concat chunks) /\ In ("Downloaded " ++ f)%string (logs s')).
Proof.
  unfold DownloadSampleVideos.download_sample_videos.
  pose proof (download_all_spec D DownloadSampleVideos.sample_videos s) as H.
  pose proof (fun f u => download_all_item D DownloadSampleVideos.sample_videos s f u
                           sample_videos_nodup) as Hi.
  destruct (DownloadSampleVideos.download_all D DownloadSampleVideos.sample_videos s) as [r s'].
  destruct H as (-> & M & P & _ & K & X). cbn [snd] in Hi.
  split; [reflexivity|]. split; [exact M|]. split; [exact P|].
  split; [exact K|]. split; [exact X|].
  intros f u chunks Hin Hf Hfe Ho Hwe.
  destruct (Hi f u Hin) as (s0 & H0 & H1 & post & H2). rewrite H1, H2.
  pose proof (download_one_spec D f u s0) as H3.
  destruct (DownloadSampleVideos.download_one D f u s0) as [r1 s1]. cbn [snd].
  destruct H3 as (_ & _ & _ & _ & _ & _ & H3).
  destruct (H3 chunks None ltac:(rewrite H0; exact Hf) Hfe Ho Hwe) as [Hc Hl].
  split; [exact Hc|]. rewrite Hl. apply in_or_app. left. apply in_or_app. right. right. now left.
Qed.

(** A download interrupted mid-stream leaves the partial file on disk
    (only the failure is logged), and a later run skips it as already
    present, whatever the server answers then. *)
Theorem partial_download_never_retried (D D' : DownloadSampleVideos.downloader) (s : state)
    (f u : string) (chunks : list (list byte)) (msg : string) :
  In (f, u) DownloadSampleVideos.sample_videos -> fs s !! f = None ->
  DownloadSampleVideos.fetch D u = DownloadSampleVideos.FetchBody chunks (Some msg) ->
  DownloadSampleVideos.d_open_error D f = None ->
  DownloadSampleVideos.d_write_error D f = None ->
  let s1 := snd (DownloadSampleVideos.download_sample_videos D s) in
  let s2 := snd (DownloadSampleVideos.download_sample_videos D' s1) in
  fs s1 !! f = Some (concat chunks) /\
  In ("Failed to download " ++ f ++ ": " ++ msg)%string (logs s1) /\
  fs s2 !! f = Some (concat chunks) /\ In (f ++ " already exists")%string (logs s2).
Proof.
  intros Hin Hf Hfe Ho Hwe s1 s2.
  assert (A1 : fs s1 !! f = Some (concat chunks) /\
               In ("Failed to download " ++ f ++ ": " ++ msg)%string (logs s1)).
  { subst s1 s2. unfold DownloadSampleVideos.download_sample_videos.
    destruct (download_all_item D _ s f u sample_videos_nodup Hin) as (s0 & H0 & H1 & post & H2).
    rewrite H1, H2.
    pose proof (download_one_spec D f u s0) as H3.
    destruct (DownloadSampleVideos.download_one D f u s0) as [r1 t1]. cbn [snd].
    destruct H3 as (_ & _ & _ & _ & _ & _ & H3).
    destruct (H3 chunks (Some msg) ltac:(rewrite H0; exact Hf) Hfe Ho Hwe) as [Hc Hl].
    split; [exact Hc|]. rewrite Hl. apply in_or_app. left. apply in_or_app. right. right. now left. }
  destruct A1 as [A1 L1]. split; [exact A1|]. split; [exact L1|].
  subst s2. unfold DownloadSampleVideos.download_sample_videos. split.
  - pose proof (download_all_spec D' DownloadSampleVideos.sample_videos s1) as H.
    destruct (DownloadSampleVideos.download_all D' _ s1) as [r t]. cbn [snd].
    destruct H as (_ & _ & _ & _ & _ & X). rewrite X; rewrite A1; [reflexivity|eauto].
  - destruct (download_all_item D' _ s1 f u sample_videos_nodup Hin) as (s0 & H0 & _ & post & H2).
    rewrite H2.
    pose proof (download_one_spec D' f u s0) as H3.
    destruct (DownloadSampleVideos.download_one D' f u s0) as [r1 t1]. cbn [snd].
    destruct H3 as (_ & _ & _ & _ & _ & H3 & _).
    destruct (H3 ltac:(rewrite H0, A1; eauto)) as [_ Hl].
    rewrite Hl. apply in_or_app. left. apply in_or_app. right. now left.
Qed.

Lemma partial_download_never_retried_witness :
  fs (snd (DownloadSampleVideos.download_sample_videos dl_partial
             (snd (DownloadSampleVideos.download_sample_videos dl_partial (client_state ∅)))))
    !! "sample_bunny_1mb.mp4"%string = Some [x00; x00].
Proof.
  destruct (partial_download_never_retried dl_partial dl_partial (client_state ∅)
              "sample_bunny_1mb.mp4" "https://sample-videos.com/video321/mp4/720/big_buck_bunny_720p_1mb.mp4"
              [[x00; x00]] "Connection broken: IncompleteRead"
              ltac:(simpl; tauto) eq_refl eq_refl eq_refl eq_refl) as (_ & _ & H & _).
  exact H.
Defined.
